(** * The molecule-building context of the GFlowNet environment

    A shallow embedding of [MolBuildingEnvContext]
    (src/gt4sd/frameworks/gflownet/envs/mol_building_env.py): the attribute
    tables built by [__init__], the codec between graph actions and index
    triples ([aidx_to_GraphAction], [GraphAction_to_aidx]), the tensor form
    of a graph ([graph_to_Data]) and the conversions between molecules and
    graphs ([mol_to_graph], [graph_to_mol], [is_sane]); and, after it, of
    the reading of command-line arguments from a dataclass
    (src/gt4sd/cli/load_arguments_from_dataclass.py).

    Python integers are [Z]; Python lists are lists, indexed the way Python
    indexes them (negative indices count from the end, anything else out of
    range raises); dictionaries whose iteration order the code relies on are
    association lists in insertion order, attribute dictionaries of nodes
    and edges are [gmap string pyval]; a call that can raise returns a
    [result]. *)

From Stdlib Require Import ZArith String List Bool Lia.
From stdpp Require Import base option list gmap strings.

Local Open Scope string_scope.
Local Open Scope list_scope.

(** ** Exceptions and fallible computations *)

(** The classes of Python's exceptions that occur, and [TorchError] for an
    error raised inside torch whose class is not the same in all versions
    of torch: the refusal of [None] or of an integer that does not fit in
    64 bits where a tensor of integers is built or indexed. *)
Inductive exn : Type :=
  | IndexError
  | KeyError
  | ValueError
  | TypeError
  | RuntimeError
  | OverflowError
  | UnboundLocalError
  | AssertionError
  | TorchError.

Inductive result (A : Type) : Type :=
  | Ok (a : A)
  | Raise (e : exn).

Arguments Ok {A} a.
Arguments Raise {A} e.

(** Sequencing: the first exception raised ends the computation. The
    notation [x ← m; k] of the monad classes is used for it. *)
Global Instance result_ret : MRet result := @Ok.

Global Instance result_bind : MBind result := λ A B k m,
  match m with
  | Ok a => k a
  | Raise e => Raise e
  end.

Definition raises {A : Type} (m : result A) : Prop :=
  match m with
  | Ok _ => False
  | Raise _ => True
  end.

Definition of_option {A : Type} (e : exn) (o : option A) : result A :=
  match o with
  | Some a => Ok a
  | None => Raise e
  end.

(** ** Python sequences *)

Section py_list.
Context {A : Type}.

(** [len(l)] *)
Definition len (l : list A) : Z := Z.of_nat (length l).

(** [l[i]]: a negative index counts from the end, an index outside
    [-len(l) .. len(l) - 1] raises IndexError. *)
Definition py_get (l : list A) (i : Z) : result A :=
  if (0 <=? i)%Z then of_option IndexError (l !! Z.to_nat i)
  else if (- len l <=? i)%Z then of_option IndexError (l !! Z.to_nat (len l + i))
  else Raise IndexError.

(** [l[i] = a], with the same index discipline. *)
Definition py_set (l : list A) (i : Z) (a : A) : result (list A) :=
  if (0 <=? i)%Z then
    if (i <? len l)%Z then Ok (<[Z.to_nat i := a]> l) else Raise IndexError
  else if (- len l <=? i)%Z then Ok (<[Z.to_nat (len l + i) := a]> l)
  else Raise IndexError.

(** [enumerate(l)] *)
Fixpoint enumerate_from (i : Z) (l : list A) : list (Z * A) :=
  match l with
  | [] => []
  | a :: l' => (i, a) :: enumerate_from (i + 1) l'
  end.

Definition enumerate (l : list A) : list (Z * A) := enumerate_from 0 l.

(** Position of the first element satisfying [p], counted from [i]. *)
Fixpoint find_from (p : A → bool) (i : Z) (l : list A) : option Z :=
  match l with
  | [] => None
  | a :: l' => if p a then Some i else find_from p (i + 1) l'
  end.
End py_list.

(** [zip(a, b)] stops at the shorter argument. *)
Fixpoint zip {A B : Type} (a : list A) (b : list B) : list (A * B) :=
  match a, b with
  | x :: a', y :: b' => (x, y) :: zip a' b'
  | _, _ => []
  end.

(** [sum(l)] and [numpy.cumsum(l)] *)
Definition sum (l : list Z) : Z := fold_right Z.add 0%Z l.

Fixpoint cumsum_from (acc : Z) (l : list Z) : list Z :=
  match l with
  | [] => []
  | a :: l' => (acc + a)%Z :: cumsum_from (acc + a) l'
  end.

Definition cumsum (l : list Z) : list Z := cumsum_from 0 l.

(** [sorted(l)] on strings (insertion into a sorted list; equal keys do not
    occur among dictionary keys). *)
Fixpoint insert_sorted (s : string) (l : list string) : list string :=
  match l with
  | [] => [s]
  | t :: l' => if String.leb s t then s :: l else t :: insert_sorted s l'
  end.

Definition sorted (l : list string) : list string :=
  fold_right insert_sorted [] l.

(** Folding a fallible loop body over a sequence. *)
Fixpoint for_each {A S : Type} (l : list A) (body : A → S → result S) (s : S)
  : result S :=
  match l with
  | [] => Ok s
  | a :: l' => s' ← body a s; for_each l' body s'
  end.

(** ** Insertion-ordered dictionaries *)

Section odict.
Context {K V : Type} `{EqDecision K}.

Definition odict : Type := list (K * V).

Fixpoint od_get (k : K) (d : odict) : option V :=
  match d with
  | [] => None
  | (k', v) :: d' => if decide (k = k') then Some v else od_get k d'
  end.

(** [d[k] = v]: an existing key keeps its place, a new key goes last. *)
Fixpoint od_set (k : K) (v : V) (d : odict) : odict :=
  match d with
  | [] => [(k, v)]
  | (k', v') :: d' =>
      if decide (k = k') then (k', v) :: d' else (k', v') :: od_set k v d'
  end.

Definition od_keys (d : odict) : list K := map fst d.
Definition od_values (d : odict) : list V := map snd d.

(** [d[k]], raising KeyError on a missing key. *)
Definition od_item (k : K) (d : odict) : result V :=
  of_option KeyError (od_get k d).
End odict.

Arguments odict : clear implicits.

(** ** Values of attributes

    The members of RDKit's enumerations that the module names, and one
    further member of each: [ChiralType.CHI_OTHER] and [BondType.OTHER]. *)

Inductive ChiralType : Type :=
  | CHI_UNSPECIFIED
  | CHI_TETRAHEDRAL_CW
  | CHI_TETRAHEDRAL_CCW
  | CHI_OTHER.

Inductive BondType : Type :=
  | SINGLE
  | DOUBLE
  | TRIPLE
  | AROMATIC
  | BOND_OTHER.

Inductive pyval : Type :=
  | VStr (s : string)
  | VInt (z : Z)
  | VBool (b : bool)
  | VChi (c : ChiralType)
  | VBond (b : BondType).

Global Instance ChiralType_eq_dec : EqDecision ChiralType.
Proof. solve_decision. Defined.

Global Instance BondType_eq_dec : EqDecision BondType.
Proof. solve_decision. Defined.

Global Instance pyval_eq_dec : EqDecision pyval.
Proof. solve_decision. Defined.

(** The integer that a member of an enumeration is: the enumerations that
    Boost.Python exports are subclasses of [int], and the values are those
    of RDKit's headers. *)
Definition chi_int (c : ChiralType) : Z :=
  match c with
  | CHI_UNSPECIFIED => 0
  | CHI_TETRAHEDRAL_CW => 1
  | CHI_TETRAHEDRAL_CCW => 2
  | CHI_OTHER => 3
  end.

Definition bond_int (b : BondType) : Z :=
  match b with
  | SINGLE => 1
  | DOUBLE => 2
  | TRIPLE => 3
  | AROMATIC => 12
  | BOND_OTHER => 20
  end.

(** The integer that a value is as a Python [int]: an integer itself, a
    boolean ([bool] is a subclass of [int]) and a member of an
    enumeration. A string is none. *)
Definition as_number (v : pyval) : option Z :=
  match v with
  | VStr _ => None
  | VInt z => Some z
  | VBool b => Some (Z.b2z b)
  | VChi c => Some (chi_int c)
  | VBond b => Some (bond_int b)
  end.

(** Python's [==] on attribute values: strings compare with strings; the
    other values compare as integers, so [True == 1],
    [ChiralType.CHI_TETRAHEDRAL_CW == 1] and [BondType.SINGLE == 1]; a
    string equals no integer. *)
Definition py_eq (a b : pyval) : bool :=
  match a, b with
  | VStr s, VStr t => bool_decide (s = t)
  | _, _ =>
      match as_number a, as_number b with
      | Some x, Some y => (x =? y)%Z
      | _, _ => false
      end
  end.

(** [l.index(v)]: the first position whose element is [== v], ValueError
    when there is none. *)
Definition index (l : list pyval) (v : pyval) : result Z :=
  of_option ValueError (find_from (py_eq v) 0 l).

(** [[f(a) for a in l]] with a fallible [f]. *)
Fixpoint mapM {A B : Type} (f : A → result B) (l : list A) : result (list B) :=
  match l with
  | [] => Ok []
  | a :: l' => b ← f a; bs ← mapM f l'; Ok (b :: bs)
  end.

(** [range(n)] *)
Definition range (n : nat) : list Z := map Z.of_nat (seq 0 n).

(** [{k: v for k, v in l}] *)
Definition dict_of {K V : Type} `{EqDecision K} (l : list (K * V)) : odict K V :=
  fold_left (λ d kv, od_set kv.1 kv.2 d) l [].

(** ** Actions *)

(** Modelled from the spec: [GraphActionType] is declared in
    graph_building_env.py, which is missing. An action is one of a fixed
    closed set of variants: Stop, AddNode, SetNodeAttr, AddEdge and
    SetEdgeAttr. *)
Inductive GraphActionType : Type :=
  | Stop
  | AddNode
  | SetNodeAttr
  | AddEdge
  | SetEdgeAttr.

Global Instance GraphActionType_eq_dec : EqDecision GraphActionType.
Proof. solve_decision. Defined.

(** Modelled from the spec: [GraphAction] is declared in
    graph_building_env.py, which is missing. An action carries a subset of
    source node, target node, attribute name and attribute value; the
    fields are the keyword arguments with which this module constructs an
    action and which it reads back, [None] when not given. *)
Record GraphAction : Type := mkGraphAction {
  action : GraphActionType;
  source : option Z;
  target : option Z;
  value : option pyval;
  attr : option string;
}.

Global Instance GraphAction_eq_dec : EqDecision GraphAction.
Proof. solve_decision. Defined.

(** ** The attribute tables: [MolBuildingEnvContext.__init__] *)

(** The attributes that [__init__] sets on the context. *)
Record Ctx : Type := mkCtx {
  atom_attr_values : odict string (list pyval);
  atom_attr_defaults : odict string pyval;
  atom_attr_size : Z;
  atom_attrs : list string;
  atom_attr_slice : list Z;
  atom_attr_logit_slice : odict string Z;
  atom_attr_logit_map : list (string * pyval);
  bond_attr_values : odict string (list pyval);
  bond_attr_defaults : odict string pyval;
  bond_attr_size : Z;
  bond_attrs : list string;
  bond_attr_slice : list Z;
  bond_attr_logit_slice : odict string Z;
  bond_attr_logit_map : list (string * pyval);
  num_new_node_values : Z;
  num_node_attr_logits : Z;
  num_node_dim : Z;
  num_edge_attr_logits : Z;
  num_edge_dim : Z;
  num_cond_dim : Z;
  action_type_order : list GraphActionType;
}.

Section tables.
Variable values : odict string (list pyval).

(** [{k: values[k][0] for k in values}] *)
Definition attr_defaults : result (odict string pyval) :=
  kvs ← mapM (λ k, vs ← od_item k values; d ← py_get vs 0; Ok (k, d))
             (od_keys values);
  Ok (dict_of kvs).

(** [sum(len(i) for i in values.values())] *)
Definition attr_size : Z := sum (map len (od_values values)).

(** [[0] + list(np.cumsum([len(values[i]) for i in attrs]))] *)
Definition attr_slice (attrs : list string) : result (list Z) :=
  ls ← mapM (λ i, vs ← od_item i values; Ok (len vs)) attrs;
  Ok (0%Z :: cumsum ls).

(** [{k: s for k, s in zip(attrs, [0] + list(np.cumsum([len(values[i]) - 1
    for i in attrs])))}] *)
Definition attr_logit_slice (attrs : list string) : result (odict string Z) :=
  ls ← mapM (λ i, vs ← od_item i values; Ok (len vs - 1)%Z) attrs;
  Ok (dict_of (zip attrs (0%Z :: cumsum ls))).

(** [[(k, v) for k in attrs if keep(k) for v in values[k][1:]]] *)
Definition attr_logit_map (keep : string → bool) (attrs : list string)
  : result (list (string * pyval)) :=
  rows ← mapM (λ k, vs ← od_item k values; Ok (map (pair k) (tail vs)))
              (List.filter keep attrs);
  Ok (concat rows).
End tables.

(** [self.atom_attr_values] and [self.bond_attr_values], in the order in
    which the source writes their keys. *)
Definition atom_values (atoms : list string) : odict string (list pyval) :=
  [ ("v", map VStr atoms);
    ("chi", [VChi CHI_UNSPECIFIED; VChi CHI_TETRAHEDRAL_CW; VChi CHI_TETRAHEDRAL_CCW]);
    ("charge", [VInt 0; VInt 1; VInt (-1)]);
    ("expl_H", map VInt (range 4));
    ("no_impl", [VBool false; VBool true]) ].

Definition bond_values : odict string (list pyval) :=
  [ ("type", [VBond SINGLE; VBond DOUBLE; VBond TRIPLE; VBond AROMATIC]) ].

(** [MolBuildingEnvContext(atoms, num_cond_dim)]. An empty vocabulary makes
    [self.atom_attr_values["v"][0]] raise IndexError. *)
Definition init (atoms : list string) (num_cond_dim : Z) : result Ctx :=
  let atom_attr_values := atom_values atoms in
  atom_attr_defaults ← attr_defaults atom_attr_values;
  let atom_attr_size := attr_size atom_attr_values in
  let atom_attrs := sorted (od_keys atom_attr_values) in
  atom_attr_slice ← attr_slice atom_attr_values atom_attrs;
  atom_attr_logit_slice ← attr_logit_slice atom_attr_values atom_attrs;
  atom_attr_logit_map ←
    attr_logit_map atom_attr_values (λ k, negb (bool_decide (k = "v"))) atom_attrs;
  let bond_attr_values := bond_values in
  bond_attr_defaults ← attr_defaults bond_attr_values;
  let bond_attr_size := attr_size bond_attr_values in
  let bond_attrs := sorted (od_keys bond_attr_values) in
  bond_attr_slice ← attr_slice bond_attr_values bond_attrs;
  bond_attr_logit_slice ← attr_logit_slice bond_attr_values bond_attrs;
  bond_attr_logit_map ← attr_logit_map bond_attr_values (λ _, true) bond_attrs;
  Ok {| atom_attr_values := atom_attr_values;
        atom_attr_defaults := atom_attr_defaults;
        atom_attr_size := atom_attr_size;
        atom_attrs := atom_attrs;
        atom_attr_slice := atom_attr_slice;
        atom_attr_logit_slice := atom_attr_logit_slice;
        atom_attr_logit_map := atom_attr_logit_map;
        bond_attr_values := bond_attr_values;
        bond_attr_defaults := bond_attr_defaults;
        bond_attr_size := bond_attr_size;
        bond_attrs := bond_attrs;
        bond_attr_slice := bond_attr_slice;
        bond_attr_logit_slice := bond_attr_logit_slice;
        bond_attr_logit_map := bond_attr_logit_map;
        num_new_node_values := len atoms;
        num_node_attr_logits := len atom_attr_logit_map;
        num_node_dim := (atom_attr_size + 1)%Z;
        num_edge_attr_logits := len bond_attr_logit_map;
        num_edge_dim := bond_attr_size;
        num_cond_dim := num_cond_dim;
        action_type_order := [Stop; AddNode; SetNodeAttr; AddEdge; SetEdgeAttr] |}.

(** The default value of the parameter [atoms]. *)
Definition default_atoms : list string := ["H"; "C"; "N"; "O"; "F"].

(** ** Graphs

    [Graph] (graph_building_env.py) is a networkx [Graph]. The model keeps
    what networkx keeps: the dictionary of nodes and the dictionary of
    adjacency dictionaries, both in insertion order, with the attribute
    dictionary of an edge stored under both of its endpoints. *)

Module nx.

Record Graph : Type := mkGraph {
  _node : odict Z (gmap string pyval);
  _adj : odict Z (odict Z (gmap string pyval));
}.

(** [Graph()] *)
Definition empty : Graph := mkGraph [] [].

(** The node is created, without attributes, if the graph lacks it. *)
Definition touch (n : Z) (g : Graph) : Graph :=
  match od_get n (_node g) with
  | Some _ => g
  | None => mkGraph (od_set n ∅ (_node g)) (od_set n [] (_adj g))
  end.

(** [g.add_node(n, **attr)] *)
Definition add_node (n : Z) (attr : gmap string pyval) (g : Graph) : Graph :=
  match od_get n (_node g) with
  | None => mkGraph (od_set n attr (_node g)) (od_set n [] (_adj g))
  | Some old => mkGraph (od_set n (attr ∪ old) (_node g)) (_adj g)
  end.

(** [g.add_edge(u, v, **attr)] *)
Definition add_edge (u v : Z) (attr : gmap string pyval) (g : Graph) : Graph :=
  let g := touch v (touch u g) in
  let nbrs_u := default [] (od_get u (_adj g)) in
  let datadict := attr ∪ default ∅ (od_get v nbrs_u) in
  let adj := od_set u (od_set v datadict nbrs_u) (_adj g) in
  let nbrs_v := default [] (od_get v adj) in
  mkGraph (_node g) (od_set v (od_set u datadict nbrs_v) adj).

(** Iterating [g.nodes], and [g.nodes[n]]. *)
Definition nodes (g : Graph) : list Z := od_keys (_node g).

Definition node_data (g : Graph) (n : Z) : result (gmap string pyval) :=
  od_item n (_node g).

(** Iterating [g.edges]: every node in turn reports the neighbours that
    have not reported yet, so each edge appears once. *)
Fixpoint edges_from (seen : list Z) (adj : odict Z (odict Z (gmap string pyval)))
  : list (Z * Z) :=
  match adj with
  | [] => []
  | (n, nbrs) :: adj' =>
      map (pair n) (filter (λ nbr, nbr ∉ seen) (od_keys nbrs))
        ++ edges_from (n :: seen) adj'
  end.

Definition edges (g : Graph) : list (Z * Z) := edges_from [] (_adj g).

(** [g.edges[e]] *)
Definition edge_data (g : Graph) (e : Z * Z) : result (gmap string pyval) :=
  nbrs ← od_item e.1 (_adj g); od_item e.2 nbrs.

(** [g.has_edge(u, v)] *)
Definition has_edge (g : Graph) (u v : Z) : bool :=
  match od_get u (_adj g) with
  | Some nbrs => bool_decide (is_Some (od_get v nbrs))
  | None => false
  end.

(** [nx.complement(g)]: a fresh graph on the nodes of [g] to which every
    pair [(n, n2)] of distinct nodes with [n2] not a neighbour of [n] is
    added as an edge. *)
Definition non_neighbours (g : Graph) : list (Z * Z) :=
  flat_map (λ '(n, nbrs),
              map (pair n)
                (filter (λ n2, od_get n2 nbrs = None ∧ n ≠ n2) (nodes g)))
           (_adj g).

Definition complement (g : Graph) : Graph :=
  let R := fold_left (λ r n, touch n r) (nodes g) empty in
  fold_left (λ r e, add_edge e.1 e.2 ∅ r) (non_neighbours g) R.

End nx.

(** ** The tensor form of a graph

    A [torch_geometric] [Data] object with the four tensors the context
    puts in it. [x] and [edge_attr] are matrices of zeros and ones, a list
    of rows; [edge_index] and [non_edge_index] have shape 2 x n and are kept
    as the list of their n columns. *)

Record Data : Type := mkData {
  x : list (list Z);
  edge_index : list (Z * Z);
  edge_attr : list (list Z);
  non_edge_index : list (Z * Z);
}.

(** An integer that fits in 64 bits, as the entries of a tensor of
    integers do. *)
Definition in_int64 (z : Z) : bool :=
  (-9223372036854775808 <=? z)%Z && (z <? 9223372036854775808)%Z.

(** [torch.tensor(l, dtype=torch.long)] on a list of pairs of integers:
    torch refuses an integer that does not fit. *)
Definition long_tensor (l : list (Z * Z)) : result (list (Z * Z)) :=
  if forallb (λ p, in_int64 p.1 && in_int64 p.2) l then Ok l
  else Raise TorchError.

(** [torch.tensor([(s, t)])] where [s] and [t] are fields of an action:
    torch refuses [None] and an integer that does not fit. *)
Definition pair_tensor (s t : option Z) : result (Z * Z) :=
  s ← of_option TorchError s;
  t ← of_option TorchError t;
  if in_int64 s && in_int64 t then Ok (s, t) else Raise TorchError.

(** [index[:, i]] on a tensor of shape 2 x n kept as the list of its
    columns: the column that a Python list gives for [i]; when there is
    none, IndexError for an [i] that fits in 64 bits and torch's own
    error for one that does not. A tensor has fewer than 2^63 columns, so
    an index with a column fits. *)
Definition tensor_col (index : list (Z * Z)) (i : Z) : result (Z * Z) :=
  match py_get index i with
  | Ok c => Ok c
  | Raise _ => if in_int64 i then Raise IndexError else Raise TorchError
  end.

(** [torch.zeros((rows, cols))] *)
Definition zeros (rows cols : Z) : list (list Z) :=
  replicate (Z.to_nat rows) (replicate (Z.to_nat cols) 0%Z).

(** [m[i, j] = v] *)
Definition set2 (m : list (list Z)) (i j v : Z) : result (list (list Z)) :=
  row ← py_get m i; row' ← py_set row j v; py_set m i row'.

(** [[(i, j), (j, i)]]: the two columns that an edge contributes to
    [edge_index]. *)
Definition both_ways (e : Z * Z) : list (Z * Z) :=
  let '(i, j) := e in [(i, j); (j, i)].

Section graph_to_Data.
Variable self : Ctx.

(** One pass of the loop over the attributes of a node or an edge:
    position [sl + idx] is set in each of the given rows, where [idx] is the
    place of the stored value in the attribute's list, 0 when the
    attribute is not stored. *)
Definition one_hot (values : odict string (list pyval))
    (attrs : list string) (slices : list Z) (ad : gmap string pyval)
    (rows : list Z) (m : list (list Z)) : result (list (list Z)) :=
  for_each (zip attrs slices) (λ '(k, sl) m,
    idx ← match ad !! k with
          | Some v => vs ← od_item k values; index vs v
          | None => Ok 0%Z
          end;
    for_each rows (λ i m, set2 m i (sl + idx) 1) m) m.

(** [self.graph_to_Data(g)] *)
Definition graph_to_Data (g : nx.Graph) : result Data :=
  let nodes := nx.nodes g in
  let edges := nx.edges g in
  let x := zeros (Z.max 1 (len nodes)) (num_node_dim self) in
  x ← set2 x 0 (-1) (Z.b2z (len nodes =? 0)%Z);
  x ← for_each (enumerate nodes) (λ '(i, n) x,
         ad ← nx.node_data g n;
         one_hot (atom_attr_values self) (atom_attrs self)
                 (atom_attr_slice self) ad [i] x) x;
  let edge_attr := zeros (len edges * 2) (num_edge_dim self) in
  edge_attr ← for_each (enumerate edges) (λ '(i, e) edge_attr,
         ad ← nx.edge_data g e;
         one_hot (bond_attr_values self) (bond_attrs self)
                 (bond_attr_slice self) ad [i * 2; i * 2 + 1]%Z edge_attr)
       edge_attr;
  edge_index ← long_tensor (flat_map both_ways edges);
  non_edge_index ← long_tensor (nx.edges (nx.complement g));
  Ok (mkData x edge_index edge_attr non_edge_index).
End graph_to_Data.

(** ** The codec between actions and index triples *)

(** [t.argmax()] on a one-dimensional tensor: the position of the first
    maximal entry. On an empty tensor torch raises IndexError, and raised
    RuntimeError in older versions. *)
Fixpoint argmax_from (best_i best_v i : Z) (l : list Z) : Z :=
  match l with
  | [] => best_i
  | v :: l' =>
      if (best_v <? v)%Z then argmax_from i v (i + 1) l'
      else argmax_from best_i best_v (i + 1) l'
  end.

Definition argmax (l : list Z) : result Z :=
  match l with
  | [] => Raise IndexError
  | v :: l' => Ok (argmax_from 0 v 1 l')
  end.

(** [(index.T == torch.tensor([(a, b)])).prod(1)]: one entry per column of
    [index], 1 where the column is [(a, b)] and 0 elsewhere. *)
Definition match_mask (index : list (Z * Z)) (a b : Z) : list Z :=
  map (λ p, Z.b2z (bool_decide (p.1 = a)) * Z.b2z (bool_decide (p.2 = b)))%Z index.

(** Entrywise sum of two tensors of the same length. *)
Definition tensor_add (a b : list Z) : list Z :=
  map (λ p, p.1 + p.2)%Z (zip a b).

(** [int(v)] where [v] may be [None]. *)
Definition int (v : option Z) : result Z := of_option TypeError v.

Section codec.
Variable self : Ctx.

(** [values[attr].index(value) - 1 + logit_slice[attr]], where [attr] and
    [value] are fields of an action and may be [None]. *)
Definition logit_col (values : odict string (list pyval))
    (logit_slice : odict string Z) (attr : option string)
    (value : option pyval) : result Z :=
  k ← of_option KeyError attr;
  vs ← od_item k values;
  v ← of_option ValueError value;
  i ← index vs v;
  sl ← od_item k logit_slice;
  Ok (i - 1 + sl)%Z.

(** [self.aidx_to_GraphAction(g, action_idx)]. The chain of [if]/[elif]
    has no [else]: a [t] that is none of the five variants would leave the
    function without a [return], that is with [None]. *)
Definition aidx_to_GraphAction (g : Data) (action_idx : Z * Z * Z)
  : result (option GraphAction) :=
  let '(act_type, act_row, act_col) := action_idx in
  t ← py_get (action_type_order self) act_type;
  if decide (t = Stop) then
    Ok (Some (mkGraphAction t None None None None))
  else if decide (t = AddNode) then
    vs ← od_item "v" (atom_attr_values self);
    v ← py_get vs act_col;
    Ok (Some (mkGraphAction t (Some act_row) None (Some v) None))
  else if decide (t = SetNodeAttr) then
    '(attr, val) ← py_get (atom_attr_logit_map self) act_col;
    Ok (Some (mkGraphAction t (Some act_row) None (Some val) (Some attr)))
  else if decide (t = AddEdge) then
    '(a, b) ← tensor_col (non_edge_index g) act_row;
    Ok (Some (mkGraphAction t (Some a) (Some b) None None))
  else if decide (t = SetEdgeAttr) then
    '(a, b) ← tensor_col (edge_index g) (act_row * 2);
    '(attr, val) ← py_get (bond_attr_logit_map self) act_col;
    Ok (Some (mkGraphAction t (Some a) (Some b) (Some val) (Some attr)))
  else Ok None.

(** [self.GraphAction_to_aidx(g, action)]. [rc] holds the local variables
    [row] and [col], unbound when no branch of the chain is taken; [row] is
    [None] when it was copied from an action without a source. *)
Definition GraphAction_to_aidx (g : Data) (a : GraphAction)
  : result (Z * Z * Z) :=
  rc ← (if decide (action a = Stop) then
          Ok (Some (Some 0%Z, 0%Z))
        else if decide (action a = AddNode) then
          vs ← od_item "v" (atom_attr_values self);
          v ← of_option ValueError (value a);
          col ← index vs v;
          Ok (Some (source a, col))
        else if decide (action a = SetNodeAttr) then
          col ← logit_col (atom_attr_values self) (atom_attr_logit_slice self)
                          (attr a) (value a);
          Ok (Some (source a, col))
        else if decide (action a = AddEdge) then
          st ← pair_tensor (source a) (target a);
          ts ← pair_tensor (target a) (source a);
          row ← argmax (tensor_add (match_mask (non_edge_index g) st.1 st.2)
                                   (match_mask (non_edge_index g) ts.1 ts.2));
          Ok (Some (Some row, 0%Z))
        else if decide (action a = SetEdgeAttr) then
          st ← pair_tensor (source a) (target a);
          row ← argmax (match_mask (edge_index g) st.1 st.2);
          let row := (row `div` 2)%Z in
          col ← logit_col (bond_attr_values self) (bond_attr_logit_slice self)
                          (attr a) (value a);
          Ok (Some (Some row, col))
        else Ok None);
  type_idx ← of_option ValueError
               (find_from (λ t, bool_decide (t = action a)) 0
                          (action_type_order self));
  '(row, col) ← of_option UnboundLocalError rc;
  row ← int row;
  Ok (type_idx, row, col).
End codec.

(** ** Molecules

    What the context reads from and writes to an RDKit molecule: per atom
    the symbol, chiral tag, formal charge, number of explicit hydrogens and
    no-implicit flag; per bond the two atom indices and the bond type. The
    index of an atom is its position in the molecule. *)

Record Atom : Type := mkAtom {
  Symbol : string;
  ChiralTag : ChiralType;
  FormalCharge : Z;
  NumExplicitHs : Z;
  NoImplicit : bool;
}.

Record Bond : Type := mkBond {
  BeginAtomIdx : Z;
  EndAtomIdx : Z;
  GetBondType : BondType;
}.

Record Mol : Type := mkMol {
  GetAtoms : list Atom;
  GetBonds : list Bond;
}.

(** [{attr: val for attr, val in attrs.items() if val != defaults[attr]}] *)
Fixpoint non_default (defaults : odict string pyval) (attrs : list (string * pyval))
  : result (gmap string pyval) :=
  match attrs with
  | [] => Ok ∅
  | (attr, val) :: attrs' =>
      d ← od_item attr defaults;
      rest ← non_default defaults attrs';
      Ok (if py_eq val d then rest else <[attr := val]> rest)
  end.

Section mol_to_graph.
Variable self : Ctx.

(** The keyword arguments of [g.add_node] for an atom and of [g.add_edge]
    for a bond. *)
Definition atom_node (a : Atom) : result (gmap string pyval) :=
  kw ← non_default (atom_attr_defaults self)
         [ ("chi", VChi (ChiralTag a));
           ("charge", VInt (FormalCharge a));
           ("expl_H", VInt (NumExplicitHs a));
           ("no_impl", VBool (NoImplicit a)) ];
  Ok (<["v" := VStr (Symbol a)]> kw).

Definition bond_edge (b : Bond) : result (gmap string pyval) :=
  non_default (bond_attr_defaults self) [ ("type", VBond (GetBondType b)) ].

(** [self.mol_to_graph(mol)] *)
Definition mol_to_graph (mol : Mol) : result nx.Graph :=
  g ← for_each (enumerate (GetAtoms mol)) (λ '(idx, a) g,
        kw ← atom_node a; Ok (nx.add_node idx kw g)) nx.empty;
  for_each (GetBonds mol) (λ b g,
        kw ← bond_edge b;
        Ok (nx.add_edge (BeginAtomIdx b) (EndAtomIdx b) kw g)) g.
End mol_to_graph.

(** Arguments handed to RDKit's setters and to [AddBond], as Boost.Python
    converts them. An [int] parameter takes whatever is a Python [int] (an
    integer, a boolean, a member of an enumeration) and fits in a C [int],
    an [unsigned int] parameter one that fits in a C [unsigned int]; an
    integer that does not fit raises OverflowError. A [bool] parameter
    takes a Python [int] by its truth value. An enumeration parameter
    takes a member of that enumeration. Anything else is a TypeError. *)
Definition as_int (v : pyval) : result Z :=
  match as_number v with
  | Some z =>
      if (-2147483648 <=? z)%Z && (z <? 2147483648)%Z then Ok z
      else Raise OverflowError
  | None => Raise TypeError
  end.

Definition as_unsigned (v : pyval) : result Z :=
  match as_number v with
  | Some z =>
      if (0 <=? z)%Z && (z <? 4294967296)%Z then Ok z
      else Raise OverflowError
  | None => Raise TypeError
  end.

Definition as_bool (v : pyval) : result bool :=
  match as_number v with
  | Some z => Ok (negb (z =? 0)%Z)
  | None => Raise TypeError
  end.

Definition as_chi (v : pyval) : result ChiralType :=
  match v with
  | VChi c => Ok c
  | _ => Raise TypeError
  end.

Definition as_bond (v : pyval) : result BondType :=
  match v with
  | VBond b => Ok b
  | _ => Raise TypeError
  end.

(** [mp.AddBond(i, j, t)]: the two indices are [unsigned int] parameters;
    RDKit refuses an index that is not an atom, a bond from an atom to
    itself and a second bond between two atoms. *)
Definition bonded (mp : Mol) (i j : Z) : bool :=
  existsb (λ b, bool_decide ((BeginAtomIdx b = i ∧ EndAtomIdx b = j)
                             ∨ (BeginAtomIdx b = j ∧ EndAtomIdx b = i)))
          (GetBonds mp).

Definition AddBond (mp : Mol) (i j : Z) (t : BondType) : result Mol :=
  let n := len (GetAtoms mp) in
  i ← as_unsigned (VInt i);
  j ← as_unsigned (VInt j);
  if negb ((i <? n) && (j <? n))%Z then Raise RuntimeError
  else if (i =? j)%Z then Raise RuntimeError
  else if bonded mp i j then Raise RuntimeError
  else Ok (mkMol (GetAtoms mp) (GetBonds mp ++ [mkBond i j t])).

Section graph_to_mol.
(** The parts of RDKit the conversion back relies on: the atom
    constructor [Chem.Atom], [Chem.SanitizeMol], and the writer and
    reader of canonical molecule strings. *)
Variable Chem_Atom : pyval → result Atom.
Variable SanitizeMol : Mol → result Mol.
Variable MolToSmiles : Mol → result string.
Variable MolFromSmiles : string → result (option Mol).

(** [if k in d: set(a, d[k])] *)
Definition set_if {T : Type} (d : gmap string pyval) (k : string)
    (conv : pyval → result T) (set : Atom → T → Atom) (a : Atom) : result Atom :=
  match d !! k with
  | Some v => t ← conv v; Ok (set a t)
  | None => Ok a
  end.

(** The atom built from the attributes [d] of a node. *)
Definition build_atom (d : gmap string pyval) : result Atom :=
  v ← of_option KeyError (d !! "v");
  a ← Chem_Atom v;
  a ← set_if d "chi" as_chi
        (λ a c, mkAtom (Symbol a) c (FormalCharge a) (NumExplicitHs a) (NoImplicit a)) a;
  a ← set_if d "charge" as_int
        (λ a z, mkAtom (Symbol a) (ChiralTag a) z (NumExplicitHs a) (NoImplicit a)) a;
  a ← set_if d "expl_H" as_unsigned
        (λ a z, mkAtom (Symbol a) (ChiralTag a) (FormalCharge a) z (NoImplicit a)) a;
  set_if d "no_impl" as_bool
        (λ a b, mkAtom (Symbol a) (ChiralTag a) (FormalCharge a) (NumExplicitHs a) b) a.

(** [self.graph_to_mol(g)] *)
Definition graph_to_mol (g : nx.Graph) : result Mol :=
  mp ← for_each (range (length (nx.nodes g))) (λ i mp,
         d ← nx.node_data g i;
         a ← build_atom d;
         Ok (mkMol (GetAtoms mp ++ [a]) (GetBonds mp))) (mkMol [] []);
  mp ← for_each (nx.edges g) (λ e mp,
         d ← nx.edge_data g e;
         t ← as_bond (default (VBond SINGLE) (d !! "type"));
         AddBond mp e.1 e.2 t) mp;
  SanitizeMol mp.

(** The body of the [try] block either raises or leaves the molecule in
    [mol]; any exception makes the answer [False]. *)
Definition is_sane (g : nx.Graph) : bool :=
  match (mol ← graph_to_mol g;
         s ← MolToSmiles mol;
         m ← MolFromSmiles s;
         if m is None then Raise AssertionError else Ok (Some mol)) with
  | Raise _ => false
  | Ok mol => if mol is None then false else true
  end.
End graph_to_mol.

(** ** Actions that apply to a graph *)

(** Modelled from the spec: which actions are legal in a graph is decided
    by [GraphBuildingEnv] in graph_building_env.py, which is missing. An
    action is taken as legal when it is built the way the decoder builds
    actions and names a choice the tables offer: a new node carries a symbol
    of the vocabulary; an attribute is set to one of the non-default values
    listed for it; an edge is added between two distinct nodes of the graph
    that are not adjacent; an edge attribute is set on an edge of the
    graph. *)
Inductive legal (self : Ctx) (g : nx.Graph) : GraphAction → Prop :=
  | legal_Stop :
      legal self g (mkGraphAction Stop None None None None)
  | legal_AddNode (src : Z) (vs : list pyval) (v : pyval) :
      od_get "v" (atom_attr_values self) = Some vs →
      v ∈ vs →
      legal self g (mkGraphAction AddNode (Some src) None (Some v) None)
  | legal_SetNodeAttr (src : Z) (k : string) (v : pyval) :
      (k, v) ∈ atom_attr_logit_map self →
      legal self g (mkGraphAction SetNodeAttr (Some src) None (Some v) (Some k))
  | legal_AddEdge (s t : Z) :
      s ∈ nx.nodes g → t ∈ nx.nodes g → s ≠ t →
      nx.has_edge g s t = false →
      legal self g (mkGraphAction AddEdge (Some s) (Some t) None None)
  | legal_SetEdgeAttr (s t : Z) (k : string) (v : pyval) :
      nx.has_edge g s t = true →
      (k, v) ∈ bond_attr_logit_map self →
      legal self g (mkGraphAction SetEdgeAttr (Some s) (Some t) (Some v) (Some k)).

(** The same action with the two ends of its edge exchanged. *)
Definition swap_ends (a : GraphAction) : GraphAction :=
  mkGraphAction (action a) (target a) (source a) (value a) (attr a).

(** Equality of actions up to the orientation of an undirected edge: node
    actions are equal, edge actions may have their ends exchanged. *)
Definition same_action (a b : GraphAction) : Prop :=
  b = a ∨ ((action a = AddEdge ∨ action a = SetEdgeAttr) ∧ b = swap_ends a).

(** The invariant networkx keeps on an undirected graph: nodes and
    adjacency have the same keys, and adjacency is symmetric. *)
Record wf_graph (g : nx.Graph) : Prop := mk_wf_graph {
  wf_keys : od_keys (nx._adj g) = od_keys (nx._node g);
  wf_sym : ∀ u v, nx.has_edge g u v = true → nx.has_edge g v u = true;
}.

(** Adjacency as the dictionary of adjacency dictionaries records it, and
    the step of [add_edge] that records [v] among the neighbours of [u]. *)
Definition adjacent (adj : odict Z (odict Z (gmap string pyval))) (u v : Z) : Prop :=
  ∃ nbrs, od_get u adj = Some nbrs ∧ is_Some (od_get v nbrs).

Definition link (u v : Z) (datadict : gmap string pyval)
    (adj : odict Z (odict Z (gmap string pyval)))
  : odict Z (odict Z (gmap string pyval)) :=
  od_set u (od_set v datadict (default [] (od_get u adj))) adj.

(** The test the encoder applies to a candidate of AddEdge: the pair in
    one orientation or the other. *)
Definition either_way (s t : Z) (p : Z * Z) : bool :=
  bool_decide (p = (s, t) ∨ p = (t, s)).

(** ** Concrete contexts, graphs and molecules *)

Definition from_ok {A : Type} (d : A) (r : result A) : A :=
  match r with
  | Ok a => a
  | Raise _ => d
  end.

Definition no_ctx : Ctx :=
  mkCtx [] [] 0 [] [] [] [] [] [] 0 [] [] [] [] 0 0 0 0 0 0 [].

(** [MolBuildingEnvContext()] with the default vocabulary. *)
Definition ctx_default : Ctx := from_ok no_ctx (init default_atoms 0).

Definition carbon : gmap string pyval := {[ "v" := VStr "C" ]}.

(** Two carbon atoms, no bond. *)
Definition g_C_C : nx.Graph :=
  nx.add_node 1 carbon (nx.add_node 0 carbon nx.empty).

(** Two carbon atoms joined by a single bond. *)
Definition g_CC : nx.Graph := nx.add_edge 0 1 ∅ g_C_C.

(** Two carbon atoms, no bond, the atom numbered 1 added first. *)
Definition g_C_C_rev : nx.Graph :=
  nx.add_node 0 carbon (nx.add_node 1 carbon nx.empty).

(** Three carbon atoms in a chain 0 - 1 - 2. *)
Definition g_CCC : nx.Graph :=
  nx.add_edge 1 2 ∅
    (nx.add_edge 0 1 ∅
       (nx.add_node 2 carbon (nx.add_node 1 carbon (nx.add_node 0 carbon nx.empty)))).

Definition no_data : Data := mkData [] [] [] [].

Definition d_C_C : Data := from_ok no_data (graph_to_Data ctx_default g_C_C).
Definition d_CC : Data := from_ok no_data (graph_to_Data ctx_default g_CC).
Definition d_C_C_rev : Data := from_ok no_data (graph_to_Data ctx_default g_C_C_rev).
Definition d_CCC : Data := from_ok no_data (graph_to_Data ctx_default g_CCC).

Definition add_edge_0_1 : GraphAction :=
  mkGraphAction AddEdge (Some 0%Z) (Some 1%Z) None None.
Definition add_edge_1_0 : GraphAction :=
  mkGraphAction AddEdge (Some 1%Z) (Some 0%Z) None None.

(** Molecular hydrogen, both atoms explicit. *)
Definition hydrogen : Mol :=
  mkMol [ mkAtom "H" CHI_UNSPECIFIED 0 0 false;
          mkAtom "H" CHI_UNSPECIFIED 0 0 false ]
        [ mkBond 0 1 SINGLE ].

(** The ammonium-like fragment C=[N+]: a charged atom and a double bond. *)
Definition iminium : Mol :=
  mkMol [ mkAtom "C" CHI_UNSPECIFIED 0 0 false;
          mkAtom "N" CHI_UNSPECIFIED 1 2 true ]
        [ mkBond 0 1 DOUBLE ].

(** The tables in closed form, for a vocabulary that is not empty. *)
Definition tables (atoms : list string) (n : Z) : Ctx :=
  {| atom_attr_values := atom_values atoms;
     atom_attr_defaults :=
       [("v", default (VStr "") (head (map VStr atoms)));
        ("chi", VChi CHI_UNSPECIFIED); ("charge", VInt 0);
        ("expl_H", VInt 0); ("no_impl", VBool false)];
     atom_attr_size := (len (map VStr atoms) + 12)%Z;
     atom_attrs := ["charge"; "chi"; "expl_H"; "no_impl"; "v"];
     atom_attr_slice := [0; 3; 6; 10; 12; 12 + len (map VStr atoms)]%Z;
     atom_attr_logit_slice :=
       [("charge", 0); ("chi", 2); ("expl_H", 4); ("no_impl", 7); ("v", 8)]%Z;
     atom_attr_logit_map :=
       [("charge", VInt 1); ("charge", VInt (-1));
        ("chi", VChi CHI_TETRAHEDRAL_CW); ("chi", VChi CHI_TETRAHEDRAL_CCW);
        ("expl_H", VInt 1); ("expl_H", VInt 2); ("expl_H", VInt 3);
        ("no_impl", VBool true)];
     bond_attr_values := bond_values;
     bond_attr_defaults := [("type", VBond SINGLE)];
     bond_attr_size := 4;
     bond_attrs := ["type"];
     bond_attr_slice := [0; 4]%Z;
     bond_attr_logit_slice := [("type", 0%Z)];
     bond_attr_logit_map :=
       [("type", VBond DOUBLE); ("type", VBond TRIPLE); ("type", VBond AROMATIC)];
     num_new_node_values := len atoms;
     num_node_attr_logits := 8;
     num_node_dim := (len (map VStr atoms) + 12 + 1)%Z;
     num_edge_attr_logits := 3;
     num_edge_dim := 4;
     num_cond_dim := n;
     action_type_order := [Stop; AddNode; SetNodeAttr; AddEdge; SetEdgeAttr] |}.

(** ** A stand-in for RDKit

    The theorems about [graph_to_mol] and [is_sane] hold for every
    behaviour of the four RDKit operations. To run the two functions on
    examples, the operations are instantiated by a small stand-in: it knows
    the five elements of the default vocabulary, refuses a molecule in
    which an atom has more bonds than its valence allows, and writes a
    molecule as the sequence of its symbols. *)

Definition valence (s : string) : option Z :=
  if decide (s = "H") then Some 1%Z
  else if decide (s = "C") then Some 4%Z
  else if decide (s = "N") then Some 3%Z
  else if decide (s = "O") then Some 2%Z
  else if decide (s = "F") then Some 1%Z
  else None.

Definition small_Atom (v : pyval) : result Atom :=
  match v with
  | VStr s => if valence s is Some _
              then Ok (mkAtom s CHI_UNSPECIFIED 0 0 false)
              else Raise RuntimeError
  | _ => Raise TypeError
  end.

(** Twice the order of a bond, so that an aromatic bond counts one and a
    half. *)
Definition bond_order2 (t : BondType) : Z :=
  match t with
  | SINGLE => 2
  | DOUBLE => 4
  | TRIPLE => 6
  | AROMATIC => 3
  | BOND_OTHER => 0
  end.

Definition bonds_at (mp : Mol) (i : Z) : Z :=
  sum (map (λ b, if decide (BeginAtomIdx b = i ∨ EndAtomIdx b = i)
                 then bond_order2 (GetBondType b) else 0%Z)
           (GetBonds mp)).

Definition small_SanitizeMol (mp : Mol) : result Mol :=
  if forallb (λ '(i, a),
       match valence (Symbol a) with
       | Some n => (bonds_at mp i <=? 2 * (n + FormalCharge a))%Z
       | None => false
       end) (enumerate (GetAtoms mp))
  then Ok mp else Raise ValueError.

Definition small_MolToSmiles (mp : Mol) : result string :=
  Ok (String.concat "" (map Symbol (GetAtoms mp))).

Definition small_MolFromSmiles (s : string) : result (option Mol) :=
  Ok (if decide (s = "") then None else Some (mkMol [] [])).

(** A carbon atom with five hydrogens around it. *)
Definition g_CH5 : nx.Graph :=
  let h : gmap string pyval := {[ "v" := VStr "H" ]} in
  nx.add_edge 0 5 ∅ (nx.add_edge 0 4 ∅ (nx.add_edge 0 3 ∅
    (nx.add_edge 0 2 ∅ (nx.add_edge 0 1 ∅
      (nx.add_node 5 h (nx.add_node 4 h (nx.add_node 3 h
        (nx.add_node 2 h (nx.add_node 1 h (nx.add_node 0 carbon nx.empty)))))))))).

(** A ring of six carbon atoms joined by aromatic bonds. *)
Definition g_benzene : nx.Graph :=
  let ar : gmap string pyval := {[ "type" := VBond AROMATIC ]} in
  nx.add_edge 5 0 ar (nx.add_edge 4 5 ar (nx.add_edge 3 4 ar
    (nx.add_edge 2 3 ar (nx.add_edge 1 2 ar (nx.add_edge 0 1 ar
      (nx.add_node 5 carbon (nx.add_node 4 carbon (nx.add_node 3 carbon
        (nx.add_node 2 carbon (nx.add_node 1 carbon
          (nx.add_node 0 carbon nx.empty))))))))))).

(** ** Statements about the tables and the conversions *)

(** Every value of a dictionary satisfies [P]. *)
Definition od_all {K V : Type} `{EqDecision K} (P : V → Prop) (d : odict K V)
  : Prop :=
  ∀ k v, od_get k d = Some v → P v.

(** No attribute stored in [ad] has the value that [defaults] declares for
    it. *)
Definition omits_defaults (defaults : odict string pyval)
    (ad : gmap string pyval) : Prop :=
  ∀ k v, ad !! k = Some v →
    ∃ d, od_get k defaults = Some d ∧ py_eq v d = false.

(** What [mol_to_graph] maintains: apart from the symbol, no node stores
    the default of an atom attribute, and no edge stores the default of a
    bond attribute. *)
Definition graph_omits_defaults (self : Ctx) (g : nx.Graph) : Prop :=
  od_all (λ ad, omits_defaults (atom_attr_defaults self) (delete "v" ad))
         (nx._node g)
  ∧ od_all (od_all (omits_defaults (bond_attr_defaults self))) (nx._adj g).

(** The symbol of every atom is stored under ["v"] in the node that has
    the index of the atom. *)
Definition graph_stores_symbols (mol : Mol) (g : nx.Graph) : Prop :=
  ∀ i a, GetAtoms mol !! i = Some a →
    ∃ ad, od_get (Z.of_nat i) (nx._node g) = Some ad
          ∧ ad !! "v" = Some (VStr (Symbol a)).

(** The default of every attribute is the first entry of its value list. *)
Definition default_is_first (values : odict string (list pyval))
    (defaults : odict string pyval) : Prop :=
  ∀ k vs, od_get k values = Some vs →
    ∃ d, vs !! 0%nat = Some d ∧ od_get k defaults = Some d.

(** Every logit column stands for a value that is not the default of its
    attribute: the value sits at a place [i ≥ 1] of the attribute's list,
    and the column is [i - 1] counted from the attribute's logit slice, as
    the encoder computes it. *)
Definition logits_skip_default (values : odict string (list pyval))
    (logit_slice : odict string Z) (logit_map : list (string * pyval)) : Prop :=
  ∀ k v, (k, v) ∈ logit_map →
    ∃ vs i sl,
      od_get k values = Some vs ∧ index vs v = Ok i ∧ (1 ≤ i)%Z
      ∧ od_get k logit_slice = Some sl
      ∧ logit_col values logit_slice (Some k) (Some v) = Ok (i - 1 + sl)%Z
      ∧ py_get logit_map (i - 1 + sl) = Ok (k, v).

(** The column that the encoder answers for SetNodeAttr and SetEdgeAttr is
    the place of the value in the list of its attribute, minus one, plus
    the logit slice of the attribute; for SetEdgeAttr the row is half the
    place of the pair in [edge_index]. *)
Definition encoder_subtracts_one (self : Ctx) : Prop :=
  (∀ g src tgt k v vs i sl,
     od_get k (atom_attr_values self) = Some vs →
     index vs v = Ok i →
     od_get k (atom_attr_logit_slice self) = Some sl →
     GraphAction_to_aidx self g
       (mkGraphAction SetNodeAttr (Some src) tgt (Some v) (Some k))
     = Ok (2, src, i - 1 + sl)%Z)
  ∧ (∀ g s t k v vs i sl p,
     od_get k (bond_attr_values self) = Some vs →
     index vs v = Ok i →
     od_get k (bond_attr_logit_slice self) = Some sl →
     in_int64 s = true → in_int64 t = true →
     argmax (match_mask (edge_index g) s t) = Ok p →
     GraphAction_to_aidx self g
       (mkGraphAction SetEdgeAttr (Some s) (Some t) (Some v) (Some k))
     = Ok (4, p `div` 2, i - 1 + sl)%Z).

(** The encoder on the choices that the logit maps offer: the value sits at
    a place [i ≥ 1] of its list, the column is [i - 1] plus the logit
    slice, and the logit map holds the choice at that column. *)
Definition encoder_skips_default (self : Ctx) : Prop :=
  (∀ g src k v, (k, v) ∈ atom_attr_logit_map self →
     ∃ vs i sl,
       od_get k (atom_attr_values self) = Some vs ∧ index vs v = Ok i
       ∧ (1 ≤ i)%Z ∧ od_get k (atom_attr_logit_slice self) = Some sl
       ∧ GraphAction_to_aidx self g
           (mkGraphAction SetNodeAttr (Some src) None (Some v) (Some k))
         = Ok (2, src, i - 1 + sl)%Z
       ∧ py_get (atom_attr_logit_map self) (i - 1 + sl) = Ok (k, v))
  ∧ (∀ g s t k v p, (k, v) ∈ bond_attr_logit_map self →
     in_int64 s = true → in_int64 t = true →
     argmax (match_mask (edge_index g) s t) = Ok p →
     ∃ vs i sl,
       od_get k (bond_attr_values self) = Some vs ∧ index vs v = Ok i
       ∧ (1 ≤ i)%Z ∧ od_get k (bond_attr_logit_slice self) = Some sl
       ∧ GraphAction_to_aidx self g
           (mkGraphAction SetEdgeAttr (Some s) (Some t) (Some v) (Some k))
         = Ok (4, p `div` 2, i - 1 + sl)%Z
       ∧ py_get (bond_attr_logit_map self) (i - 1 + sl) = Ok (k, v)).

(** The entry of a matrix at a row and a column. *)
Definition entry (m : list (list Z)) (r c : Z) : option Z :=
  row ← m !! Z.to_nat r; row !! Z.to_nat c.

(** Entries that are one stay one. *)
Definition keeps_ones (m m' : list (list Z)) : Prop :=
  ∀ r c, (0 ≤ r)%Z → (0 ≤ c)%Z →
    entry m r c = Some 1%Z → entry m' r c = Some 1%Z.

(** The input features have a position for the default: a node or an edge
    that does not store an attribute has a one at the first position of
    that attribute's slice. *)
Definition features_keep_default (self : Ctx) : Prop :=
  ∀ g d, graph_to_Data self g = Ok d →
    (∀ i n ad k sl,
       nx.nodes g !! i = Some n → nx.node_data g n = Ok ad →
       (k, sl) ∈ zip (atom_attrs self) (atom_attr_slice self) →
       ad !! k = None →
       entry (x d) (Z.of_nat i) sl = Some 1%Z)
    ∧ (∀ i e ad k sl,
       nx.edges g !! i = Some e → nx.edge_data g e = Ok ad →
       (k, sl) ∈ zip (bond_attrs self) (bond_attr_slice self) →
       ad !! k = None →
       entry (edge_attr d) (Z.of_nat i * 2) sl = Some 1%Z
       ∧ entry (edge_attr d) (Z.of_nat i * 2 + 1) sl = Some 1%Z).

(** ** Further statements about the codec *)

(** The context of the test of the training loop (tests/test_gfn.py):
    [MolBuildingEnvContext(["H", "C", "N", "F", "O"], num_cond_dim=32)]. *)
Definition test_atoms : list string := ["H"; "C"; "N"; "F"; "O"].
Definition ctx_test : Ctx := from_ok no_ctx (init test_atoms 32).

(** An index that Python accepts for the list [l]. *)
Definition in_range {A : Type} (l : list A) (i : Z) : Prop :=
  (- len l ≤ i < len l)%Z.

(** The index triples that the decoder accepts: the action type is an
    index into the list of the five variants, and the row or the column
    that the variant reads is an index into the list it is read from. *)
Definition decodable (self : Ctx) (g : Data) (idx : Z * Z * Z) : Prop :=
  let '(t, row, col) := idx in
  in_range (action_type_order self) t
  ∧ match (t `mod` 5)%Z with
    | 0%Z => True
    | 1%Z => in_range (default [] (od_get "v" (atom_attr_values self))) col
    | 2%Z => in_range (atom_attr_logit_map self) col
    | 3%Z => in_range (non_edge_index g) row
    | _ => in_range (edge_index g) (row * 2)
           ∧ in_range (bond_attr_logit_map self) col
    end.

(** The index triples whose row torch cannot take as an index: the type is
    that of an edge action and the column asked of the index tensor, the
    row for AddEdge and twice the row for SetEdgeAttr, is not a column of
    the tensor and does not fit in 64 bits. *)
Definition row_overflows (self : Ctx) (g : Data) (idx : Z * Z * Z) : Prop :=
  let '(t, row, col) := idx in
  in_range (action_type_order self) t
  ∧ match (t `mod` 5)%Z with
    | 3%Z => ¬ in_range (non_edge_index g) row ∧ in_int64 row = false
    | 4%Z => ¬ in_range (edge_index g) (row * 2) ∧ in_int64 (row * 2) = false
    | _ => False
    end.

(** The index triples that the encoder produces for the actions of a
    graph: the type is one of 0 to 4; the column is counted from zero within
    the logits of the type; the row of an edge action is counted from zero
    within the candidates or the edges; Stop has row and column zero, and
    AddEdge column zero. The row of AddNode and of SetNodeAttr is the source
    of the action and is not constrained. *)
Definition canonical (self : Ctx) (g : Data) (idx : Z * Z * Z) : Prop :=
  let '(t, row, col) := idx in
  match t with
  | 0%Z => row = 0%Z ∧ col = 0%Z
  | 1%Z => (0 ≤ col < num_new_node_values self)%Z
  | 2%Z => (0 ≤ col < num_node_attr_logits self)%Z
  | 3%Z => (0 ≤ row < len (non_edge_index g))%Z ∧ col = 0%Z
  | 4%Z => (0 ≤ row ∧ row * 2 < len (edge_index g))%Z
           ∧ (0 ≤ col < num_edge_attr_logits self)%Z
  | _ => False
  end.

(** The slices cut the feature vector into one block per attribute: the
    block of the attribute number [i] starts at [slices[i]], has one
    position per value of the attribute and ends where the next block
    starts, within [size] positions. *)
Definition slices_delimit (values : odict string (list pyval))
    (attrs : list string) (slices : list Z) (size : Z) : Prop :=
  ∀ i k, attrs !! i = Some k →
    ∃ vs sl, od_get k values = Some vs
             ∧ slices !! i = Some sl
             ∧ slices !! S i = Some (sl + len vs)%Z
             ∧ (0 ≤ sl)%Z ∧ (sl + len vs ≤ size)%Z.

(** ** Further statements about graphs *)

(** A graph as the operations of networkx build it: well formed, and no
    dictionary of it has a key twice. *)
Record simple_graph (g : nx.Graph) : Prop := mk_simple_graph {
  sg_wf : wf_graph g;
  sg_keys : NoDup (od_keys (nx._adj g));
  sg_nbrs : od_all (λ nbrs, NoDup (od_keys nbrs)) (nx._adj g);
}.

(** A list of pairs that holds every undirected pair at most once, in one
    orientation. *)
Definition oriented_once (es : list (Z * Z)) : Prop :=
  NoDup es ∧ ∀ u v, (u, v) ∈ es → u ≠ v → (v, u) ∉ es.

(** ** Further statements about the tensor form *)

(** A matrix of [rows] rows that all have [cols] entries. *)
Definition well_shaped (m : list (list Z)) (rows cols : Z) : Prop :=
  len m = rows ∧ Forall (λ row, len row = cols) m.

(** [self.atom_attr_values[k].index(ad[k]) if k in ad else 0]: the place of
    the value that [ad] stores for [k], 0 when it stores none. *)
Definition attr_index (values : odict string (list pyval))
    (ad : gmap string pyval) (k : string) : result Z :=
  match ad !! k with
  | Some v => vs ← od_item k values; index vs v
  | None => Ok 0%Z
  end.

(** The positions that one pass of the loop over the attributes sets. *)
Definition hot_positions (values : odict string (list pyval))
    (attrs : list string) (slices : list Z) (ad : gmap string pyval)
  : result (list Z) :=
  mapM (λ '(k, sl), idx ← attr_index values ad k; Ok (sl + idx)%Z)
       (zip attrs slices).

(** Every value that [ad] stores for one of the attributes is in the list
    of the values of that attribute. *)
Definition values_known (values : odict string (list pyval))
    (attrs : list string) (ad : gmap string pyval) : Prop :=
  ∀ k v, k ∈ attrs → ad !! k = Some v →
    ∃ vs w, od_get k values = Some vs ∧ w ∈ vs ∧ py_eq v w = true.

(** Every node and every edge of the graph stores known values only. *)
Definition graph_known (self : Ctx) (g : nx.Graph) : Prop :=
  (∀ n ad, n ∈ nx.nodes g → nx.node_data g n = Ok ad →
     values_known (atom_attr_values self) (atom_attrs self) ad)
  ∧ (∀ e ad, e ∈ nx.edges g → nx.edge_data g e = Ok ad →
     values_known (bond_attr_values self) (bond_attrs self) ad).

(** The node numbers that go into the two index tensors fit in 64 bits:
    the ends of every edge of the graph and of every edge of its
    complement. *)
Definition indices_fit (g : nx.Graph) : Prop :=
  Forall (λ p, in_int64 p.1 = true ∧ in_int64 p.2 = true) (nx.edges g)
  ∧ Forall (λ p, in_int64 p.1 = true ∧ in_int64 p.2 = true)
           (nx.edges (nx.complement g)).

(** The block of an attribute: its values are listed, there is at least
    one, and its positions [sl .. sl + len(values) - 1] lie within [size]. *)
Definition slot (values : odict string (list pyval)) (size : Z)
    (ks : string * Z) : Prop :=
  ∃ vs, od_get ks.1 values = Some vs
        ∧ (0 ≤ ks.2)%Z ∧ (1 ≤ len vs)%Z ∧ (ks.2 + len vs ≤ size)%Z.

(** The position that the pass for one attribute sets. *)
Definition hot_position (values : odict string (list pyval))
    (ad : gmap string pyval) (ks : string * Z) : result Z :=
  idx ← attr_index values ad ks.1; Ok (ks.2 + idx)%Z.

(** A single atom of sulfur, a symbol outside both vocabularies. *)
Definition g_S : nx.Graph := nx.add_node 0 {[ "v" := VStr "S" ]} nx.empty.

(** A bond drawn between two atoms that were never added: [add_edge]
    creates both nodes, without a symbol. *)
Definition g_bond_only : nx.Graph := nx.add_edge 0 1 ∅ nx.empty.

(** ** Molecules as RDKit keeps them *)

(** The two atoms a bond joins, and whether it joins [u] and [v]. *)
Definition bond_ends (b : Bond) : Z * Z := (BeginAtomIdx b, EndAtomIdx b).

Definition joins (b : Bond) (u v : Z) : Prop :=
  bond_ends b = (u, v) ∨ bond_ends b = (v, u).

(** The bond written from its smaller atom index to its larger one. *)
Definition norm_bond (b : Bond) : Bond :=
  if (BeginAtomIdx b <=? EndAtomIdx b)%Z then b
  else mkBond (EndAtomIdx b) (BeginAtomIdx b) (GetBondType b).

(** What RDKit keeps true of a molecule: a bond joins two different atoms
    of the molecule, and no two bonds join the same two atoms. *)
Record wf_mol (mol : Mol) : Prop := mk_wf_mol {
  wm_ends : Forall (λ b, (0 ≤ BeginAtomIdx b < len (GetAtoms mol))%Z
                         ∧ (0 ≤ EndAtomIdx b < len (GetAtoms mol))%Z
                         ∧ BeginAtomIdx b ≠ EndAtomIdx b) (GetBonds mol);
  wm_once : oriented_once (map bond_ends (GetBonds mol));
}.

(** The C types in which RDKit keeps what the context reads from an atom:
    the formal charge is an [int], the number of explicit hydrogens an
    [unsigned int], and atoms are numbered by an [unsigned int]. *)
Definition c_int (z : Z) : Prop := (-2147483648 ≤ z < 2147483648)%Z.

Definition c_unsigned (z : Z) : Prop := (0 ≤ z < 4294967296)%Z.

Record mol_in_range (mol : Mol) : Prop := mk_mol_in_range {
  mr_atoms : (len (GetAtoms mol) ≤ 4294967296)%Z;
  mr_fields : Forall (λ a, c_int (FormalCharge a) ∧ c_unsigned (NumExplicitHs a))
                     (GetAtoms mol);
}.

(** The attributes stored for the pair [(x, y)], if any. *)
Definition edge_lookup (adj : odict Z (odict Z (gmap string pyval))) (x y : Z)
  : option (gmap string pyval) :=
  od_get x adj ≫= od_get y.

(** The same fragment with its bond written from the nitrogen. *)
Definition iminium_rev : Mol := mkMol (GetAtoms iminium) [ mkBond 1 0 DOUBLE ].

(** * Arguments read from a dataclass

    [find_type] and [extract_fields_from_class]
    (src/gt4sd/cli/load_arguments_from_dataclass.py). A dataclass is the
    tuple of its fields, as [dataclasses.fields] returns it; the function
    assigns to [field.default], so it returns the fields as it leaves them
    together with its result. *)

Module cli.

(** A type that is not a union: one of the four classes the function
    knows, or anything else ([NoneType], another class, [List[int]], an
    annotation left as a string). *)
Inductive pyclass : Type :=
  | c_str
  | c_int
  | c_float
  | c_bool
  | c_other.

(** A type annotation: a type that is not a union, or a [typing.Union]
    with its [__args__], which [typing] keeps free of unions. *)
Inductive pytype : Type :=
  | T (c : pyclass)
  | T_Union (args : list pyclass).

(** [field.default]: the marker [MISSING] of a field without default,
    [None], a string, or any other object. *)
Inductive pydefault (V : Type) : Type :=
  | MISSING
  | d_None
  | d_str (s : string)
  | d_obj (v : V).

Arguments MISSING {V}.
Arguments d_None {V}.
Arguments d_str {V} s.
Arguments d_obj {V} v.

Record Field (V : Type) : Type := mkField {
  name : string;
  type : pytype;
  metadata : gmap string string;
  default : pydefault V;
}.

Arguments mkField {V} name type metadata default.
Arguments name {V} f.
Arguments type {V} f.
Arguments metadata {V} f.
Arguments default {V} f.

(** An entry of [arg_fields]: under ["type"] first the annotation, then
    its name; under ["description"] the help text; ["default"] only for a
    field that has a default. *)
Record Arg (V : Type) : Type := mkArg {
  arg_type : pytype + string;
  description : string;
  arg_default : option (pydefault V);
}.

Arguments mkArg {V} arg_type description arg_default.
Arguments arg_type {V} a.
Arguments description {V} a.
Arguments arg_default {V} a.

(** [find_type(input_type)] *)
Definition find_type (input_type : pytype) : option string :=
  match input_type with
  | T c_str => Some "string"
  | T c_int => Some "integer"
  | T c_float => Some "number"
  | T c_bool => Some "boolean"
  | _ => None
  end.

Section extract_fields_from_class.
Context {V : Type}.

(** The dictionary comprehension: [field.metadata["help"]] raises KeyError
    when the field carries no help text. *)
Definition describe (fields : list (Field V)) : result (odict string (Arg V)) :=
  for_each fields (λ field arg_fields,
      help ← of_option KeyError (metadata field !! "help");
      Ok (od_set (name field) (mkArg (inl (type field)) help None) arg_fields))
    [].

(** [if field.default is None: field.default = "none"] *)
Definition none_to_string (field : Field V) : Field V :=
  match default field with
  | d_None => mkField (name field) (type field) (metadata field) (d_str "none")
  | _ => field
  end.

(** The loop that assigns the defaults. It returns the fields as the loop
    leaves them, also when a lookup raises. *)
Fixpoint assign_defaults (fields : list (Field V)) (arg_fields : odict string (Arg V))
  : list (Field V) * result (odict string (Arg V)) :=
  match fields with
  | [] => ([], Ok arg_fields)
  | field :: rest =>
      match default field with
      | MISSING =>
          let '(rest', r) := assign_defaults rest arg_fields in (field :: rest', r)
      | _ =>
          let field' := none_to_string field in
          match od_item (name field) arg_fields with
          | Raise e => (field' :: rest, Raise e)
          | Ok a =>
              let a' := mkArg (arg_type a) (description a) (Some (default field')) in
              let '(rest', r) :=
                assign_defaults rest (od_set (name field) a' arg_fields) in
              (field' :: rest', r)
          end
      end
  end.

(** The name that replaces the annotation of one entry. An entry whose
    annotation is already a name has no [__origin__]. *)
Definition convert_type (a : Arg V) : result string :=
  match arg_type a with
  | inl t =>
      match find_type t with
      | Some field_type => Ok field_type
      | None =>
          match t with
          | T_Union args =>
              match omap (λ type, find_type (T type)) args with
              | [field_type] => Ok field_type
              | _ => Raise ValueError
              end
          | _ => Raise ValueError
          end
      end
  | inr _ => Raise ValueError
  end.

(** The loop [for field_name in arg_fields] *)
Definition convert_types (arg_fields : odict string (Arg V))
  : result (odict string (Arg V)) :=
  for_each (od_keys arg_fields) (λ field_name arg_fields,
      a ← od_item field_name arg_fields;
      field_type ← convert_type a;
      Ok (od_set field_name (mkArg (inr field_type) (description a) (arg_default a))
                 arg_fields))
    arg_fields.

(** [extract_fields_from_class(dataclass)] *)
Definition extract_fields_from_class (dataclass : list (Field V))
  : list (Field V) * result (odict string (Arg V)) :=
  match describe dataclass with
  | Raise e => (dataclass, Raise e)
  | Ok arg_fields =>
      let '(fields, r) := assign_defaults dataclass arg_fields in
      (fields, r ≫= convert_types)
  end.
End extract_fields_from_class.

(** ** Statements about the arguments *)

(** The name under which an annotation is accepted: one of the four known
    classes, or a union in which exactly one member is known. *)
Definition type_name (t : pytype) : option string :=
  match find_type t, t with
  | Some s, _ => Some s
  | None, T_Union args =>
      match omap (λ type, find_type (T type)) args with
      | [s] => Some s
      | _ => None
      end
  | None, _ => None
  end.

(** The entry that a field ends as. *)
Definition argument {V : Type} (field : Field V) : option (string * Arg V) :=
  help ← metadata field !! "help";
  s ← type_name (type field);
  Some (name field,
        mkArg (inr s) help
          match default field with
          | MISSING => None
          | d_None => Some (d_str "none")
          | d => Some d
          end).

End cli.

(** The entry of a field after the comprehension, and after the loop
    over the defaults. *)
Definition described {V : Type} (field : cli.Field V) : cli.Arg V :=
  cli.mkArg (inl (cli.type field)) (default "" (cli.metadata field !! "help")) None.

Definition with_default {V : Type} (field : cli.Field V) : cli.Arg V :=
  cli.mkArg (inl (cli.type field)) (default "" (cli.metadata field !! "help"))
    match cli.default field with
    | cli.MISSING => None
    | cli.d_None => Some (cli.d_str "none")
    | d => Some d
    end.

(** Defaults of the example below that are not strings. *)
Inductive literal : Type :=
  | lit_int (z : Z)
  | lit_bool (b : bool)
  | lit_float (text : string).

(** The fields that [PytorchLightningTrainingArguments]
    (src/gt4sd/training_pipelines/pytorch_lightning/core.py) declares;
    help texts shortened. *)
Definition pl_trainer_args : list (cli.Field literal) :=
  let help (s : string) : gmap string string := {[ "help" := s ]} in
  let opt (t : cli.pyclass) := cli.T_Union [t; cli.c_other] in
  [ cli.mkField "accelerator" (opt cli.c_str) (help "Accelerator type.") (cli.d_str "ddp");
    cli.mkField "accumulate_grad_batches" (cli.T cli.c_int) (help "Accumulates grads.")
      (cli.d_obj (lit_int 1));
    cli.mkField "val_check_interval" (cli.T cli.c_int) (help "How often to check.")
      (cli.d_obj (lit_int 5000));
    cli.mkField "default_root_dir" (opt cli.c_str) (help "Default path.") cli.d_None;
    cli.mkField "gradient_clip_val" (cli.T cli.c_float) (help "Gradient clipping value.")
      (cli.d_obj (lit_float "0.0"));
    cli.mkField "limit_val_batches" (cli.T cli.c_int) (help "How much to check.")
      (cli.d_obj (lit_int 500));
    cli.mkField "log_every_n_steps" (cli.T cli.c_int) (help "How often to log.")
      (cli.d_obj (lit_int 500));
    cli.mkField "max_epochs" (cli.T cli.c_int) (help "Stop training.") (cli.d_obj (lit_int 3));
    cli.mkField "resume_from_checkpoint" (opt cli.c_str) (help "Path/URL.") cli.d_None;
    cli.mkField "gpus" (opt cli.c_int) (help "Number of gpus.") (cli.d_obj (lit_int (-1)));
    cli.mkField "monitor" (opt cli.c_str) (help "Quantity to monitor.") cli.d_None;
    cli.mkField "save_last" (cli.T cli.c_bool) (help "Saves the model.") (cli.d_obj (lit_bool true));
    cli.mkField "save_top_k" (opt cli.c_int) (help "The best k models.") cli.d_None;
    cli.mkField "mode" (cli.T cli.c_str) (help "Quantity to monitor.") (cli.d_str "min");
    cli.mkField "every_n_train_steps" (opt cli.c_int) (help "Number of steps.") cli.d_None ].

(** A field annotated [Union[int, str]], which the function refuses, after
    a field whose default is [None]. *)
Definition two_known_types : list (cli.Field literal) :=
  [ cli.mkField "path" (cli.T cli.c_str) {[ "help" := "A path." ]} cli.d_None;
    cli.mkField "size" (cli.T_Union [cli.c_int; cli.c_str]) {[ "help" := "A size." ]}
      cli.MISSING ].

(** * Properties *)

(** ** Fallible computations *)

Lemma bind_Ok {A B : Type} (m : result A) (k : A → result B) (b : B) :
  m ≫= k = Ok b ↔ ∃ a, m = Ok a ∧ k a = Ok b.
Proof.
  destruct m as [a|e]; simpl; split.
  - eauto.
  - by intros (? & [= <-] & ?).
  - done.
  - by intros (? & ? & ?).
Qed.

Lemma of_option_Ok {A : Type} (e : exn) (o : option A) (a : A) :
  of_option e o = Ok a ↔ o = Some a.
Proof. destruct o; simpl; split; congruence. Qed.

(** ** Python indexing *)

Lemma py_get_nonneg {A : Type} (l : list A) (i : Z) :
  (0 ≤ i)%Z → py_get l i = of_option IndexError (l !! Z.to_nat i).
Proof. intros Hi. unfold py_get. by rewrite (proj2 (Z.leb_le 0 i) Hi). Qed.

Lemma py_get_nat {A : Type} (l : list A) (i : nat) :
  py_get l (Z.of_nat i) = of_option IndexError (l !! i).
Proof. rewrite py_get_nonneg by lia. by rewrite Nat2Z.id. Qed.

Lemma py_get_out_of_range {A : Type} (l : list A) (i : Z) :
  (i < - len l ∨ len l ≤ i)%Z → py_get l i = Raise IndexError.
Proof.
  unfold py_get, len. intros Hi.
  destruct (Z.leb_spec 0 i).
  - rewrite lookup_ge_None_2; [done | lia].
  - destruct (Z.leb_spec (- Z.of_nat (length l)) i); [lia | done].
Qed.

Lemma py_get_Ok_range {A : Type} (l : list A) (i : Z) (a : A) :
  py_get l i = Ok a → (- len l ≤ i < len l)%Z.
Proof.
  intros H. destruct (decide (i < - len l ∨ len l ≤ i)%Z) as [Hi|Hi]; [|lia].
  by rewrite py_get_out_of_range in H.
Qed.

(** ** Tensors of integers *)

Lemma tensor_col_Ok (index : list (Z * Z)) (i : Z) (c : Z * Z) :
  tensor_col index i = Ok c ↔ py_get index i = Ok c.
Proof.
  unfold tensor_col. destruct (py_get index i); [done|].
  by destruct (in_int64 i).
Qed.

Lemma tensor_col_nonneg (index : list (Z * Z)) (i : Z) (c : Z * Z) :
  (0 ≤ i)%Z → index !! Z.to_nat i = Some c → tensor_col index i = Ok c.
Proof.
  intros Hi Hc. apply tensor_col_Ok. by rewrite py_get_nonneg, Hc.
Qed.

Lemma pair_tensor_Some (s t : Z) :
  in_int64 s = true → in_int64 t = true →
  pair_tensor (Some s) (Some t) = Ok (s, t).
Proof. intros Hs Ht. unfold pair_tensor. simpl. by rewrite Hs, Ht. Qed.

Lemma pair_tensor_cases (s t : option Z) :
  (∃ a b, s = Some a ∧ t = Some b ∧ in_int64 a = true ∧ in_int64 b = true
          ∧ pair_tensor s t = Ok (a, b))
  ∨ pair_tensor s t = Raise TorchError.
Proof.
  unfold pair_tensor. destruct s as [s|], t as [t|]; simpl; try by right.
  destruct (in_int64 s) eqn:Hs, (in_int64 t) eqn:Ht; simpl; try by right.
  left. by exists s, t.
Qed.

Lemma pair_tensor_Ok (s t : option Z) (p : Z * Z) :
  pair_tensor s t = Ok p ↔
  s = Some p.1 ∧ t = Some p.2 ∧ in_int64 p.1 = true ∧ in_int64 p.2 = true.
Proof.
  split.
  - intros Hp.
    destruct (pair_tensor_cases s t) as [(a & b & -> & -> & Ha & Hb & H)|H];
      rewrite H in Hp; [|done]. by injection Hp as <-.
  - destruct p as [a b]. intros (-> & -> & Ha & Hb). by apply pair_tensor_Some.
Qed.

(** Exchanging the two fields exchanges the two entries, and does not
    change whether torch accepts them. *)
Lemma pair_tensor_swap (s t : option Z) :
  pair_tensor t s = (p ← pair_tensor s t; Ok (p.2, p.1)).
Proof.
  unfold pair_tensor. destruct s as [s|], t as [t|]; simpl; try done.
  by destruct (in_int64 s), (in_int64 t).
Qed.

Lemma long_tensor_cases (l : list (Z * Z)) :
  (Forall (λ p, in_int64 p.1 = true ∧ in_int64 p.2 = true) l
   ∧ long_tensor l = Ok l)
  ∨ (¬ Forall (λ p, in_int64 p.1 = true ∧ in_int64 p.2 = true) l
     ∧ long_tensor l = Raise TorchError).
Proof.
  unfold long_tensor.
  destruct (forallb (λ p, in_int64 p.1 && in_int64 p.2) l) eqn:Hl.
  - left. split; [|done]. apply Forall_forall. intros p Hp%list_elem_of_In.
    by apply (proj1 (forallb_forall _ _) Hl), andb_true_iff in Hp.
  - right. split; [|done]. intros Hall.
    assert (forallb (λ p, in_int64 p.1 && in_int64 p.2) l = true); [|congruence].
    apply forallb_forall. intros p Hp%list_elem_of_In.
    apply andb_true_iff. by apply (proj1 (Forall_forall _ _) Hall).
Qed.

Lemma long_tensor_Ok (l k : list (Z * Z)) :
  long_tensor l = Ok k →
  k = l ∧ Forall (λ p, in_int64 p.1 = true ∧ in_int64 p.2 = true) l.
Proof.
  destruct (long_tensor_cases l) as [[Hall ->]|[_ ->]]; [|done].
  by intros [= <-].
Qed.

(** ** The constructor *)

Lemma init_cons (a : string) (l : list string) (n : Z) :
  init (a :: l) n = Ok (tables (a :: l) n).
Proof. reflexivity. Qed.

Lemma init_nil (n : Z) : init [] n = Raise IndexError.
Proof. reflexivity. Qed.

Lemma init_inv (atoms : list string) (n : Z) (ctx : Ctx) :
  init atoms n = Ok ctx → atoms ≠ [] ∧ ctx = tables atoms n.
Proof.
  destruct atoms as [|a l]; [discriminate|].
  rewrite init_cons. intros [= <-]. done.
Qed.

Lemma init_default : init default_atoms 0 = Ok ctx_default.
Proof. reflexivity. Qed.

(** The tables of the default context, and the tensor form of two bonded
    carbon atoms. *)
Example ctx_default_tables :
  atom_attrs ctx_default = ["charge"; "chi"; "expl_H"; "no_impl"; "v"]
  ∧ atom_attr_slice ctx_default = [0; 3; 6; 10; 12; 17]%Z
  ∧ atom_attr_logit_slice ctx_default
    = [("charge", 0); ("chi", 2); ("expl_H", 4); ("no_impl", 7); ("v", 8)]%Z
  ∧ atom_attr_logit_map ctx_default
    = [("charge", VInt 1); ("charge", VInt (-1));
       ("chi", VChi CHI_TETRAHEDRAL_CW); ("chi", VChi CHI_TETRAHEDRAL_CCW);
       ("expl_H", VInt 1); ("expl_H", VInt 2); ("expl_H", VInt 3);
       ("no_impl", VBool true)]
  ∧ bond_attr_logit_map ctx_default
    = [("type", VBond DOUBLE); ("type", VBond TRIPLE); ("type", VBond AROMATIC)]
  ∧ num_node_dim ctx_default = 18%Z
  ∧ num_edge_dim ctx_default = 4%Z.
Proof. repeat split. Qed.

Example d_CC_tensors :
  graph_to_Data ctx_default g_CC
  = Ok {| x := [ [1; 0; 0; 1; 0; 0; 1; 0; 0; 0; 1; 0; 0; 1; 0; 0; 0; 0];
                 [1; 0; 0; 1; 0; 0; 1; 0; 0; 0; 1; 0; 0; 1; 0; 0; 0; 0] ]%Z;
          edge_index := [(0, 1); (1, 0)]%Z;
          edge_attr := [ [1; 0; 0; 0]; [1; 0; 0; 0] ]%Z;
          non_edge_index := [] |}.
Proof. reflexivity. Qed.

(** Setting an attribute to its default is not among the logit columns:
    the encoder's column for it is the last column of the preceding
    attribute. *)
Example SetNodeAttr_default_value :
  GraphAction_to_aidx ctx_default d_CC
    (mkGraphAction SetNodeAttr (Some 1%Z) None (Some (VInt 0)) (Some "expl_H"))
  = Ok (2, 1, 3)%Z
  ∧ aidx_to_GraphAction ctx_default d_CC (2, 1, 3)%Z
    = Ok (Some (mkGraphAction SetNodeAttr (Some 1%Z) None
                  (Some (VChi CHI_TETRAHEDRAL_CCW)) (Some "chi"))).
Proof. split; reflexivity. Qed.

(** ** Decoding an unknown action type *)

(** C4, as the code has it: the action type is looked up in the list of the
    five variants first, so an ordinal outside [-5 .. 4] raises IndexError
    (an ordinal in [-5 .. -1] counts from the end of the list), and no index
    triple at all makes the decoder fall through to an implicit [None]. *)
Theorem aidx_to_GraphAction_unknown_type (atoms : list string) (n : Z)
    (ctx : Ctx) (g : Data) (t r c : Z) :
  init atoms n = Ok ctx →
  ((t < -5 ∨ 5 ≤ t)%Z → aidx_to_GraphAction ctx g (t, r, c) = Raise IndexError)
  ∧ aidx_to_GraphAction ctx g (t, r, c) ≠ Ok None.
Proof.
  intros [_ ->]%init_inv. unfold aidx_to_GraphAction. split.
  - intros Ht. rewrite (py_get_out_of_range (action_type_order _) t); [done | exact Ht].
  - intros (t0 & _ & H)%bind_Ok.
    destruct t0; simpl in H; try discriminate;
      repeat (apply bind_Ok in H as ([??] & _ & H) || apply bind_Ok in H as (? & _ & H));
      discriminate.
Qed.

Lemma aidx_to_GraphAction_unknown_type_witness :
  aidx_to_GraphAction ctx_default d_CC (7, 0, 0)%Z = Raise IndexError
  ∧ aidx_to_GraphAction ctx_default d_CC (-1, 0, 0)%Z
    = Ok (Some (mkGraphAction SetEdgeAttr (Some 0%Z) (Some 1%Z)
                  (Some (VBond DOUBLE)) (Some "type"))).
Proof.
  split; [|reflexivity].
  apply (proj1 (aidx_to_GraphAction_unknown_type
                  default_atoms 0 ctx_default d_CC 7 0 0 eq_refl)).
  lia.
Defined.

(** C4, as the spec states it, fails: for the ordinal 5 the decoder does
    not return [None], it raises. *)
Lemma aidx_to_GraphAction_unknown_type_cex :
  init default_atoms 0 = Ok ctx_default
  ∧ aidx_to_GraphAction ctx_default d_CC (5, 0, 0)%Z = Raise IndexError
  ∧ aidx_to_GraphAction ctx_default d_CC (5, 0, 0)%Z ≠ Ok None.
Proof. split; [reflexivity | split; [reflexivity | discriminate]]. Qed.

(** ** The tensor form of the empty graph *)

Lemma insert_replicate_last {A : Type} (n : nat) (a b : A) :
  <[n := b]> (replicate (S n) a) = replicate n a ++ [b].
Proof. induction n as [|n IH]; [done|]. simpl in *. by rewrite IH. Qed.

Lemma set2_last_of_zero_row (c : nat) (v : Z) :
  set2 [replicate (S c) 0%Z] 0 (-1) v = Ok [replicate c 0%Z ++ [v]].
Proof.
  unfold set2. simpl. unfold py_set.
  replace (0 <=? -1)%Z with false by done.
  replace (- len (0%Z :: replicate c 0%Z) <=? -1)%Z with true
    by (symmetry; apply Z.leb_le; unfold len; simpl; lia).
  replace (Z.to_nat (len (0%Z :: replicate c 0%Z) + -1)) with c
    by (unfold len; simpl; rewrite length_replicate; lia).
  simpl. by rewrite <- (insert_replicate_last c).
Qed.

Lemma non_neighbours_no_nodes (g : nx.Graph) :
  nx.nodes g = [] → nx.non_neighbours g = [].
Proof.
  intros Hn. unfold nx.non_neighbours. rewrite Hn.
  induction (nx._adj g) as [|[n nbrs] adj IH]; [done|]. simpl. exact IH.
Qed.

(** C8: the tensor form of a graph without nodes and edges has a feature
    matrix of exactly one row; the row is zero at every attribute position
    and one at its last position, the indicator of emptiness. *)
Theorem graph_to_Data_empty (atoms : list string) (n : Z) (ctx : Ctx)
    (g : nx.Graph) :
  init atoms n = Ok ctx →
  nx.nodes g = [] → nx.edges g = [] →
  graph_to_Data ctx g
  = Ok (mkData [replicate (Z.to_nat (atom_attr_size ctx)) 0%Z ++ [1%Z]] [] [] []).
Proof.
  intros [_ ->]%init_inv Hn He. unfold graph_to_Data.
  assert (Hc : nx.edges (nx.complement g) = []).
  { unfold nx.complement. by rewrite non_neighbours_no_nodes, Hn. }
  rewrite Hc, Hn, He. cbn [len length enumerate enumerate_from for_each].
  replace (zeros (Z.max 1 (len (@nil Z))) (num_node_dim (tables atoms n)))
    with [replicate (S (Z.to_nat (atom_attr_size (tables atoms n)))) 0%Z].
  2:{ unfold zeros.
      replace (Z.to_nat (num_node_dim (tables atoms n)))
        with (S (Z.to_nat (atom_attr_size (tables atoms n))))
        by (cbn [num_node_dim atom_attr_size tables]; unfold len; lia).
      done. }
  rewrite set2_last_of_zero_row. reflexivity.
Qed.

Lemma graph_to_Data_empty_witness :
  graph_to_Data ctx_default nx.empty
  = Ok (mkData [replicate (Z.to_nat (atom_attr_size ctx_default)) 0%Z ++ [1%Z]] [] [] []).
Proof.
  apply (graph_to_Data_empty default_atoms 0); reflexivity.
Defined.

(** ** Locating a pair in an index tensor *)

Lemma find_from_shift {A : Type} (p : A → bool) (i : Z) (l : list A) :
  find_from p i l = (λ k, (i + k)%Z) <$> find_from p 0 l.
Proof.
  revert i. induction l as [|a l IH]; intros i; simpl; [done|].
  destruct (p a); simpl; [f_equal; lia|].
  rewrite (IH (i + 1)%Z), (IH (0 + 1)%Z).
  destruct (find_from p 0 l); simpl; [f_equal; lia | done].
Qed.

Lemma find_from_Some {A : Type} (p : A → bool) (l : list A) (k : Z) :
  find_from p 0 l = Some k →
  (0 ≤ k)%Z ∧ ∃ a, l !! Z.to_nat k = Some a ∧ p a = true.
Proof.
  revert k. induction l as [|a l IH]; intros k; simpl; [done|].
  destruct (p a) eqn:Hp.
  - intros [= <-]. split; [lia|]. exists a. by simpl.
  - rewrite find_from_shift. destruct (find_from p 0 l) as [j|]; [|done].
    intros [= <-]. destruct (IH j eq_refl) as (Hj & b & Hb & Hpb).
    split; [lia|]. exists b. split; [|done].
    replace (Z.to_nat (0 + 1 + j)) with (S (Z.to_nat j)) by lia. done.
Qed.

Lemma find_from_None {A : Type} (p : A → bool) (i : Z) (l : list A) :
  find_from p i l = None ↔ ∀ a, a ∈ l → p a = false.
Proof.
  revert i. induction l as [|a l IH]; intros i; simpl.
  - split; [|done]. intros _ a Ha. by apply elem_of_nil in Ha.
  - destruct (p a) eqn:Hp.
    + split; [done|]. intros H. rewrite H in Hp; [done | left].
    + rewrite IH. split.
      * intros H b [->|Hb]%elem_of_cons; auto.
      * intros H b Hb. apply H. by right.
Qed.

Lemma find_from_is_Some {A : Type} (p : A → bool) (l : list A) (a : A) :
  a ∈ l → p a = true → is_Some (find_from p 0 l).
Proof.
  intros Ha Hp. destruct (find_from p 0 l) eqn:E; [eauto|].
  rewrite find_from_None in E. rewrite (E a Ha) in Hp. done.
Qed.

(** The first maximal entry: when no entry exceeds [m] and the running
    best is below [m], [argmax_from] ends at the first entry equal to [m]. *)
Lemma argmax_from_best (m bi i : Z) (l : list Z) :
  (∀ v, v ∈ l → v ≤ m)%Z → argmax_from bi m i l = bi.
Proof.
  revert i. induction l as [|v l IH]; intros i Hle; simpl; [done|].
  destruct (Z.ltb_spec m v) as [Hlt|_].
  - assert (v ≤ m)%Z by (apply Hle; left). lia.
  - apply IH. intros w Hw. apply Hle. by right.
Qed.

Lemma argmax_from_first (m bi bv i k : Z) (l : list Z) :
  (∀ v, v ∈ l → v ≤ m)%Z → (bv < m)%Z →
  find_from (λ v, v =? m)%Z i l = Some k →
  argmax_from bi bv i l = k.
Proof.
  revert bi bv i. induction l as [|v l IH]; intros bi bv i Hle Hbv; simpl; [done|].
  assert (Hv : (v ≤ m)%Z) by (apply Hle; left).
  assert (Hl : ∀ w, w ∈ l → (w ≤ m)%Z) by (intros w Hw; apply Hle; by right).
  destruct (Z.eqb_spec v m) as [->|Hne].
  - intros [= <-]. rewrite (proj2 (Z.ltb_lt bv m) Hbv). by apply argmax_from_best.
  - intros Hk. destruct (Z.ltb_spec bv v); apply IH; auto; lia.
Qed.

Lemma argmax_first (m k : Z) (l : list Z) :
  (∀ v, v ∈ l → v ≤ m)%Z →
  find_from (λ v, v =? m)%Z 0 l = Some k →
  argmax l = Ok k.
Proof.
  destruct l as [|v l]; simpl; [done|]. intros Hle.
  assert (Hl : ∀ w, w ∈ l → (w ≤ m)%Z) by (intros w Hw; apply Hle; by right).
  destruct (Z.eqb_spec v m) as [->|Hne].
  - intros [= <-]. f_equal. by apply argmax_from_best.
  - intros Hk. f_equal. apply (argmax_from_first m); auto.
    assert (v ≤ m)%Z by (apply Hle; left). lia.
Qed.

Lemma argmax_all_zero (l : list Z) :
  l ≠ [] → (∀ v, v ∈ l → v = 0%Z) → argmax l = Ok 0%Z.
Proof.
  destruct l as [|v l]; [done|]. intros _ Hz. simpl. f_equal.
  rewrite (Hz v) by left. apply argmax_from_best.
  intros w Hw. rewrite (Hz w); [lia | by right].
Qed.

Lemma find_from_map {A B : Type} (f : A → B) (p : B → bool) (i : Z) (l : list A) :
  find_from p i (map f l) = find_from (λ a, p (f a)) i l.
Proof.
  revert i. induction l as [|a l IH]; intros i; simpl; [done|].
  by rewrite IH.
Qed.

Lemma find_from_ext {A : Type} (p q : A → bool) (i : Z) (l : list A) :
  (∀ a, p a = q a) → find_from p i l = find_from q i l.
Proof.
  intros Hpq. revert i. induction l as [|a l IH]; intros i; simpl; [done|].
  by rewrite Hpq, IH.
Qed.

Lemma tensor_add_map {A : Type} (f g : A → Z) (l : list A) :
  tensor_add (map f l) (map g l) = map (λ a, f a + g a)%Z l.
Proof.
  unfold tensor_add. induction l as [|a l IH]; simpl; [done|]. by rewrite IH.
Qed.

(** An entry of the mask is 1 exactly at the columns equal to the pair. *)
Lemma mask_entry (p : Z * Z) (a b : Z) :
  (Z.b2z (bool_decide (p.1 = a)) * Z.b2z (bool_decide (p.2 = b)))%Z
  = Z.b2z (bool_decide (p = (a, b))).
Proof.
  destruct p as [x y]. simpl.
  repeat case_bool_decide; simplify_eq; done.
Qed.

Lemma match_mask_b2z (index : list (Z * Z)) (a b : Z) :
  match_mask index a b = map (λ p, Z.b2z (bool_decide (p = (a, b)))) index.
Proof. unfold match_mask. apply map_ext. intros p. apply mask_entry. Qed.

Lemma argmax_match_mask (index : list (Z * Z)) (a b k : Z) :
  find_from (λ p, bool_decide (p = (a, b))) 0 index = Some k →
  argmax (match_mask index a b) = Ok k.
Proof.
  intros Hk. rewrite match_mask_b2z. apply (argmax_first 1).
  - intros v (p & -> & _)%list_elem_of_fmap. by destruct (bool_decide _).
  - rewrite find_from_map. rewrite <- Hk. apply find_from_ext.
    intros p. by destruct (bool_decide _).
Qed.

Lemma argmax_either_way (index : list (Z * Z)) (s t k : Z) :
  s ≠ t →
  find_from (either_way s t) 0 index = Some k →
  argmax (tensor_add (match_mask index s t) (match_mask index t s)) = Ok k.
Proof.
  intros Hst Hk. rewrite !match_mask_b2z, tensor_add_map. apply (argmax_first 1).
  - intros v (p & -> & _)%list_elem_of_fmap.
    repeat case_bool_decide; simplify_eq; simpl; lia.
  - rewrite find_from_map. rewrite <- Hk. apply find_from_ext.
    intros [x y]. unfold either_way.
    repeat case_bool_decide; simpl; try done; exfalso; intuition congruence.
Qed.

Lemma argmax_neither_way (index : list (Z * Z)) (s t : Z) :
  index ≠ [] → (s, t) ∉ index → (t, s) ∉ index →
  argmax (tensor_add (match_mask index s t) (match_mask index t s)) = Ok 0%Z.
Proof.
  intros Hne Hst Hts. rewrite !match_mask_b2z, tensor_add_map.
  apply argmax_all_zero.
  - by destruct index.
  - intros v (p & -> & Hp)%list_elem_of_fmap.
    repeat case_bool_decide; simplify_eq; done.
Qed.

(** ** AddEdge on a pair that is no candidate *)

(** C10, as the code has it: for an AddEdge whose source and target fit in
    64 bits and are in the list of non-edge candidates in neither
    orientation, when the list is not empty the mask is zero everywhere,
    its argmax is 0 and the encoder answers (3, 0, 0), the index of the
    first candidate; when the list is empty, the argmax of an empty tensor
    raises. A source or a target that does not fit in 64 bits is in no
    list of candidates, and torch raises when it is put in a tensor. *)
Theorem GraphAction_to_aidx_AddEdge_absent (atoms : list string) (n : Z)
    (ctx : Ctx) (d : Data) (s t : Z) (v : option pyval) (k : option string) :
  init atoms n = Ok ctx →
  (s, t) ∉ non_edge_index d → (t, s) ∉ non_edge_index d →
  (in_int64 s = true → in_int64 t = true → non_edge_index d ≠ [] →
     GraphAction_to_aidx ctx d (mkGraphAction AddEdge (Some s) (Some t) v k)
     = Ok (3, 0, 0)%Z)
  ∧ (in_int64 s = true → in_int64 t = true → non_edge_index d = [] →
     raises (GraphAction_to_aidx ctx d
               (mkGraphAction AddEdge (Some s) (Some t) v k)))
  ∧ (in_int64 s = false ∨ in_int64 t = false →
     raises (GraphAction_to_aidx ctx d
               (mkGraphAction AddEdge (Some s) (Some t) v k))).
Proof.
  intros [_ ->]%init_inv Hst Hts. unfold GraphAction_to_aidx.
  cbn [action source target decide_rel GraphActionType_eq_dec].
  simpl. split; [|split].
  - intros Hs Ht Hne. rewrite !pair_tensor_Some by done. simpl.
    by rewrite argmax_neither_way.
  - intros Hs Ht ->. by rewrite !pair_tensor_Some by done.
  - intros Hbad. unfold pair_tensor. simpl.
    destruct (in_int64 s), (in_int64 t); try done; by destruct Hbad.
Qed.

Lemma GraphAction_to_aidx_AddEdge_absent_witness :
  non_edge_index d_CCC = [(0, 2)%Z]
  ∧ GraphAction_to_aidx ctx_default d_CCC add_edge_0_1 = Ok (3, 0, 0)%Z.
Proof.
  split; [reflexivity|].
  refine (proj1 (GraphAction_to_aidx_AddEdge_absent default_atoms 0 ctx_default
                   d_CCC 0 1 None None eq_refl _ _) eq_refl eq_refl _).
  - compute_done.
  - compute_done.
  - discriminate.
Defined.

(** C10, as stated for every graph tensor, fails: the bonded pair of
    carbons has no non-edge candidate at all, AddEdge between its two atoms
    is in the candidate list in neither orientation, and the encoder
    raises. *)
Lemma GraphAction_to_aidx_AddEdge_absent_cex :
  graph_to_Data ctx_default g_CC = Ok d_CC
  ∧ ((0, 1)%Z ∉ non_edge_index d_CC) ∧ ((1, 0)%Z ∉ non_edge_index d_CC)
  ∧ raises (GraphAction_to_aidx ctx_default d_CC add_edge_0_1)
  ∧ GraphAction_to_aidx ctx_default d_CC add_edge_0_1 ≠ Ok (3, 0, 0)%Z.
Proof.
  split; [reflexivity|]. split; [compute_done|]. split; [compute_done|].
  split; [exact I | discriminate].
Qed.

(** ** The scenario of the two carbon atoms *)

(** C3, as the code has it: with the default vocabulary and two carbon
    atoms whose pair is the one non-edge candidate, stored as (0, 1) or as
    (1, 0), AddEdge between atom 0 and atom 1 is encoded as (3, 0, 0) in
    both cases, and decoding returns AddEdge with source and target in the
    stored orientation: the original action when (0, 1) is stored, the
    action with its ends exchanged when (1, 0) is stored. *)
Theorem AddEdge_two_carbons (d : Data) (a b : Z) :
  non_edge_index d = [(a, b)] →
  (a, b) = (0, 1)%Z ∨ (a, b) = (1, 0)%Z →
  GraphAction_to_aidx ctx_default d add_edge_0_1 = Ok (3, 0, 0)%Z
  ∧ aidx_to_GraphAction ctx_default d (3, 0, 0)%Z
    = Ok (Some (mkGraphAction AddEdge (Some a) (Some b) None None))
  ∧ same_action add_edge_0_1 (mkGraphAction AddEdge (Some a) (Some b) None None)
  ∧ (mkGraphAction AddEdge (Some a) (Some b) None None = add_edge_0_1
     ↔ (a, b) = (0, 1)%Z).
Proof.
  intros Hd Hab. unfold GraphAction_to_aidx, aidx_to_GraphAction. simpl.
  rewrite Hd. unfold same_action, add_edge_0_1, swap_ends. simpl.
  destruct Hab as [[= -> ->]|[= -> ->]]; simpl;
    (split; [reflexivity|]); (split; [reflexivity|]); split; auto;
    split; congruence.
Qed.

Lemma AddEdge_two_carbons_witness :
  graph_to_Data ctx_default g_C_C = Ok d_C_C
  ∧ non_edge_index d_C_C = [(0, 1)%Z]
  ∧ GraphAction_to_aidx ctx_default d_C_C add_edge_0_1 = Ok (3, 0, 0)%Z
  ∧ aidx_to_GraphAction ctx_default d_C_C (3, 0, 0)%Z = Ok (Some add_edge_0_1).
Proof.
  split; [reflexivity|]. split; [reflexivity|].
  destruct (AddEdge_two_carbons d_C_C 0 1) as (H1 & H2 & _).
  - reflexivity.
  - by left.
  - split; [exact H1 | exact H2].
Defined.

(** C3, as the spec states it, fails. When the candidate is stored as
    (1, 0), which is what [graph_to_Data] stores when atom 1 was added to
    the graph before atom 0, the decoded action is AddEdge from 1 to 0 and
    not the original AddEdge from 0 to 1. When the two carbons are already
    joined by their single bond there is no candidate and the encoder
    raises. *)
Lemma AddEdge_two_carbons_cex :
  (graph_to_Data ctx_default g_C_C_rev = Ok d_C_C_rev
   ∧ non_edge_index d_C_C_rev = [(1, 0)%Z]
   ∧ GraphAction_to_aidx ctx_default d_C_C_rev add_edge_0_1 = Ok (3, 0, 0)%Z
   ∧ aidx_to_GraphAction ctx_default d_C_C_rev (3, 0, 0)%Z = Ok (Some add_edge_1_0)
   ∧ add_edge_1_0 ≠ add_edge_0_1)
  ∧ (graph_to_Data ctx_default g_CC = Ok d_CC
     ∧ raises (GraphAction_to_aidx ctx_default d_CC add_edge_0_1)).
Proof.
  split.
  - repeat (split; [reflexivity|]). discriminate.
  - split; [reflexivity | exact I].
Qed.

(** ** Insertion-ordered dictionaries *)

Section odict_facts.
Context {K V : Type} `{EqDecision K}.
Implicit Types (d : odict K V) (k : K) (v : V).

Lemma od_get_set_eq d k v : od_get k (od_set k v d) = Some v.
Proof.
  induction d as [|[k' v'] d IH]; simpl.
  - by rewrite decide_True.
  - destruct (decide (k = k')) as [->|Hne]; simpl.
    + by rewrite decide_True.
    + by rewrite decide_False.
Qed.

Lemma od_get_set_ne d k k' v : k ≠ k' → od_get k' (od_set k v d) = od_get k' d.
Proof.
  intros Hne. induction d as [|[k0 v0] d IH]; simpl.
  - by rewrite decide_False.
  - destruct (decide (k = k0)) as [->|Hne0]; simpl.
    + by rewrite !decide_False.
    + by rewrite IH.
Qed.

Lemma od_get_set d k k' v :
  od_get k' (od_set k v d) = if decide (k = k') then Some v else od_get k' d.
Proof.
  destruct (decide (k = k')) as [->|Hne].
  - apply od_get_set_eq.
  - by apply od_get_set_ne.
Qed.

Lemma od_get_Some_elem d k v : od_get k d = Some v → (k, v) ∈ d.
Proof.
  induction d as [|[k' v'] d IH]; simpl; [done|].
  destruct (decide (k = k')) as [->|Hne].
  - intros [= ->]. left.
  - intros H. right. auto.
Qed.

Lemma od_get_is_Some d k : is_Some (od_get k d) ↔ k ∈ od_keys d.
Proof.
  unfold od_keys. induction d as [|[k' v'] d IH]; simpl.
  - split; [by intros [? ?] | by intros ?%elem_of_nil].
  - destruct (decide (k = k')) as [->|Hne].
    + split; [left | eauto].
    + rewrite IH. split; [by right | by intros [?|?]%elem_of_cons].
Qed.

Lemma od_get_None d k : od_get k d = None ↔ k ∉ od_keys d.
Proof. rewrite <- od_get_is_Some, eq_None_not_Some. done. Qed.

Lemma od_keys_set_old d k v : k ∈ od_keys d → od_keys (od_set k v d) = od_keys d.
Proof.
  unfold od_keys. induction d as [|[k' v'] d IH]; simpl.
  - by intros ?%elem_of_nil.
  - destruct (decide (k = k')) as [->|Hne]; simpl; [done|].
    intros [?|?]%elem_of_cons; [done|]. f_equal. auto.
Qed.

Lemma od_keys_set_new d k v : k ∉ od_keys d → od_keys (od_set k v d) = od_keys d ++ [k].
Proof.
  unfold od_keys. induction d as [|[k' v'] d IH]; simpl; [done|].
  intros [Hne Hd]%not_elem_of_cons. rewrite decide_False by done.
  simpl. f_equal. auto.
Qed.
End odict_facts.

(** ** Graphs: adjacency, edges and the complement *)

Lemma elem_of_flat_map {A B : Type} (f : A → list B) (l : list A) (y : B) :
  y ∈ flat_map f l ↔ ∃ x, x ∈ l ∧ y ∈ f x.
Proof.
  induction l as [|a l IH]; simpl.
  - split; [by intros ?%elem_of_nil | by intros (? & ?%elem_of_nil & _)].
  - rewrite elem_of_app, IH. split.
    + intros [?|(x & ? & ?)]; [exists a; split; [left|done] | exists x; split; [by right|done]].
    + intros (x & [->|?]%elem_of_cons & ?); [by left | right; eauto].
Qed.

Section graph_facts.
Implicit Types (g : nx.Graph) (u v x y : Z).
Implicit Types (adj : odict Z (odict Z (gmap string pyval))).

Lemma has_edge_adjacent g u v :
  nx.has_edge g u v = true ↔ adjacent (nx._adj g) u v.
Proof.
  unfold nx.has_edge, adjacent. destruct (od_get u (nx._adj g)) as [nbrs|].
  - rewrite bool_decide_eq_true. split; [eauto|]. by intros (? & [= <-] & ?).
  - split; [done|]. by intros (? & ? & ?).
Qed.

Lemma adjacent_link adj u v dd x y :
  adjacent (link u v dd adj) x y ↔ adjacent adj x y ∨ (x = u ∧ y = v).
Proof.
  unfold adjacent, link. setoid_rewrite od_get_set.
  destruct (decide (u = x)) as [->|Hne].
  - split.
    + intros (nbrs & [= <-] & Hy). rewrite od_get_set in Hy.
      destruct (decide (v = y)) as [->|Hvy]; [by right|]. left.
      destruct (od_get x adj) as [nbrs|]; simpl in Hy; [eauto|].
      by destruct Hy.
    + intros [(nbrs & Hx & Hy)|[_ ->]].
      * eexists. split; [done|]. rewrite Hx, od_get_set. simpl.
        by destruct (decide (v = y)).
      * eexists. split; [done|]. by rewrite od_get_set_eq.
  - split; [by left|]. intros [?|[-> _]]; done.
Qed.

Lemma od_keys_link adj u v dd :
  u ∈ od_keys adj → od_keys (link u v dd adj) = od_keys adj.
Proof. intros Hu. unfold link. by apply od_keys_set_old. Qed.

Lemma adj_add_edge u v attr g :
  ∃ dd, nx._adj (nx.add_edge u v attr g)
        = link v u dd (link u v dd (nx._adj (nx.touch v (nx.touch u g))))
      ∧ nx._node (nx.add_edge u v attr g) = nx._node (nx.touch v (nx.touch u g)).
Proof. eexists. split; reflexivity. Qed.

(** Creating a missing node keeps the graph well formed, puts the node
    among the nodes and leaves adjacency as it was. *)
Lemma touch_spec n g :
  wf_graph g →
  wf_graph (nx.touch n g)
  ∧ n ∈ od_keys (nx._adj (nx.touch n g))
  ∧ (∀ m, m ∈ od_keys (nx._adj g) → m ∈ od_keys (nx._adj (nx.touch n g)))
  ∧ (∀ x y, adjacent (nx._adj (nx.touch n g)) x y ↔ adjacent (nx._adj g) x y).
Proof.
  intros [Hk Hs]. unfold nx.touch.
  destruct (od_get n (nx._node g)) as [old|] eqn:Hn.
  - split; [done|]. split; [|done].
    rewrite Hk. apply od_get_is_Some. eauto.
  - assert (Hnk : n ∉ od_keys (nx._node g)) by by apply od_get_None.
    assert (Hna : n ∉ od_keys (nx._adj g)) by by rewrite Hk.
    assert (Hadj : ∀ x y, adjacent (od_set n [] (nx._adj g)) x y
                          ↔ adjacent (nx._adj g) x y).
    { intros x y. unfold adjacent. setoid_rewrite od_get_set.
      destruct (decide (n = x)) as [->|Hne]; [|done].
      apply od_get_None in Hna. rewrite Hna. split.
      - intros (? & [= <-] & Hy). by destruct Hy.
      - by intros (? & ? & _). }
    split; [split|split; [|split]]; simpl.
    + by rewrite !od_keys_set_new, Hk.
    + intros u v. rewrite !has_edge_adjacent. simpl. rewrite !Hadj.
      rewrite <- !has_edge_adjacent. apply Hs.
    + rewrite od_keys_set_new by done. apply elem_of_app. right. left.
    + intros m Hm. rewrite od_keys_set_new by done. apply elem_of_app. by left.
    + exact Hadj.
Qed.

Lemma add_edge_spec u v attr g :
  wf_graph g →
  wf_graph (nx.add_edge u v attr g)
  ∧ (∀ x y, adjacent (nx._adj (nx.add_edge u v attr g)) x y
            ↔ adjacent (nx._adj g) x y ∨ (x = u ∧ y = v) ∨ (x = v ∧ y = u)).
Proof.
  intros Hwf.
  destruct (touch_spec u g Hwf) as (Hwf1 & Hu1 & Hm1 & Hadj1).
  destruct (touch_spec v (nx.touch u g) Hwf1) as (Hwf2 & Hv2 & Hm2 & Hadj2).
  destruct (adj_add_edge u v attr g) as (dd & Ha & Hn).
  assert (Hiff : ∀ x y, adjacent (nx._adj (nx.add_edge u v attr g)) x y
            ↔ adjacent (nx._adj g) x y ∨ (x = u ∧ y = v) ∨ (x = v ∧ y = u)).
  { intros x y. rewrite Ha, !adjacent_link, Hadj2, Hadj1. tauto. }
  split; [split|exact Hiff].
  - rewrite Ha, Hn. rewrite !od_keys_link; [apply Hwf2 | auto |].
    rewrite od_keys_link; auto.
  - intros x y. rewrite !has_edge_adjacent, !Hiff, <- !has_edge_adjacent.
    intros [H|[[-> ->]|[-> ->]]]; auto. left. by apply Hwf.
Qed.

Lemma wf_empty : wf_graph nx.empty.
Proof. split; [done|]. intros u v. by unfold nx.has_edge. Qed.

Lemma wf_add_node n attr g : wf_graph g → wf_graph (nx.add_node n attr g).
Proof.
  intros [Hk Hs]. unfold nx.add_node.
  destruct (od_get n (nx._node g)) as [old|] eqn:Hn.
  - split; simpl; [|exact Hs].
    rewrite od_keys_set_old; [done|]. apply od_get_is_Some. eauto.
  - pose proof (touch_spec n g (mk_wf_graph g Hk Hs)) as (Hwf & _ & _ & _).
    unfold nx.touch in Hwf. rewrite Hn in Hwf. destruct Hwf as [Hk' Hs'].
    assert (Hnk : n ∉ od_keys (nx._node g)) by by apply od_get_None.
    split; simpl in *; [|exact Hs'].
    rewrite Hk'. by rewrite !od_keys_set_new.
Qed.

Lemma wf_add_edge u v attr g : wf_graph g → wf_graph (nx.add_edge u v attr g).
Proof. intros Hwf. by apply add_edge_spec. Qed.

(** Every adjacency is reported by the iteration over the edges, in one
    orientation or the other. *)
Lemma edges_from_covers seen adj u v :
  adjacent adj u v → adjacent adj v u → u ∉ seen → v ∉ seen →
  (u, v) ∈ nx.edges_from seen adj ∨ (v, u) ∈ nx.edges_from seen adj.
Proof.
  revert seen. induction adj as [|[n nbrs] adj IH]; intros seen Huv Hvu Hu Hv.
  - by destruct Huv as (? & ? & _).
  - simpl. destruct Huv as (nu & Hnu & Hv'). destruct Hvu as (nv & Hnv & Hu').
    simpl in Hnu, Hnv.
    destruct (decide (u = n)) as [->|Hun].
    { left. apply elem_of_app. left. simplify_eq.
      apply list_elem_of_fmap. exists v. split; [done|].
      apply list_elem_of_filter. split; [done|]. by apply od_get_is_Some. }
    destruct (decide (v = n)) as [->|Hvn].
    { right. apply elem_of_app. left. simplify_eq.
      apply list_elem_of_fmap. exists u. split; [done|].
      apply list_elem_of_filter. split; [done|]. by apply od_get_is_Some. }
    destruct (IH (n :: seen)) as [H|H].
    + by exists nu.
    + by exists nv.
    + by apply not_elem_of_cons.
    + by apply not_elem_of_cons.
    + left. apply elem_of_app. by right.
    + right. apply elem_of_app. by right.
Qed.

Lemma edges_covers g u v :
  wf_graph g → nx.has_edge g u v = true →
  (u, v) ∈ nx.edges g ∨ (v, u) ∈ nx.edges g.
Proof.
  intros Hwf Huv. pose proof (wf_sym g Hwf u v Huv) as Hvu.
  apply has_edge_adjacent in Huv, Hvu.
  apply edges_from_covers; auto using not_elem_of_nil.
Qed.

(** The graph that [nx.complement] builds. *)
Lemma wf_touch_all ns g :
  wf_graph g → wf_graph (fold_left (λ r n, nx.touch n r) ns g).
Proof.
  revert g. induction ns as [|n ns IH]; intros g Hwf; simpl; [done|].
  apply IH. by apply touch_spec.
Qed.

Lemma add_edges_spec es g :
  wf_graph g →
  wf_graph (fold_left (λ r e, nx.add_edge e.1 e.2 ∅ r) es g)
  ∧ ∀ e, e ∈ es →
      nx.has_edge (fold_left (λ r e, nx.add_edge e.1 e.2 ∅ r) es g) e.1 e.2 = true.
Proof.
  assert (Hmono : ∀ es g x y, wf_graph g → nx.has_edge g x y = true →
    wf_graph (fold_left (λ r e, nx.add_edge e.1 e.2 ∅ r) es g)
    ∧ nx.has_edge (fold_left (λ r e, nx.add_edge e.1 e.2 ∅ r) es g) x y = true).
  { clear. intros es. induction es as [|e es IH]; intros g x y Hwf Hxy; simpl; [done|].
    destruct (add_edge_spec e.1 e.2 ∅ g Hwf) as [Hwf' Hadj].
    apply IH; [done|]. apply has_edge_adjacent, Hadj. left.
    by apply has_edge_adjacent. }
  revert g. induction es as [|e es IH]; intros g Hwf; simpl.
  - split; [done|]. by intros e ?%elem_of_nil.
  - destruct (add_edge_spec e.1 e.2 ∅ g Hwf) as [Hwf' Hadj].
    destruct (IH _ Hwf') as [Hwf'' Hes]. split; [done|].
    intros e' [->|He']%elem_of_cons; [|by apply Hes].
    apply Hmono; [done|]. apply has_edge_adjacent, Hadj. auto.
Qed.

Lemma wf_complement g : wf_graph (nx.complement g).
Proof.
  unfold nx.complement. apply add_edges_spec, wf_touch_all, wf_empty.
Qed.

Lemma elem_of_non_neighbours g s t :
  wf_graph g → s ∈ nx.nodes g → t ∈ nx.nodes g → s ≠ t →
  nx.has_edge g s t = false →
  (s, t) ∈ nx.non_neighbours g.
Proof.
  intros Hwf Hs Ht Hst Hno. unfold nx.non_neighbours.
  unfold nx.nodes in Hs. rewrite <- (wf_keys g Hwf) in Hs.
  apply od_get_is_Some in Hs as [nbrs Hnbrs].
  apply elem_of_flat_map. exists (s, nbrs). split.
  - by apply od_get_Some_elem.
  - apply list_elem_of_fmap. exists t. split; [done|].
    apply list_elem_of_filter. split; [split; [|done]|done].
    unfold nx.has_edge in Hno. rewrite Hnbrs in Hno.
    apply bool_decide_eq_false in Hno. by apply eq_None_not_Some.
Qed.

(** Two distinct nodes that are not adjacent are a candidate of AddEdge,
    in one orientation or the other. *)
Lemma non_edge_covers g s t :
  wf_graph g → s ∈ nx.nodes g → t ∈ nx.nodes g → s ≠ t →
  nx.has_edge g s t = false →
  (s, t) ∈ nx.edges (nx.complement g) ∨ (t, s) ∈ nx.edges (nx.complement g).
Proof.
  intros Hwf Hs Ht Hst Hno.
  apply edges_covers; [apply wf_complement|].
  unfold nx.complement.
  apply (proj2 (add_edges_spec _ _ (wf_touch_all _ _ wf_empty)) (s, t)).
  by apply elem_of_non_neighbours.
Qed.
End graph_facts.

(** ** The index tensors of a graph *)

Lemma graph_to_Data_indices (ctx : Ctx) (g : nx.Graph) (d : Data) :
  graph_to_Data ctx g = Ok d →
  edge_index d = flat_map both_ways (nx.edges g)
  ∧ non_edge_index d = nx.edges (nx.complement g).
Proof.
  unfold graph_to_Data.
  intros (x0 & _ & (x1 & _ & (ea & _ & (ei & [-> _]%long_tensor_Ok
    & (nei & [-> _]%long_tensor_Ok & [= <-])%bind_Ok)%bind_Ok)%bind_Ok)%bind_Ok)%bind_Ok.
  done.
Qed.

(** The entries of the index tensors fit in 64 bits. *)
Lemma graph_to_Data_int64 (ctx : Ctx) (g : nx.Graph) (d : Data) :
  graph_to_Data ctx g = Ok d →
  Forall (λ p, in_int64 p.1 = true ∧ in_int64 p.2 = true) (edge_index d)
  ∧ Forall (λ p, in_int64 p.1 = true ∧ in_int64 p.2 = true) (non_edge_index d).
Proof.
  unfold graph_to_Data.
  intros (x0 & _ & (x1 & _ & (ea & _ & (ei & [-> Hei]%long_tensor_Ok
    & (nei & [-> Hnei]%long_tensor_Ok & [= <-])%bind_Ok)%bind_Ok)%bind_Ok)%bind_Ok)%bind_Ok.
  done.
Qed.

Lemma lookup_both_ways_even (es : list (Z * Z)) (q : nat) :
  flat_map both_ways es !! (2 * q)%nat = es !! q.
Proof.
  revert q. induction es as [|[i j] es IH]; intros q; [done|].
  destruct q as [|q]; [done|].
  replace (2 * S q)%nat with (S (S (2 * q))) by lia. simpl. apply IH.
Qed.

Lemma lookup_both_ways_odd (es : list (Z * Z)) (q : nat) :
  flat_map both_ways es !! S (2 * q) = (λ e, (e.2, e.1)) <$> es !! q.
Proof.
  revert q. induction es as [|[i j] es IH]; intros q; [done|].
  destruct q as [|q]; [done|].
  replace (S (2 * S q))%nat with (S (S (S (2 * q)))) by lia. simpl. apply IH.
Qed.

Lemma elem_of_both_ways (es : list (Z * Z)) (s t : Z) :
  (s, t) ∈ es ∨ (t, s) ∈ es → (s, t) ∈ flat_map both_ways es.
Proof.
  intros H. apply elem_of_flat_map.
  destruct H as [H|H]; eexists; (split; [exact H|]); simpl; [left | right; left].
Qed.

(** Reading [edge_index] at column [2 * (p div 2)] gives the edge that
    column [p] belongs to, in the orientation in which the graph lists it:
    the pair at column [p] itself, or that pair reversed. *)
Lemma both_ways_half (es : list (Z * Z)) (p : Z) (s t : Z) :
  (0 ≤ p)%Z →
  flat_map both_ways es !! Z.to_nat p = Some (s, t) →
  ∃ e, es !! Z.to_nat (p `div` 2) = Some e
       ∧ py_get (flat_map both_ways es) (p `div` 2 * 2) = Ok e
       ∧ (e = (s, t) ∨ e = (t, s)).
Proof.
  intros Hp Hl. set (q := Z.to_nat (p `div` 2)).
  assert (Hq : (p `div` 2 * 2)%Z = Z.of_nat (2 * q)).
  { unfold q. rewrite Nat2Z.inj_mul, Z2Nat.id; [lia|]. by apply Z.div_pos. }
  rewrite Hq, py_get_nat, lookup_both_ways_even.
  destruct (Z.eq_dec (p `mod` 2)%Z 0%Z) as [Hev|Hodd].
  - assert (Hpq : Z.to_nat p = (2 * q)%nat).
    { pose proof (Z.div_mod p 2). subst q. lia. }
    rewrite Hpq, lookup_both_ways_even in Hl. exists (s, t). rewrite Hl. auto.
  - assert (Hpq : Z.to_nat p = S (2 * q)).
    { pose proof (Z.div_mod p 2). pose proof (Z.mod_pos_bound p 2). subst q. lia. }
    rewrite Hpq, lookup_both_ways_odd in Hl.
    destruct (es !! q) as [[i j]|]; simpl in Hl; [|done].
    injection Hl as -> ->. exists (t, s). auto.
Qed.

Lemma py_get_both_ways_even (es : list (Z * Z)) (q : Z) (e : Z * Z) :
  (0 ≤ q)%Z → es !! Z.to_nat q = Some e →
  py_get (flat_map both_ways es) (q * 2) = Ok e.
Proof.
  intros Hq He.
  assert (Hq' : (q * 2)%Z = Z.of_nat (2 * Z.to_nat q)) by lia.
  by rewrite Hq', py_get_nat, lookup_both_ways_even, He.
Qed.

(** A pair listed in an index tensor has both entries in 64 bits. *)
Lemma int64_listed (l : list (Z * Z)) (s t : Z) :
  Forall (λ p, in_int64 p.1 = true ∧ in_int64 p.2 = true) l →
  (s, t) ∈ l ∨ (t, s) ∈ l →
  in_int64 s = true ∧ in_int64 t = true.
Proof.
  intros Hall [H|H]; apply (proj1 (Forall_forall _ _) Hall) in H; simpl in H; tauto.
Qed.

(** ** Searching a value in an attribute list *)

Lemma py_eq_refl (v : pyval) : py_eq v v = true.
Proof.
  destruct v as [s|z|b|c|b]; simpl;
    [by apply bool_decide_eq_true | by apply Z.eqb_eq ..].
Qed.

Lemma py_eq_sym (v w : pyval) : py_eq v w = py_eq w v.
Proof.
  destruct v, w; simpl; try done; try apply Z.eqb_sym.
  apply bool_decide_ext. split; congruence.
Qed.

(** A string equals the same string and nothing else. *)
Lemma py_eq_VStr (s : string) (w : pyval) :
  py_eq (VStr s) w = true ↔ w = VStr s.
Proof.
  destruct w; simpl; try (split; [done | discriminate]).
  rewrite bool_decide_eq_true. split; congruence.
Qed.

(** Values that are no strings are equal when they are the same integer. *)
Lemma py_eq_number (v w : pyval) (x y : Z) :
  as_number v = Some x → as_number w = Some y → py_eq v w = (x =? y)%Z.
Proof. destruct v, w; simpl; try done; by intros [= ->] [= ->]. Qed.

Lemma index_Ok (vs : list pyval) (v : pyval) (i : Z) :
  index vs v = Ok i →
  (0 ≤ i)%Z ∧ ∃ w, vs !! Z.to_nat i = Some w ∧ py_eq v w = true.
Proof. unfold index. rewrite of_option_Ok. apply find_from_Some. Qed.

Lemma index_elem (vs : list pyval) (v : pyval) :
  v ∈ vs → ∃ i, index vs v = Ok i.
Proof.
  intros Hv. destruct (find_from_is_Some (py_eq v) vs v Hv (py_eq_refl v)) as [i Hi].
  exists i. unfold index. by rewrite Hi.
Qed.

(** A symbol of the vocabulary is found at a place that holds it. *)
Lemma index_symbol (atoms : list string) (v : pyval) :
  v ∈ map VStr atoms →
  ∃ i, index (map VStr atoms) v = Ok i ∧ py_get (map VStr atoms) i = Ok v.
Proof.
  intros Hv. destruct (index_elem _ _ Hv) as [i Hi]. exists i. split; [done|].
  apply index_Ok in Hi as (Hi & w & Hw & Heq).
  rewrite py_get_nonneg, Hw by done. simpl.
  apply list_elem_of_lookup_2 in Hw.
  apply list_elem_of_fmap in Hv as (s & -> & _).
  apply list_elem_of_fmap in Hw as (s' & -> & _).
  simpl in Heq. apply bool_decide_eq_true in Heq. by subst.
Qed.

(** ** The round trip of an action through its index *)

Section roundtrip.
Variables (atoms : list string) (n : Z).

Lemma roundtrip_Stop (d : Data) :
  GraphAction_to_aidx (tables atoms n) d (mkGraphAction Stop None None None None)
  = Ok (0, 0, 0)%Z
  ∧ aidx_to_GraphAction (tables atoms n) d (0, 0, 0)%Z
    = Ok (Some (mkGraphAction Stop None None None None)).
Proof. done. Qed.

Lemma roundtrip_AddNode (d : Data) (src : Z) (v : pyval) :
  v ∈ map VStr atoms →
  ∃ col,
    GraphAction_to_aidx (tables atoms n) d
      (mkGraphAction AddNode (Some src) None (Some v) None) = Ok (1, src, col)%Z
    ∧ aidx_to_GraphAction (tables atoms n) d (1, src, col)%Z
      = Ok (Some (mkGraphAction AddNode (Some src) None (Some v) None)).
Proof.
  intros Hv. destruct (index_symbol atoms v Hv) as (i & Hi & Hget).
  exists i. unfold GraphAction_to_aidx, aidx_to_GraphAction. simpl.
  rewrite Hi. simpl. by rewrite Hget.
Qed.

Lemma roundtrip_SetNodeAttr (d : Data) (src : Z) (k : string) (v : pyval) :
  (k, v) ∈ atom_attr_logit_map (tables atoms n) →
  ∃ col,
    GraphAction_to_aidx (tables atoms n) d
      (mkGraphAction SetNodeAttr (Some src) None (Some v) (Some k))
    = Ok (2, src, col)%Z
    ∧ aidx_to_GraphAction (tables atoms n) d (2, src, col)%Z
      = Ok (Some (mkGraphAction SetNodeAttr (Some src) None (Some v) (Some k))).
Proof.
  simpl. intros H.
  repeat (apply elem_of_cons in H as [[= -> ->]|H]; [eexists; split; reflexivity|]).
  by apply elem_of_nil in H.
Qed.

Lemma roundtrip_AddEdge (d : Data) (s t : Z) :
  s ≠ t →
  in_int64 s = true → in_int64 t = true →
  (s, t) ∈ non_edge_index d ∨ (t, s) ∈ non_edge_index d →
  ∃ row a b,
    GraphAction_to_aidx (tables atoms n) d
      (mkGraphAction AddEdge (Some s) (Some t) None None) = Ok (3, row, 0)%Z
    ∧ aidx_to_GraphAction (tables atoms n) d (3, row, 0)%Z
      = Ok (Some (mkGraphAction AddEdge (Some a) (Some b) None None))
    ∧ find_from (either_way s t) 0 (non_edge_index d) = Some row
    ∧ py_get (non_edge_index d) row = Ok (a, b)
    ∧ ((a, b) = (s, t) ∨ (a, b) = (t, s)).
Proof.
  intros Hst Hs Ht Hin.
  assert (Hfind : is_Some (find_from (either_way s t) 0 (non_edge_index d))).
  { destruct Hin as [H|H]; apply (find_from_is_Some _ _ _ H);
      apply bool_decide_eq_true; auto. }
  destruct Hfind as [row Hrow].
  destruct (find_from_Some _ _ _ Hrow) as (Hpos & [a b] & Hl & Hab).
  apply bool_decide_eq_true in Hab.
  assert (Hget : py_get (non_edge_index d) row = Ok (a, b))
    by by rewrite py_get_nonneg, Hl.
  exists row, a, b. unfold GraphAction_to_aidx, aidx_to_GraphAction.
  cbn [action source target].
  rewrite !decide_False, decide_True by done.
  rewrite !pair_tensor_Some by done. cbn [mbind result_bind fst snd].
  rewrite (argmax_either_way _ _ _ _ Hst Hrow).
  split; [reflexivity|]. split; [|done].
  cbn. by rewrite (proj2 (tensor_col_Ok _ _ _) Hget).
Qed.

Lemma roundtrip_SetEdgeAttr (d : Data) (es : list (Z * Z)) (s t : Z)
    (k : string) (v : pyval) :
  edge_index d = flat_map both_ways es →
  in_int64 s = true → in_int64 t = true →
  (s, t) ∈ es ∨ (t, s) ∈ es →
  (k, v) ∈ bond_attr_logit_map (tables atoms n) →
  ∃ p col a b,
    find_from (λ e, bool_decide (e = (s, t))) 0 (edge_index d) = Some p
    ∧ GraphAction_to_aidx (tables atoms n) d
        (mkGraphAction SetEdgeAttr (Some s) (Some t) (Some v) (Some k))
      = Ok (4, p `div` 2, col)%Z
    ∧ aidx_to_GraphAction (tables atoms n) d (4, p `div` 2, col)%Z
      = Ok (Some (mkGraphAction SetEdgeAttr (Some a) (Some b) (Some v) (Some k)))
    ∧ es !! Z.to_nat (p `div` 2) = Some (a, b)
    ∧ ((a, b) = (s, t) ∨ (a, b) = (t, s)).
Proof.
  intros He Hs Ht Hin Hkv.
  assert (Hfind : is_Some (find_from (λ e, bool_decide (e = (s, t))) 0 (edge_index d))).
  { apply (find_from_is_Some _ _ (s, t)).
    - rewrite He. by apply elem_of_both_ways.
    - by apply bool_decide_eq_true. }
  destruct Hfind as [p Hp].
  destruct (find_from_Some _ _ _ Hp) as (Hpos & e & Hl & ->%bool_decide_eq_true).
  rewrite He in Hl.
  destruct (both_ways_half es p s t Hpos Hl) as ([a b] & Hq & Hget & Hab).
  apply tensor_col_Ok in Hget.
  simpl in Hkv.
  repeat (apply elem_of_cons in Hkv as [[= -> ->]|Hkv];
    [ exists p; eexists; exists a, b; split; [done|]; split;
      [ unfold GraphAction_to_aidx; cbn [action source target];
        rewrite !decide_False, decide_True by done;
        rewrite pair_tensor_Some by done; cbn [mbind result_bind fst snd];
        rewrite (argmax_match_mask _ _ _ _ Hp); reflexivity |];
      split;
      [ unfold aidx_to_GraphAction; simpl; rewrite He, Hget; reflexivity |];
      done |]).
  by apply elem_of_nil in Hkv.
Qed.
End roundtrip.

(** C1, as the code has it: for a graph as networkx keeps it, whose tensor
    form exists, and an action that is legal in it, encoding the action over
    the tensor form and decoding the index gives the action back up to the
    orientation of an undirected edge. Stop, AddNode and SetNodeAttr come
    back unchanged. AddEdge comes back as the AddEdge whose source and target
    are the pair that [non_edge_index] stores at the encoded row. SetEdgeAttr
    comes back with the same attribute and value, and with source and target
    the pair that [edge_index] stores at column twice the encoded row, which
    is the edge of that number in the graph. In both cases the pair is the
    one of the original action or that pair reversed. *)
Theorem action_roundtrip (atoms : list string) (n : Z) (ctx : Ctx)
    (g : nx.Graph) (d : Data) (a : GraphAction) :
  init atoms n = Ok ctx →
  wf_graph g →
  graph_to_Data ctx g = Ok d →
  legal ctx g a →
  ∃ idx b,
    GraphAction_to_aidx ctx d a = Ok idx
    ∧ aidx_to_GraphAction ctx d idx = Ok (Some b)
    ∧ same_action a b
    ∧ (action a ≠ AddEdge → action a ≠ SetEdgeAttr → b = a)
    ∧ (action a = AddEdge →
       ∃ s t, py_get (non_edge_index d) idx.1.2 = Ok (s, t)
              ∧ b = mkGraphAction AddEdge (Some s) (Some t) None None)
    ∧ (action a = SetEdgeAttr →
       ∃ s t, py_get (edge_index d) (idx.1.2 * 2) = Ok (s, t)
              ∧ nx.edges g !! Z.to_nat idx.1.2 = Some (s, t)
              ∧ b = mkGraphAction SetEdgeAttr (Some s) (Some t) (value a) (attr a)).
Proof.
  intros [_ ->]%init_inv Hwf Hd Hlegal.
  pose proof (graph_to_Data_indices _ _ _ Hd) as [He Hne].
  pose proof (graph_to_Data_int64 _ _ _ Hd) as [Hie Hine].
  destruct Hlegal as [|src vs v Hvs Hv|src k v Hkv|s t Hs Ht Hst Hno|s t k v Hst Hkv].
  - destruct (roundtrip_Stop atoms n d) as [H1 H2].
    eexists _, _. split; [exact H1|]. split; [exact H2|].
    split; [by left|]. by repeat split.
  - injection Hvs as <-.
    destruct (roundtrip_AddNode atoms n d src v Hv) as (col & H1 & H2).
    eexists _, _. split; [exact H1|]. split; [exact H2|].
    split; [by left|]. by repeat split.
  - destruct (roundtrip_SetNodeAttr atoms n d src k v Hkv) as (col & H1 & H2).
    eexists _, _. split; [exact H1|]. split; [exact H2|].
    split; [by left|]. by repeat split.
  - assert (Hin : (s, t) ∈ non_edge_index d ∨ (t, s) ∈ non_edge_index d).
    { rewrite Hne. by apply non_edge_covers. }
    destruct (int64_listed _ s t Hine Hin) as [Hs64 Ht64].
    destruct (roundtrip_AddEdge atoms n d s t Hst Hs64 Ht64 Hin)
      as (row & a & b & H1 & H2 & _ & Hget & Hab).
    eexists _, _. split; [exact H1|]. split; [exact H2|].
    split; [|split; [done|]; split; [|done]].
    + destruct Hab as [[= -> ->]|[= -> ->]]; [by left | right; auto].
    + intros _. by exists a, b.
  - assert (Hin : (s, t) ∈ nx.edges g ∨ (t, s) ∈ nx.edges g) by by apply edges_covers.
    assert (Hin' : (s, t) ∈ edge_index d ∨ (t, s) ∈ edge_index d).
    { left. rewrite He. by apply elem_of_both_ways. }
    destruct (int64_listed _ s t Hie Hin') as [Hs64 Ht64].
    destruct (roundtrip_SetEdgeAttr atoms n d (nx.edges g) s t k v He Hs64 Ht64 Hin Hkv)
      as (p & col & a & b & Hp & H1 & H2 & Hq & Hab).
    destruct (find_from_Some _ _ _ Hp) as (Hpos & _).
    eexists _, _. split; [exact H1|]. split; [exact H2|].
    split; [|split; [done|]; split; [done|]].
    + destruct Hab as [[= -> ->]|[= -> ->]]; [by left | right; auto].
    + intros _. exists a, b. cbn [fst snd value attr].
      split; [|done]. rewrite He. apply py_get_both_ways_even; [|done].
      by apply Z.div_pos.
Qed.

Lemma wf_g_CCC : wf_graph g_CCC.
Proof. repeat first [apply wf_add_edge | apply wf_add_node | apply wf_empty]. Qed.

Lemma wf_g_C_C : wf_graph g_C_C.
Proof. repeat first [apply wf_add_node | apply wf_empty]. Qed.

Lemma legal_set_edge_2_1 :
  legal ctx_default g_CCC
    (mkGraphAction SetEdgeAttr (Some 2%Z) (Some 1%Z) (Some (VBond DOUBLE)) (Some "type")).
Proof. apply legal_SetEdgeAttr; [reflexivity | compute_done]. Qed.

Lemma action_roundtrip_witness :
  ∃ idx b,
    GraphAction_to_aidx ctx_default d_CCC
      (mkGraphAction SetEdgeAttr (Some 2%Z) (Some 1%Z) (Some (VBond DOUBLE)) (Some "type"))
    = Ok idx
    ∧ aidx_to_GraphAction ctx_default d_CCC idx = Ok (Some b)
    ∧ same_action
        (mkGraphAction SetEdgeAttr (Some 2%Z) (Some 1%Z) (Some (VBond DOUBLE)) (Some "type"))
        b.
Proof.
  destruct (action_roundtrip default_atoms 0 ctx_default g_CCC d_CCC
              (mkGraphAction SetEdgeAttr (Some 2%Z) (Some 1%Z) (Some (VBond DOUBLE))
                 (Some "type"))
              eq_refl wf_g_CCC eq_refl legal_set_edge_2_1)
    as (idx & b & H1 & H2 & H3 & _).
  exists idx, b. auto.
Defined.

(** C1, as the spec states it, fails: in the graph of two carbon atoms
    without a bond, AddEdge from atom 1 to atom 0 is legal, it is encoded as
    (3, 0, 0), and that index decodes to AddEdge from atom 0 to atom 1,
    which is not the action that was encoded. *)
Lemma action_roundtrip_cex :
  init default_atoms 0 = Ok ctx_default
  ∧ wf_graph g_C_C
  ∧ graph_to_Data ctx_default g_C_C = Ok d_C_C
  ∧ legal ctx_default g_C_C add_edge_1_0
  ∧ GraphAction_to_aidx ctx_default d_C_C add_edge_1_0 = Ok (3, 0, 0)%Z
  ∧ aidx_to_GraphAction ctx_default d_C_C (3, 0, 0)%Z = Ok (Some add_edge_0_1)
  ∧ add_edge_0_1 ≠ add_edge_1_0.
Proof.
  split; [reflexivity|]. split; [exact wf_g_C_C|]. split; [reflexivity|].
  split; [apply legal_AddEdge; [compute_done | compute_done | done | reflexivity]|].
  split; [reflexivity|]. split; [reflexivity | discriminate].
Qed.

(** ** The row of SetEdgeAttr *)

(** C6: for SetEdgeAttr the row counts undirected edges. Every edge of the
    graph fills two adjacent columns of [edge_index], one per direction;
    the encoder takes the first column [p] that holds the pair of the
    action and answers the row [p div 2]; the decoder reads [edge_index] at
    column [2 * row], which holds the edge number [row] of the graph, and
    that edge is the pair of the action in one orientation or the other. *)
Theorem SetEdgeAttr_row (atoms : list string) (n : Z) (ctx : Ctx)
    (g : nx.Graph) (d : Data) (s t : Z) (k : string) (v : pyval) :
  init atoms n = Ok ctx →
  wf_graph g →
  graph_to_Data ctx g = Ok d →
  nx.has_edge g s t = true →
  (k, v) ∈ bond_attr_logit_map ctx →
  edge_index d = flat_map both_ways (nx.edges g)
  ∧ (∀ row col,
       aidx_to_GraphAction ctx d (4, row, col)%Z
       = '(a, b) ← tensor_col (edge_index d) (row * 2);
         '(attr, val) ← py_get (bond_attr_logit_map ctx) col;
         Ok (Some (mkGraphAction SetEdgeAttr (Some a) (Some b) (Some val) (Some attr))))
  ∧ ∃ p col a b,
      find_from (λ e, bool_decide (e = (s, t))) 0 (edge_index d) = Some p
      ∧ GraphAction_to_aidx ctx d
          (mkGraphAction SetEdgeAttr (Some s) (Some t) (Some v) (Some k))
        = Ok (4, p `div` 2, col)%Z
      ∧ py_get (edge_index d) (p `div` 2 * 2) = Ok (a, b)
      ∧ nx.edges g !! Z.to_nat (p `div` 2) = Some (a, b)
      ∧ ((a, b) = (s, t) ∨ (a, b) = (t, s))
      ∧ aidx_to_GraphAction ctx d (4, p `div` 2, col)%Z
        = Ok (Some (mkGraphAction SetEdgeAttr (Some a) (Some b) (Some v) (Some k))).
Proof.
  intros [_ ->]%init_inv Hwf Hd Hst Hkv.
  pose proof (graph_to_Data_indices _ _ _ Hd) as [He Hne].
  pose proof (graph_to_Data_int64 _ _ _ Hd) as [Hie _].
  split; [exact He|]. split; [reflexivity|].
  assert (Hin : (s, t) ∈ nx.edges g ∨ (t, s) ∈ nx.edges g) by by apply edges_covers.
  assert (Hin' : (s, t) ∈ edge_index d ∨ (t, s) ∈ edge_index d).
  { left. rewrite He. by apply elem_of_both_ways. }
  destruct (int64_listed _ s t Hie Hin') as [Hs64 Ht64].
  destruct (roundtrip_SetEdgeAttr atoms n d (nx.edges g) s t k v He Hs64 Ht64 Hin Hkv)
    as (p & col & a & b & Hp & H1 & H2 & Hq & Hab).
  exists p, col, a, b. repeat (split; [done|]).
  split; [|done].
  destruct (find_from_Some _ _ _ Hp) as (Hpos & _).
  rewrite He. apply py_get_both_ways_even; [|done]. by apply Z.div_pos.
Qed.

Lemma SetEdgeAttr_row_witness :
  edge_index d_CCC = [(0, 1); (1, 0); (1, 2); (2, 1)]%Z
  ∧ GraphAction_to_aidx ctx_default d_CCC
      (mkGraphAction SetEdgeAttr (Some 2%Z) (Some 1%Z) (Some (VBond TRIPLE)) (Some "type"))
    = Ok (4, 1, 1)%Z
  ∧ aidx_to_GraphAction ctx_default d_CCC (4, 1, 1)%Z
    = Ok (Some (mkGraphAction SetEdgeAttr (Some 1%Z) (Some 2%Z) (Some (VBond TRIPLE)) (Some "type"))).
Proof.
  pose proof (SetEdgeAttr_row default_atoms 0 ctx_default g_CCC d_CCC 2 1
                "type" (VBond TRIPLE)) as H.
  destruct H as (He & _ & _).
  - reflexivity.
  - exact wf_g_CCC.
  - reflexivity.
  - reflexivity.
  - compute_done.
  - split; [exact He|]. split; reflexivity.
Defined.

(** ** Loops *)

Lemma for_each_inv {A S : Type} (P : S → Prop) (body : A → S → result S)
    (l : list A) (s0 s : S) :
  (∀ a s1 s2, a ∈ l → P s1 → body a s1 = Ok s2 → P s2) →
  P s0 → for_each l body s0 = Ok s → P s.
Proof.
  revert s0. induction l as [|a l IH]; intros s0 Hstep H0; simpl.
  - by intros [= <-].
  - intros (s1 & H1 & Hrest)%bind_Ok.
    apply (IH s1); [|by apply (Hstep a s0 s1); [left|..]|done].
    intros b t1 t2 Hb. apply Hstep. by right.
Qed.

Lemma for_each_total {A S : Type} (body : A → S → result S) (l : list A) (s0 : S) :
  (∀ a s1, a ∈ l → ∃ s2, body a s1 = Ok s2) →
  ∃ s, for_each l body s0 = Ok s.
Proof.
  revert s0. induction l as [|a l IH]; intros s0 Hstep; simpl; [eauto|].
  destruct (Hstep a s0) as [s1 H1]; [left|]. rewrite H1. simpl.
  apply IH. intros b t1 Hb. apply Hstep. by right.
Qed.

(** ** From a molecule to a graph *)

Lemma omits_defaults_empty (defaults : odict string pyval) :
  omits_defaults defaults ∅.
Proof. intros k v. by rewrite lookup_empty. Qed.

Lemma omits_defaults_union (defaults : odict string pyval)
    (a b : gmap string pyval) :
  omits_defaults defaults a → omits_defaults defaults b →
  omits_defaults defaults (a ∪ b).
Proof.
  intros Ha Hb k v [H|[_ H]]%lookup_union_Some_raw; [by apply Ha | by apply Hb].
Qed.

Lemma non_default_Ok (defaults : odict string pyval)
    (attrs : list (string * pyval)) (m : gmap string pyval) :
  non_default defaults attrs = Ok m →
  omits_defaults defaults m ∧ ∀ k v, m !! k = Some v → (k, v) ∈ attrs.
Proof.
  revert m. induction attrs as [|[attr val] attrs IH]; intros m; simpl.
  - intros [= <-]. split; [apply omits_defaults_empty|].
    intros k v. by rewrite lookup_empty.
  - intros (d & Hd%of_option_Ok & (rest & Hrest & [= <-])%bind_Ok)%bind_Ok.
    destruct (IH rest Hrest) as [Hom Hin].
    destruct (py_eq val d) eqn:Heq.
    + split; [done|]. intros k v Hk. right. by apply Hin.
    + split.
      * intros k v [[<- <-]|[_ Hk]]%lookup_insert_Some; [eauto | by apply Hom].
      * intros k v [[<- <-]|[_ Hk]]%lookup_insert_Some; [left | right; by apply Hin].
Qed.

Lemma non_default_total (defaults : odict string pyval)
    (attrs : list (string * pyval)) :
  (∀ k v, (k, v) ∈ attrs → is_Some (od_get k defaults)) →
  ∃ m, non_default defaults attrs = Ok m.
Proof.
  induction attrs as [|[attr val] attrs IH]; intros Hk; simpl; [eauto|].
  destruct (Hk attr val) as [d Hd]; [left|].
  destruct IH as [rest Hrest]; [intros k v ?; apply (Hk k v); by right|].
  unfold od_item. rewrite Hd. simpl. rewrite Hrest. simpl. eauto.
Qed.


Section od_all_facts.
Context {K V : Type} `{EqDecision K} (P : V → Prop).

Lemma od_all_nil : od_all P (@nil (K * V)).
Proof. by intros k v. Qed.

Lemma od_all_set (d : odict K V) (k : K) (v : V) :
  od_all P d → P v → od_all P (od_set k v d).
Proof.
  intros Hd Hv k' v'. rewrite od_get_set.
  destruct (decide (k = k')); [by intros [= <-] | apply Hd].
Qed.
End od_all_facts.

Lemma od_all_default_get {V : Type} (P : V → Prop)
    (adj : odict Z (odict Z V)) (u : Z) :
  od_all (od_all P) adj → od_all P (default [] (od_get u adj)).
Proof.
  intros Hadj. destruct (od_get u adj) as [nbrs|] eqn:Hu; simpl.
  - by apply (Hadj u).
  - apply od_all_nil.
Qed.

Section mol_to_graph_facts.
Variable self : Ctx.

Lemma omits_empty_graph : graph_omits_defaults self nx.empty.
Proof. split; apply od_all_nil. Qed.

Lemma omits_touch (n : Z) (g : nx.Graph) :
  graph_omits_defaults self g → graph_omits_defaults self (nx.touch n g).
Proof.
  intros [Hn Ha]. unfold nx.touch. destruct (od_get n (nx._node g)); [done|].
  split; simpl.
  - apply od_all_set; [done|]. rewrite delete_empty. apply omits_defaults_empty.
  - apply od_all_set; [done|]. apply od_all_nil.
Qed.

Lemma omits_add_node (n : Z) (kw : gmap string pyval) (g : nx.Graph) :
  omits_defaults (atom_attr_defaults self) (delete "v" kw) →
  graph_omits_defaults self g →
  graph_omits_defaults self (nx.add_node n kw g).
Proof.
  intros Hkw [Hn Ha]. unfold nx.add_node.
  destruct (od_get n (nx._node g)) as [old|] eqn:Hold; split; simpl.
  - apply od_all_set; [done|]. rewrite delete_union.
    apply omits_defaults_union; [done|]. by apply (Hn n).
  - done.
  - by apply od_all_set.
  - apply od_all_set; [done|]. apply od_all_nil.
Qed.

Lemma omits_add_edge (u v : Z) (kw : gmap string pyval) (g : nx.Graph) :
  omits_defaults (bond_attr_defaults self) kw →
  graph_omits_defaults self g →
  graph_omits_defaults self (nx.add_edge u v kw g).
Proof.
  intros Hkw Hg.
  destruct (omits_touch v _ (omits_touch u _ Hg)) as [Hn Ha].
  unfold nx.add_edge. set (g2 := nx.touch v (nx.touch u g)) in *.
  split; simpl; [done|].
  set (nu := default [] (od_get u (nx._adj g2))).
  assert (Hnu : od_all (omits_defaults (bond_attr_defaults self)) nu)
    by by apply od_all_default_get.
  set (dd := kw ∪ default ∅ (od_get v nu)).
  assert (Hdd : omits_defaults (bond_attr_defaults self) dd).
  { apply omits_defaults_union; [done|].
    destruct (od_get v nu) as [old|] eqn:Hv; simpl;
      [by apply (Hnu v) | apply omits_defaults_empty]. }
  set (adj3 := od_set u (od_set v dd nu) (nx._adj g2)).
  assert (H3 : od_all (od_all (omits_defaults (bond_attr_defaults self))) adj3).
  { apply od_all_set; [done|]. by apply od_all_set. }
  apply od_all_set; [done|]. apply od_all_set; [|done].
  by apply od_all_default_get.
Qed.

(** The nodes that exist keep their attributes when an edge is added. *)
Lemma node_add_edge (u v : Z) (kw : gmap string pyval) (g : nx.Graph)
    (i : Z) (ad : gmap string pyval) :
  od_get i (nx._node g) = Some ad →
  od_get i (nx._node (nx.add_edge u v kw g)) = Some ad.
Proof.
  assert (Ht : ∀ m h, od_get i (nx._node h) = Some ad →
                      od_get i (nx._node (nx.touch m h)) = Some ad).
  { intros m h Hi. unfold nx.touch.
    destruct (od_get m (nx._node h)) eqn:Hm; [done|]. simpl.
    rewrite od_get_set. destruct (decide (m = i)) as [->|]; [congruence | done]. }
  intros Hi. unfold nx.add_edge. simpl. by apply Ht, Ht.
Qed.

Lemma node_add_node_ne (n : Z) (kw : gmap string pyval) (g : nx.Graph) (i : Z) :
  n ≠ i →
  od_get i (nx._node (nx.add_node n kw g)) = od_get i (nx._node g).
Proof.
  intros Hne. unfold nx.add_node.
  destruct (od_get n (nx._node g)); simpl; by rewrite od_get_set_ne.
Qed.

Lemma node_add_node_eq (n : Z) (kw : gmap string pyval) (g : nx.Graph)
    (k : string) (v : pyval) :
  kw !! k = Some v →
  ∃ ad, od_get n (nx._node (nx.add_node n kw g)) = Some ad ∧ ad !! k = Some v.
Proof.
  intros Hk. unfold nx.add_node.
  destruct (od_get n (nx._node g)) as [old|]; simpl; rewrite od_get_set_eq.
  - exists (kw ∪ old). split; [done|]. by apply lookup_union_Some_l.
  - eauto.
Qed.
End mol_to_graph_facts.

Lemma omits_defaults_delete (defaults : odict string pyval)
    (m : gmap string pyval) (k : string) :
  omits_defaults defaults m → omits_defaults defaults (delete k m).
Proof. intros Hm k' v [_ H]%lookup_delete_Some. by apply Hm. Qed.

Lemma atom_node_Ok (self : Ctx) (a : Atom) (kw : gmap string pyval) :
  atom_node self a = Ok kw →
  kw !! "v" = Some (VStr (Symbol a))
  ∧ omits_defaults (atom_attr_defaults self) (delete "v" kw).
Proof.
  unfold atom_node. intros (m & [Hm _]%non_default_Ok & [= <-])%bind_Ok. split.
  - apply lookup_insert_eq.
  - rewrite delete_insert_eq. by apply omits_defaults_delete.
Qed.

Lemma atom_node_total (atoms : list string) (n : Z) (a : Atom) :
  atoms ≠ [] → ∃ kw, atom_node (tables atoms n) a = Ok kw.
Proof.
  intros Hne. unfold atom_node.
  destruct (non_default_total (atom_attr_defaults (tables atoms n))
    [ ("chi", VChi (ChiralTag a)); ("charge", VInt (FormalCharge a));
      ("expl_H", VInt (NumExplicitHs a)); ("no_impl", VBool (NoImplicit a)) ])
    as [m Hm].
  - intros k v Hk.
    repeat (apply elem_of_cons in Hk as [[= -> ->]|Hk]; [by eexists|]).
    by apply elem_of_nil in Hk.
  - rewrite Hm. simpl. eauto.
Qed.

Lemma bond_edge_total (atoms : list string) (n : Z) (b : Bond) :
  ∃ kw, bond_edge (tables atoms n) b = Ok kw.
Proof.
  unfold bond_edge. apply non_default_total. intros k v Hk.
  apply elem_of_cons in Hk as [[= -> ->]|Hk]; [by eexists|].
  by apply elem_of_nil in Hk.
Qed.

(** The loop over the atoms: atom number [j + i] of the molecule becomes
    node [j + i] and carries its symbol; nodes below [j] are left alone. *)
Lemma atoms_loop (self : Ctx) (l : list Atom) (j : Z) (g0 g : nx.Graph) :
  for_each (enumerate_from j l)
    (λ '(idx, a) g, kw ← atom_node self a; Ok (nx.add_node idx kw g)) g0 = Ok g →
  (∀ i a, l !! i = Some a →
     ∃ ad, od_get (j + Z.of_nat i)%Z (nx._node g) = Some ad
           ∧ ad !! "v" = Some (VStr (Symbol a)))
  ∧ (∀ m, (m < j)%Z → od_get m (nx._node g) = od_get m (nx._node g0)).
Proof.
  revert j g0. induction l as [|a l IH]; intros j g0; simpl.
  - intros [= <-]. split; [by intros i a ?|done].
  - intros (g1 & (kw & Hkw & [= <-])%bind_Ok & Hrest)%bind_Ok.
    destruct (IH _ _ Hrest) as [HA HB]. split.
    + intros [|i] b Hb; simpl in Hb.
      * injection Hb as <-. rewrite Z.add_0_r, HB by lia.
        apply node_add_node_eq. by apply (atom_node_Ok self).
      * destruct (HA i b Hb) as (ad & Had & Hv). exists ad. split; [|done].
        rewrite <- Had. f_equal. lia.
    + intros m Hm. rewrite HB by lia. apply node_add_node_ne. lia.
Qed.

(** ** Which attributes [mol_to_graph] stores *)

(** C7: for every molecule, [mol_to_graph] returns a
    graph in which the symbol of every atom is stored under ["v"], whatever
    the symbol is, and in which no node stores a chirality, charge,
    explicit-hydrogen count or no-implicit flag equal to the declared
    default of that attribute, and no edge stores a bond type equal to the
    declared default. *)
Theorem mol_to_graph_omits_defaults (atoms : list string) (n : Z) (ctx : Ctx)
    (mol : Mol) :
  init atoms n = Ok ctx →
  ∃ g, mol_to_graph ctx mol = Ok g
       ∧ graph_stores_symbols mol g
       ∧ graph_omits_defaults ctx g.
Proof.
  intros [Hne ->]%init_inv. unfold mol_to_graph.
  set (body1 := λ '(idx, a) g,
    kw ← atom_node (tables atoms n) a; Ok (nx.add_node idx kw g)).
  set (body2 := λ b g,
    kw ← bond_edge (tables atoms n) b;
    Ok (nx.add_edge (BeginAtomIdx b) (EndAtomIdx b) kw g)).
  destruct (for_each_total body1 (enumerate (GetAtoms mol)) nx.empty) as [g1 Hg1].
  { intros [idx a] s1 _. destruct (atom_node_total atoms n a Hne) as [kw Hkw].
    unfold body1. rewrite Hkw. simpl. eauto. }
  destruct (for_each_total body2 (GetBonds mol) g1) as [g Hg].
  { intros b s1 _. destruct (bond_edge_total atoms n b) as [kw Hkw].
    unfold body2. rewrite Hkw. simpl. eauto. }
  exists g. rewrite Hg1. simpl. split; [exact Hg|]. split.
  - intros i a Hi.
    destruct (atoms_loop _ _ _ _ _ Hg1) as [HA _].
    destruct (HA i a Hi) as (ad & Had & Hv). rewrite Z.add_0_l in Had.
    exists ad. split; [|done].
    apply (for_each_inv (λ h, od_get (Z.of_nat i) (nx._node h) = Some ad)
             body2 (GetBonds mol) g1 g); [|done|done].
    intros b s1 s2 _ Hs1 (kw & _ & [= <-])%bind_Ok. by apply node_add_edge.
  - apply (for_each_inv (graph_omits_defaults (tables atoms n))
             body2 (GetBonds mol) g1 g); [| |done].
    + intros b s1 s2 _ Hs1 (kw & [Hkw _]%non_default_Ok & [= <-])%bind_Ok.
      by apply omits_add_edge.
    + apply (for_each_inv (graph_omits_defaults (tables atoms n))
               body1 (enumerate (GetAtoms mol)) nx.empty g1); [| |done].
      * intros [idx a] s1 s2 _ Hs1 (kw & [_ Hkw]%atom_node_Ok & [= <-])%bind_Ok.
        by apply omits_add_node.
      * apply omits_empty_graph.
Qed.

Lemma mol_to_graph_omits_defaults_witness :
  ∃ g, mol_to_graph ctx_default iminium = Ok g
       ∧ graph_stores_symbols iminium g
       ∧ graph_omits_defaults ctx_default g.
Proof.
  apply (mol_to_graph_omits_defaults default_atoms 0). reflexivity.
Defined.

(** The symbol is stored also when it is the declared default of ["v"]:
    the first atom of molecular hydrogen becomes a node that stores
    ["v"] = "H", the first symbol of the default vocabulary. *)
Example symbol_stored_at_default :
  ∃ g ad,
    mol_to_graph ctx_default hydrogen = Ok g
    ∧ od_get 0%Z (nx._node g) = Some ad
    ∧ ad !! "v" = Some (VStr "H")
    ∧ od_get "v" (atom_attr_defaults ctx_default) = Some (VStr "H")
    ∧ ¬ omits_defaults (atom_attr_defaults ctx_default) ad.
Proof.
  eexists _, _. split; [reflexivity|]. split; [reflexivity|].
  split; [reflexivity|]. split; [reflexivity|].
  intros H. destruct (H "v" (VStr "H") eq_refl) as (d & Hd & Hne).
  injection Hd as <-. discriminate.
Qed.

(** ** Writing ones into a feature matrix *)

Lemma keeps_ones_refl (m : list (list Z)) : keeps_ones m m.
Proof. by intros r c. Qed.

Lemma keeps_ones_trans (m1 m2 m3 : list (list Z)) :
  keeps_ones m1 m2 → keeps_ones m2 m3 → keeps_ones m1 m3.
Proof. intros H12 H23 r c Hr Hc H. by apply H23, H12. Qed.

Lemma py_set_nonneg {A : Type} (l l' : list A) (i : Z) (a : A) :
  (0 ≤ i)%Z → py_set l i a = Ok l' →
  (Z.to_nat i < length l)%nat ∧ l' = <[Z.to_nat i := a]> l.
Proof.
  intros Hi. unfold py_set, len. rewrite (proj2 (Z.leb_le 0 i) Hi).
  destruct (Z.ltb_spec i (Z.of_nat (length l))); [|done].
  intros [= <-]. split; [lia | done].
Qed.

Lemma set2_one (m m' : list (list Z)) (i j : Z) :
  (0 ≤ i)%Z → (0 ≤ j)%Z → set2 m i j 1 = Ok m' →
  entry m' i j = Some 1%Z ∧ keeps_ones m m'.
Proof.
  intros Hi Hj. unfold set2. rewrite py_get_nonneg by done.
  intros (row & Hrow%of_option_Ok & (row' & Hrow' & Hm')%bind_Ok)%bind_Ok.
  apply py_set_nonneg in Hrow' as [Hjlt ->]; [|done].
  apply py_set_nonneg in Hm' as [Hilt ->]; [|done].
  split.
  - unfold entry. rewrite list_lookup_insert_eq by done. simpl.
    by rewrite list_lookup_insert_eq.
  - intros r c Hr Hc. unfold entry.
    destruct (decide (Z.to_nat i = Z.to_nat r)) as [Heq|Hne].
    + rewrite <- Heq, Hrow, list_lookup_insert_eq by done. simpl.
      destruct (decide (Z.to_nat j = Z.to_nat c)) as [<-|Hnc].
      * by rewrite list_lookup_insert_eq.
      * by rewrite list_lookup_insert_ne.
    + by rewrite list_lookup_insert_ne.
Qed.

Lemma rows_loop (rows : list Z) (j : Z) (m m' : list (list Z)) :
  Forall (λ r, 0 ≤ r)%Z rows → (0 ≤ j)%Z →
  for_each rows (λ i m, set2 m i j 1) m = Ok m' →
  keeps_ones m m' ∧ ∀ r, r ∈ rows → entry m' r j = Some 1%Z.
Proof.
  intros Hrows Hj. revert m. induction Hrows as [|r rows Hr Hrows IH]; intros m; simpl.
  - intros [= <-]. split; [apply keeps_ones_refl|]. by intros r ?%elem_of_nil.
  - intros (m1 & [H1 Hk1]%set2_one & Hrest)%bind_Ok; [|done..].
    destruct (IH m1 Hrest) as [Hk Hall]. split.
    + by apply (keeps_ones_trans _ m1).
    + intros r' [->|Hr']%elem_of_cons; [by apply Hk | by apply Hall].
Qed.

Lemma one_hot_spec (values : odict string (list pyval)) (attrs : list string)
    (slices : list Z) (ad : gmap string pyval) (rows : list Z)
    (m m' : list (list Z)) :
  Forall (λ sl, 0 ≤ sl)%Z slices → Forall (λ r, 0 ≤ r)%Z rows →
  one_hot values attrs slices ad rows m = Ok m' →
  keeps_ones m m'
  ∧ ∀ k sl r, (k, sl) ∈ zip attrs slices → ad !! k = None → r ∈ rows →
      entry m' r sl = Some 1%Z.
Proof.
  intros Hsl Hrows. unfold one_hot.
  revert attrs m. induction Hsl as [|sl slices Hsl0 Hsl IH]; intros attrs m.
  - destruct attrs; simpl; intros [= <-];
      (split; [apply keeps_ones_refl | by intros k sl r ?%elem_of_nil]).
  - destruct attrs as [|k attrs]; simpl.
    { intros [= <-]. split; [apply keeps_ones_refl | by intros ? ? ? ?%elem_of_nil]. }
    intros (m1 & (idx & Hidx & Hloop)%bind_Ok & Hrest)%bind_Ok.
    assert (Hidx0 : (0 ≤ idx)%Z).
    { destruct (ad !! k); [|by injection Hidx as <-].
      apply bind_Ok in Hidx as (vs & _ & Hi). by apply index_Ok in Hi as [? _]. }
    apply rows_loop in Hloop as [Hk1 Hone]; [|done|lia].
    destruct (IH attrs m1 Hrest) as [Hk Hall]. split.
    + by apply (keeps_ones_trans _ m1).
    + intros k' sl' r [[= -> ->]|Hin]%elem_of_cons Hnone Hr.
      * rewrite Hnone in Hidx. injection Hidx as <-.
        rewrite Z.add_0_r in Hone. apply Hk; [| done |by apply Hone].
        by apply (proj1 (Forall_forall _ _) Hrows).
      * by apply (Hall k').
Qed.

(** A loop over [enumerate(l)] whose body only writes ones: what the pass
    for element [i] establishes still holds at the end. *)
Section enumerate_loop.
Context {A : Type}.
Variable body : Z * A → list (list Z) → result (list (list Z)).
Variable Post : Z → A → list (list Z) → Prop.
Hypothesis body_spec : ∀ idx a m m',
  (0 ≤ idx)%Z → body (idx, a) m = Ok m' → keeps_ones m m' ∧ Post idx a m'.
Hypothesis Post_mono : ∀ idx a m m',
  (0 ≤ idx)%Z → Post idx a m → keeps_ones m m' → Post idx a m'.

Lemma enumerate_loop (l : list A) (j : Z) (m0 m : list (list Z)) :
  (0 ≤ j)%Z →
  for_each (enumerate_from j l) body m0 = Ok m →
  keeps_ones m0 m ∧ ∀ i a, l !! i = Some a → Post (j + Z.of_nat i) a m.
Proof.
  revert j m0. induction l as [|a l IH]; intros j m0 Hj; simpl.
  - intros [= <-]. split; [apply keeps_ones_refl | by intros i a ?].
  - intros (m1 & [Hk1 Hp1]%body_spec & Hrest)%bind_Ok; [|done].
    destruct (IH (j + 1)%Z m1) as [Hk Hall]; [lia|done|]. split.
    + by apply (keeps_ones_trans _ m1).
    + intros [|i] b Hb; simpl in Hb.
      * injection Hb as <-. rewrite Z.add_0_r. by apply (Post_mono j a m1).
      * replace (j + Z.of_nat (S i))%Z with (j + 1 + Z.of_nat i)%Z by lia.
        by apply Hall.
Qed.
End enumerate_loop.

(** ** The convention on defaults *)

Lemma features_keep_default_tables (atoms : list string) (n : Z) :
  features_keep_default (tables atoms n).
Proof.
  intros g d. unfold graph_to_Data.
  intros (x0 & _ & (x1 & Hx & (ea & Hea & (ei & _ & (nei & _ & [= <-])%bind_Ok)%bind_Ok)%bind_Ok)%bind_Ok)%bind_Ok.
  simpl. split.
  - intros i nd ad k sl Hi Had Hk Hnone.
    eapply (enumerate_loop _
      (λ idx nd m, ∀ ad k sl, nx.node_data g nd = Ok ad →
         (k, sl) ∈ zip (atom_attrs (tables atoms n)) (atom_attr_slice (tables atoms n)) →
         ad !! k = None → entry m idx sl = Some 1%Z)) in Hx as [_ Hall].
    + by apply (Hall i nd Hi ad k sl).
    + intros idx a m m' Hidx (ad' & Had' & Hoh)%bind_Ok.
      apply one_hot_spec in Hoh as [Hkeep Hone].
      * split; [done|]. intros ad'' k' sl' Had'' Hk' Hnone'.
        rewrite Had' in Had''. injection Had'' as <-.
        apply (Hone k'); [done | done | left].
      * simpl. repeat constructor; unfold len; lia.
      * by repeat constructor.
    + intros idx a m m' Hidx Hp Hkeep ad' k' sl' Had' Hk' Hnone'.
      apply Hkeep; [done| |by apply (Hp ad' k')].
      simpl in Hk'.
      repeat (apply elem_of_cons in Hk' as [[= -> ->]|Hk']; [lia|]).
      by apply elem_of_nil in Hk'.
    + done.
  - intros i e ad k sl Hi Had Hk Hnone.
    eapply (enumerate_loop _
      (λ idx e m, ∀ ad k sl, nx.edge_data g e = Ok ad →
         (k, sl) ∈ zip (bond_attrs (tables atoms n)) (bond_attr_slice (tables atoms n)) →
         ad !! k = None →
         entry m (idx * 2) sl = Some 1%Z ∧ entry m (idx * 2 + 1) sl = Some 1%Z))
      in Hea as [_ Hall].
    + by apply (Hall i e Hi ad k sl).
    + intros idx a m m' Hidx (ad' & Had' & Hoh)%bind_Ok.
      apply one_hot_spec in Hoh as [Hkeep Hone].
      * split; [done|]. intros ad'' k' sl' Had'' Hk' Hnone'.
        rewrite Had' in Had''. injection Had'' as <-.
        split; apply (Hone k'); try done; [left | right; left].
      * simpl. by repeat constructor.
      * repeat constructor; lia.
    + intros idx a m m' Hidx Hp Hkeep ad' k' sl' Had' Hk' Hnone'.
      assert (0 ≤ sl')%Z.
      { simpl in Hk'.
        repeat (apply elem_of_cons in Hk' as [[= -> ->]|Hk']; [lia|]).
        by apply elem_of_nil in Hk'. }
      destruct (Hp ad' k' sl' Had' Hk' Hnone') as [H1 H2].
      split; apply Hkeep; try done; lia.
    + done.
Qed.

Lemma default_is_first_atoms (atoms : list string) (n : Z) :
  atoms ≠ [] →
  default_is_first (atom_attr_values (tables atoms n))
                   (atom_attr_defaults (tables atoms n)).
Proof.
  intros Hne k vs. destruct atoms as [|a l]; [done|]. simpl.
  repeat (case_decide; [intros [= <-]; subst k; by eexists|]). done.
Qed.

Lemma default_is_first_bonds (atoms : list string) (n : Z) :
  default_is_first (bond_attr_values (tables atoms n))
                   (bond_attr_defaults (tables atoms n)).
Proof.
  intros k vs. simpl.
  repeat (case_decide; [intros [= <-]; subst k; by eexists|]). done.
Qed.

Lemma logits_skip_default_atoms (atoms : list string) (n : Z) :
  logits_skip_default (atom_attr_values (tables atoms n))
    (atom_attr_logit_slice (tables atoms n)) (atom_attr_logit_map (tables atoms n)).
Proof.
  intros k v Hkv. simpl in Hkv.
  repeat (apply elem_of_cons in Hkv as [[= -> ->]|Hkv];
    [eexists _, _, _; repeat (split; [reflexivity || (simpl; lia)|]); reflexivity|]).
  by apply elem_of_nil in Hkv.
Qed.

Lemma logits_skip_default_bonds (atoms : list string) (n : Z) :
  logits_skip_default (bond_attr_values (tables atoms n))
    (bond_attr_logit_slice (tables atoms n)) (bond_attr_logit_map (tables atoms n)).
Proof.
  intros k v Hkv. simpl in Hkv.
  repeat (apply elem_of_cons in Hkv as [[= -> ->]|Hkv];
    [eexists _, _, _; repeat (split; [reflexivity || (simpl; lia)|]); reflexivity|]).
  by apply elem_of_nil in Hkv.
Qed.

Lemma encoder_subtracts_one_tables (atoms : list string) (n : Z) :
  encoder_subtracts_one (tables atoms n).
Proof.
  split.
  - intros g src tgt k v vs i sl Hvs Hi Hsl.
    unfold GraphAction_to_aidx, logit_col, od_item.
    cbn [action source target value attr of_option mbind result_bind].
    rewrite !decide_False, decide_True by done.
    cbn [of_option mbind result_bind]. rewrite Hvs. cbn [of_option mbind result_bind].
    rewrite Hi. cbn [mbind result_bind]. rewrite Hsl. reflexivity.
  - intros g s t k v vs i sl p Hvs Hi Hsl Hs Ht Hp.
    unfold GraphAction_to_aidx, logit_col, od_item.
    cbn [action source target value attr].
    rewrite !decide_False, decide_True by done.
    rewrite pair_tensor_Some by done. cbn [mbind result_bind fst snd].
    rewrite Hp. cbn [of_option mbind result_bind]. rewrite Hvs.
    cbn [of_option mbind result_bind]. rewrite Hi. cbn [mbind result_bind].
    rewrite Hsl. reflexivity.
Qed.

Lemma encoder_skips_default_tables (atoms : list string) (n : Z) :
  encoder_skips_default (tables atoms n).
Proof.
  destruct (encoder_subtracts_one_tables atoms n) as [Hnode Hedge]. split.
  - intros g src k v Hkv.
    destruct (logits_skip_default_atoms atoms n k v Hkv)
      as (vs & i & sl & Hvs & Hi & H1 & Hsl & _ & Hget).
    exists vs, i, sl. repeat (split; [done|]). split; [|done].
    by apply (Hnode g src None k v vs i sl).
  - intros g s t k v p Hkv Hs Ht Hp.
    destruct (logits_skip_default_bonds atoms n k v Hkv)
      as (vs & i & sl & Hvs & Hi & H1 & Hsl & _ & Hget).
    exists vs, i, sl. repeat (split; [done|]). split; [|done].
    by apply (Hedge g s t k v vs i sl p).
Qed.

(** C5: in the tables of a context, the default of every attribute is the
    first entry of its value list; every column of the two logit maps
    stands for a value at a place [i ≥ 1] of its list; the encoder
    [GraphAction_to_aidx] answers for SetNodeAttr and for SetEdgeAttr the
    column [i - 1] plus the logit slice of the attribute, [i] the place of
    the value in the list of its attribute, and on a choice of a logit map
    that column is the one where the map holds the choice; the input
    features built by [graph_to_Data] have a one at the first position of
    the slice of an attribute that a node or an edge does not store, the
    position of the default. *)
Theorem default_convention (atoms : list string) (n : Z) (ctx : Ctx) :
  init atoms n = Ok ctx →
  default_is_first (atom_attr_values ctx) (atom_attr_defaults ctx)
  ∧ default_is_first (bond_attr_values ctx) (bond_attr_defaults ctx)
  ∧ logits_skip_default (atom_attr_values ctx) (atom_attr_logit_slice ctx)
      (atom_attr_logit_map ctx)
  ∧ logits_skip_default (bond_attr_values ctx) (bond_attr_logit_slice ctx)
      (bond_attr_logit_map ctx)
  ∧ features_keep_default ctx
  ∧ encoder_subtracts_one ctx
  ∧ encoder_skips_default ctx.
Proof.
  intros [Hne ->]%init_inv.
  split; [by apply default_is_first_atoms|].
  split; [apply default_is_first_bonds|].
  split; [apply logits_skip_default_atoms|].
  split; [apply logits_skip_default_bonds|].
  split; [apply features_keep_default_tables|].
  split; [apply encoder_subtracts_one_tables | apply encoder_skips_default_tables].
Qed.

Lemma default_convention_witness :
  default_is_first (atom_attr_values ctx_default) (atom_attr_defaults ctx_default)
  ∧ default_is_first (bond_attr_values ctx_default) (bond_attr_defaults ctx_default)
  ∧ logits_skip_default (atom_attr_values ctx_default)
      (atom_attr_logit_slice ctx_default) (atom_attr_logit_map ctx_default)
  ∧ logits_skip_default (bond_attr_values ctx_default)
      (bond_attr_logit_slice ctx_default) (bond_attr_logit_map ctx_default)
  ∧ features_keep_default ctx_default
  ∧ encoder_subtracts_one ctx_default
  ∧ encoder_skips_default ctx_default.
Proof.
  exact (default_convention default_atoms 0 ctx_default eq_refl).
Defined.

(** The encoder on the graph of three carbon atoms in a chain: a charge of
    -1, third in the list of charges, gets column 2 - 1 + 0, and a triple
    bond, third in the list of bond types, gets column 2 - 1 + 0 on the
    edge number 1. *)
Example encoder_columns :
  GraphAction_to_aidx ctx_default d_CCC
    (mkGraphAction SetNodeAttr (Some 1%Z) None (Some (VInt (-1))) (Some "charge"))
  = Ok (2, 1, 1)%Z
  ∧ GraphAction_to_aidx ctx_default d_CCC
      (mkGraphAction SetEdgeAttr (Some 2%Z) (Some 1%Z) (Some (VBond TRIPLE)) (Some "type"))
    = Ok (4, 1, 1)%Z.
Proof. split; reflexivity. Qed.

(** ** From a graph back to a molecule *)

Section graph_to_mol_facts.
Variable Chem_Atom : pyval → result Atom.
Variable SanitizeMol : Mol → result Mol.
Variable MolToSmiles : Mol → result string.
Variable MolFromSmiles : string → result (option Mol).

(** C9: [is_sane] always answers with a boolean. The answer is [true]
    exactly when [graph_to_mol] returns a molecule, writing that molecule
    as a canonical string succeeds and reading the string back gives a
    molecule; an exception raised by the reconstruction, by the writer or
    by the reader, and a reader that gives [None], all end in [false]. *)
Theorem is_sane_spec (g : nx.Graph) :
  (is_sane Chem_Atom SanitizeMol MolToSmiles MolFromSmiles g = true
   ↔ ∃ mol s m,
       graph_to_mol Chem_Atom SanitizeMol g = Ok mol
       ∧ MolToSmiles mol = Ok s
       ∧ MolFromSmiles s = Ok (Some m))
  ∧ (raises (graph_to_mol Chem_Atom SanitizeMol g) →
     is_sane Chem_Atom SanitizeMol MolToSmiles MolFromSmiles g = false)
  ∧ (∀ mol,
       graph_to_mol Chem_Atom SanitizeMol g = Ok mol →
       raises (MolToSmiles mol) →
       is_sane Chem_Atom SanitizeMol MolToSmiles MolFromSmiles g = false)
  ∧ (∀ mol s,
       graph_to_mol Chem_Atom SanitizeMol g = Ok mol →
       MolToSmiles mol = Ok s →
       raises (MolFromSmiles s) ∨ MolFromSmiles s = Ok None →
       is_sane Chem_Atom SanitizeMol MolToSmiles MolFromSmiles g = false).
Proof.
  unfold is_sane.
  destruct (graph_to_mol Chem_Atom SanitizeMol g) as [mol|e] eqn:Hmol; simpl.
  2:{ split; [split; [done | by intros (? & ? & ? & ? & _)]|]. repeat split; done. }
  destruct (MolToSmiles mol) as [s|e] eqn:Hs; simpl.
  2:{ split; [split; [done|]|].
      - intros (? & ? & ? & [= <-] & ? & _). congruence.
      - repeat split; done. }
  destruct (MolFromSmiles s) as [[m|]|e] eqn:Hm; simpl.
  - split; [split; [eauto 6 | done]|]. split; [done|]. split.
    + intros ? [= <-]. by rewrite Hs.
    + intros ? ? [= <-] Hs'. rewrite Hs in Hs'. injection Hs' as <-.
      rewrite Hm. simpl. by intros [?|?].
  - split; [split; [done|]|].
    + intros (? & ? & ? & [= <-] & Hs' & Hm'). congruence.
    + repeat split; done.
  - split; [split; [done|]|].
    + intros (? & ? & ? & [= <-] & Hs' & Hm'). congruence.
    + repeat split; done.
Qed.

(** What [mol_to_graph] left out of a node or an edge is put back when the
    atom or the bond is built again: the atom constructor starts from the
    defaults, and a missing bond type reads as a single bond. *)
Lemma as_int_VInt (z : Z) : c_int z → as_int (VInt z) = Ok z.
Proof.
  unfold c_int, as_int. intros Hz. cbn [as_number].
  destruct (Z.leb_spec (-2147483648) z); [|lia].
  by destruct (Z.ltb_spec z 2147483648); [|lia].
Qed.

Lemma as_unsigned_VInt (z : Z) : c_unsigned z → as_unsigned (VInt z) = Ok z.
Proof.
  unfold c_unsigned, as_unsigned. intros Hz. cbn [as_number].
  destruct (Z.leb_spec 0 z); [|lia].
  by destruct (Z.ltb_spec z 4294967296); [|lia].
Qed.

Lemma build_atom_atom_node (atoms : list string) (n : Z) (a : Atom)
    (kw : gmap string pyval) :
  Chem_Atom (VStr (Symbol a)) = Ok (mkAtom (Symbol a) CHI_UNSPECIFIED 0 0 false) →
  c_int (FormalCharge a) → c_unsigned (NumExplicitHs a) →
  atom_node (tables atoms n) a = Ok kw →
  build_atom Chem_Atom kw = Ok a.
Proof.
  intros Hatom Hc He. destruct a as [sym chi charge expl noimpl].
  cbn [Symbol FormalCharge NumExplicitHs] in Hatom, Hc, He.
  apply as_int_VInt in Hc. apply as_unsigned_VInt in He.
  unfold atom_node, build_atom, set_if. simpl.
  destruct chi, noimpl;
    destruct (Z.eqb_spec charge 0) as [->|Hcharge];
    destruct (Z.eqb_spec expl 0) as [->|Hexpl];
    simpl; intros [= <-];
    repeat (repeat first [rewrite lookup_insert_eq | rewrite lookup_insert_ne by done
                         | rewrite lookup_empty];
            cbn -[as_int as_unsigned lookup insert];
            rewrite ?Hatom, ?Hc, ?He);
    reflexivity.
Qed.

Lemma as_bond_bond_edge (atoms : list string) (n : Z) (b : Bond)
    (kw : gmap string pyval) :
  bond_edge (tables atoms n) b = Ok kw →
  as_bond (default (VBond SINGLE) (kw !! "type")) = Ok (GetBondType b).
Proof.
  unfold bond_edge. simpl.
  destruct (GetBondType b); simpl; by intros [= <-].
Qed.
End graph_to_mol_facts.

Example is_sane_benzene :
  is_sane small_Atom small_SanitizeMol small_MolToSmiles small_MolFromSmiles
          g_benzene = true.
Proof. reflexivity. Qed.

Example is_sane_pentavalent_carbon :
  raises (graph_to_mol small_Atom small_SanitizeMol g_CH5)
  ∧ is_sane small_Atom small_SanitizeMol small_MolToSmiles small_MolFromSmiles
            g_CH5 = false.
Proof. split; [exact I | reflexivity]. Qed.

Lemma is_sane_spec_witness :
  raises (graph_to_mol small_Atom small_SanitizeMol g_CH5)
  ∧ is_sane small_Atom small_SanitizeMol small_MolToSmiles small_MolFromSmiles
            g_CH5 = false.
Proof.
  split; [exact I|].
  apply (is_sane_spec small_Atom small_SanitizeMol small_MolToSmiles
           small_MolFromSmiles g_CH5).
  exact I.
Defined.

(** * Further properties *)

(** ** The constructor and its sizes *)

(** X1. The constructor raises IndexError for the empty vocabulary and for no
    other; for a vocabulary of [n ≥ 1] symbols a node has [n] choices for a
    new atom, [n + 13] input features, and 8 attribute logits whatever the
    vocabulary; an edge has 4 input features and 3 attribute logits. *)
Theorem init_outcome (atoms : list string) (n : Z) :
  (atoms = [] → init atoms n = Raise IndexError)
  ∧ (atoms ≠ [] →
     ∃ ctx, init atoms n = Ok ctx
            ∧ num_new_node_values ctx = len atoms
            ∧ num_node_dim ctx = (len atoms + 13)%Z
            ∧ num_node_attr_logits ctx = len (atom_attr_logit_map ctx)
            ∧ num_node_attr_logits ctx = 8%Z
            ∧ num_edge_dim ctx = 4%Z
            ∧ num_edge_attr_logits ctx = len (bond_attr_logit_map ctx)
            ∧ num_edge_attr_logits ctx = 3%Z
            ∧ num_cond_dim ctx = n).
Proof.
  split; [by intros ->|]. intros Hne.
  destruct atoms as [|a l]; [done|]. exists (tables (a :: l) n).
  split; [apply init_cons|]. cbn [tables num_new_node_values num_node_dim
    num_node_attr_logits num_edge_dim num_edge_attr_logits num_cond_dim
    atom_attr_logit_map bond_attr_logit_map].
  repeat split. unfold len. rewrite length_map. lia.
Qed.

Lemma init_outcome_witness :
  ∃ ctx, init test_atoms 32 = Ok ctx
         ∧ num_new_node_values ctx = 5%Z ∧ num_node_dim ctx = 18%Z
         ∧ num_node_attr_logits ctx = 8%Z ∧ num_cond_dim ctx = 32%Z.
Proof.
  destruct (proj2 (init_outcome test_atoms 32)) as (ctx & H & H1 & H2 & _ & H3 & _ & _ & _ & H4).
  - discriminate.
  - exists ctx. repeat split; assumption.
Defined.

(** X2. The input features of a node are the blocks of the five atom
    attributes in the sorted order of their names, which is charge, chi,
    expl_H, no_impl, v. The list of slices has one entry more than there are
    attributes and starts at 0; the block of attribute number [i] starts at
    [slices[i]], has one position per value of the attribute and ends at
    [slices[i + 1]]; the last block ends at [atom_attr_size], and one more
    position follows it. The input features of an edge are the block of the
    bond type, which ends at [bond_attr_size]. *)
Theorem slices_blocks (atoms : list string) (n : Z) (ctx : Ctx) :
  init atoms n = Ok ctx →
  atom_attrs ctx = sorted (od_keys (atom_attr_values ctx))
  ∧ atom_attrs ctx = ["charge"; "chi"; "expl_H"; "no_impl"; "v"]
  ∧ atom_attr_slice ctx = [0; 3; 6; 10; 12; 12 + len atoms]%Z
  ∧ slices_delimit (atom_attr_values ctx) (atom_attrs ctx) (atom_attr_slice ctx)
                   (atom_attr_size ctx)
  ∧ length (atom_attr_slice ctx) = S (length (atom_attrs ctx))
  ∧ atom_attr_slice ctx !! 0%nat = Some 0%Z
  ∧ atom_attr_slice ctx !! length (atom_attrs ctx) = Some (atom_attr_size ctx)
  ∧ num_node_dim ctx = (atom_attr_size ctx + 1)%Z
  ∧ bond_attrs ctx = sorted (od_keys (bond_attr_values ctx))
  ∧ bond_attrs ctx = ["type"]
  ∧ bond_attr_slice ctx = [0; 4]%Z
  ∧ slices_delimit (bond_attr_values ctx) (bond_attrs ctx) (bond_attr_slice ctx)
                   (bond_attr_size ctx)
  ∧ bond_attr_slice ctx !! length (bond_attrs ctx) = Some (bond_attr_size ctx)
  ∧ num_edge_dim ctx = bond_attr_size ctx.
Proof.
  intros [_ ->]%init_inv.
  assert (Hlen : len (map VStr atoms) = len atoms)
    by (unfold len; by rewrite length_map).
  assert (Hsize : atom_attr_size (tables atoms n) = (12 + len atoms)%Z).
  { cbn [tables atom_attr_size]. rewrite <- Hlen. unfold len. simpl. lia. }
  split; [reflexivity|]. split; [reflexivity|].
  split; [cbn [tables atom_attr_slice]; by rewrite <- Hlen|].
  split; [|split; [reflexivity|]; split; [reflexivity|]; split].
  - intros i k Hi. cbn [tables atom_attrs] in Hi.
    do 5 (destruct i as [|i]; [injection Hi as <-; eexists _, _;
      repeat (split; [reflexivity|]); cbn [tables atom_attr_size];
      unfold len; simpl; lia|]).
    done.
  - rewrite Hsize. cbn [tables atom_attr_slice atom_attrs length lookup list_lookup].
    by rewrite <- Hlen.
  - split; [reflexivity|]. do 3 (split; [reflexivity|]).
    split; [|split; reflexivity].
    intros i k Hi. cbn [tables bond_attrs] in Hi.
    destruct i as [|i]; [injection Hi as <-; eexists _, _;
      repeat (split; [reflexivity|]); done|].
    done.
Qed.

Lemma slices_blocks_witness :
  slices_delimit (atom_attr_values ctx_test) (atom_attrs ctx_test)
                 (atom_attr_slice ctx_test) (atom_attr_size ctx_test)
  ∧ atom_attr_slice ctx_test = [0; 3; 6; 10; 12; 17]%Z.
Proof.
  destruct (slices_blocks test_atoms 32 ctx_test eq_refl)
    as (_ & _ & Hs & Hd & _).
  split; [exact Hd | exact Hs].
Defined.

(** ** What the decoder accepts *)

Lemma py_get_cases {A : Type} (l : list A) (i : Z) :
  (∃ a, py_get l i = Ok a ∧ in_range l i)
  ∨ (py_get l i = Raise IndexError ∧ ¬ in_range l i).
Proof.
  unfold in_range.
  destruct (decide (i < - len l ∨ len l ≤ i)%Z) as [Hout|Hin].
  - right. split; [by apply py_get_out_of_range | lia].
  - left. unfold py_get, len in *.
    destruct (Z.leb_spec 0 i).
    + destruct (lookup_lt_is_Some_2 l (Z.to_nat i)) as [a Ha]; [lia|].
      rewrite Ha. exists a. split; [done | lia].
    + destruct (Z.leb_spec (- Z.of_nat (length l)) i); [|lia].
      destruct (lookup_lt_is_Some_2 l (Z.to_nat (Z.of_nat (length l) + i)))
        as [a Ha]; [lia|].
      rewrite Ha. exists a. split; [done | lia].
Qed.

Lemma type_in_range (ctx : Ctx) (t : Z) :
  action_type_order ctx = [Stop; AddNode; SetNodeAttr; AddEdge; SetEdgeAttr] →
  in_range (action_type_order ctx) t →
  (t = -5 ∨ t = -4 ∨ t = -3 ∨ t = -2 ∨ t = -1 ∨ t = 0 ∨ t = 1 ∨ t = 2
   ∨ t = 3 ∨ t = 4)%Z.
Proof. intros ->. unfold in_range. vm_compute len. lia. Qed.

Lemma tensor_col_cases (l : list (Z * Z)) (i : Z) :
  (∃ c, tensor_col l i = Ok c ∧ in_range l i)
  ∨ (tensor_col l i = Raise IndexError ∧ ¬ in_range l i ∧ in_int64 i = true)
  ∨ (tensor_col l i = Raise TorchError ∧ ¬ in_range l i ∧ in_int64 i = false).
Proof.
  unfold tensor_col.
  destruct (py_get_cases l i) as [(c & -> & Hin)|[-> Hout]]; [left; eauto|].
  right. destruct (in_int64 i); [left | right]; done.
Qed.

Local Opaque py_get in_range tensor_col in_int64.

(** X3. The decoder returns an action for exactly the index triples whose type
    and whose row or column are indices that Python accepts for the list or
    the tensor they are read from, negative indices counting from the end.
    For every other triple it raises: the error of torch when the type is
    that of an edge action and the column asked of the index tensor is not
    one of its columns and does not fit in 64 bits, IndexError otherwise. *)
Theorem aidx_to_GraphAction_outcome (atoms : list string) (n : Z) (ctx : Ctx)
    (g : Data) (idx : Z * Z * Z) :
  init atoms n = Ok ctx →
  (decodable ctx g idx →
     ∃ a, aidx_to_GraphAction ctx g idx = Ok (Some a)
          ∧ py_get (action_type_order ctx) idx.1.1 = Ok (action a))
  ∧ (¬ decodable ctx g idx → ¬ row_overflows ctx g idx →
     aidx_to_GraphAction ctx g idx = Raise IndexError)
  ∧ (row_overflows ctx g idx →
     aidx_to_GraphAction ctx g idx = Raise TorchError).
Proof.
  intros [_ ->]%init_inv. destruct idx as [[t row] col].
  unfold decodable, row_overflows, aidx_to_GraphAction. cbn [fst].
  destruct (py_get_cases (action_type_order (tables atoms n)) t)
    as [(t0 & Ht0 & Hin)|[Hraise Hout]].
  2:{ rewrite Hraise. split; [by intros [? _]|]. split; [done | tauto]. }
  pose proof (type_in_range (tables atoms n) t eq_refl Hin) as Ht.
  clear Ht0 t0.
  repeat (destruct Ht as [Ht|Ht]); subst t;
    match goal with
    | |- context [py_get (action_type_order ?c) ?t] =>
        let r := eval vm_compute in (py_get (action_type_order c) t) in
        change (py_get (action_type_order c) t) with r
    end;
    match goal with
    | |- context [(?t `mod` 5)%Z] =>
        let r := eval vm_compute in (t `mod` 5)%Z in
        change (t `mod` 5)%Z with r
    end;
    simpl.
  all: repeat
    match goal with
    | |- context [tensor_col ?l ?i] =>
        let x := fresh "x" in
        let Hx := fresh "Hx" in
        destruct (tensor_col_cases l i) as [(x & Hx & ?)|[(Hx & ? & ?)|(Hx & ? & ?)]];
        rewrite Hx; clear Hx; try destruct x; simpl
    | |- context [py_get ?l ?i] =>
        let x := fresh "x" in
        let Hx := fresh "Hx" in
        destruct (py_get_cases l i) as [(x & Hx & ?)|[Hx ?]];
        rewrite Hx; clear Hx; try destruct x; simpl
    end.
  all: split; [|split];
    first [ intros _; eexists; split; reflexivity
          | intros; reflexivity
          | intros; exfalso; intuition congruence ].
Qed.

Local Transparent py_get in_range tensor_col in_int64.

Lemma aidx_to_GraphAction_outcome_witness :
  non_edge_index d_CCC = [(0, 2)%Z]
  ∧ aidx_to_GraphAction ctx_default d_CCC (3, -1, 0)%Z = Ok (Some (mkGraphAction AddEdge (Some 0%Z) (Some 2%Z) None None))
  ∧ aidx_to_GraphAction ctx_default d_CCC (3, 1, 0)%Z = Raise IndexError.
Proof.
  split; [reflexivity|]. split; [reflexivity|].
  refine (proj1 (proj2 (aidx_to_GraphAction_outcome default_atoms 0 ctx_default d_CCC
                          (3, 1, 0)%Z eq_refl)) _ _).
  - intros [_ H]. vm_compute in H. destruct H as [_ H]. discriminate H.
  - intros [_ [_ H]]. vm_compute in H. discriminate H.
Defined.

(** A row beyond 64 bits is refused by torch, whatever the tensor holds. *)
Example aidx_to_GraphAction_overflow :
  aidx_to_GraphAction ctx_default d_CCC (3, 9223372036854775808, 0)%Z
  = Raise TorchError.
Proof. reflexivity. Qed.

(** ** What the encoder refuses *)

Lemma index_not_found (vs : list pyval) (v : pyval) :
  (∀ w, w ∈ vs → py_eq v w = false) → index vs v = Raise ValueError.
Proof.
  intros H. unfold index.
  by rewrite (proj2 (find_from_None (py_eq v) 0 vs) H).
Qed.

Lemma od_get_v (atoms : list string) :
  od_get "v" (atom_values atoms) = Some (map VStr atoms).
Proof. reflexivity. Qed.

Local Opaque index od_get.

(** X4. The failures of the encoder on node actions: a new atom whose symbol
    is not in the vocabulary, or an attribute value that equals, as Python
    compares values, no entry of the list of its attribute, raises
    ValueError; an attribute name that the tables do not know raises
    KeyError; an action without a source node raises TypeError once its
    column has been found. To Python a boolean and a member of an RDKit
    enumeration equal the integer they stand for. *)
Theorem GraphAction_to_aidx_refuses (atoms : list string) (n : Z) (ctx : Ctx)
    (d : Data) (src tgt : option Z) :
  init atoms n = Ok ctx →
  (∀ v k, (∀ s, s ∈ atoms → v ≠ Some (VStr s)) →
     GraphAction_to_aidx ctx d (mkGraphAction AddNode src tgt v k)
     = Raise ValueError)
  ∧ (∀ v k, (k = None ∨ ∃ k', k = Some k' ∧ od_get k' (atom_attr_values ctx) = None) →
     GraphAction_to_aidx ctx d (mkGraphAction SetNodeAttr src tgt v k)
     = Raise KeyError)
  ∧ (∀ v k vs, od_get k (atom_attr_values ctx) = Some vs →
     (∀ u w, v = Some u → w ∈ vs → py_eq u w = false) →
     GraphAction_to_aidx ctx d (mkGraphAction SetNodeAttr src tgt v (Some k))
     = Raise ValueError)
  ∧ (∀ s k, s ∈ atoms →
     GraphAction_to_aidx ctx d (mkGraphAction AddNode None tgt (Some (VStr s)) k)
     = Raise TypeError).
Proof.
  intros [_ ->]%init_inv. unfold GraphAction_to_aidx, logit_col, od_item. simpl.
  rewrite od_get_v. simpl. split; [|split; [|split]].
  - intros v k Hv. destruct v as [v|]; [|done]. simpl.
    rewrite index_not_found; [done|].
    intros w (s & -> & Hs)%list_elem_of_fmap.
    destruct v as [s'| | | |]; try done. simpl.
    apply bool_decide_eq_false. intros ->. by apply (Hv s).
  - intros v k Hk.
    destruct Hk as [->|(k' & -> & Hnone)]; [done|]. simpl. by rewrite Hnone.
  - intros v k vs Hk Hv. rewrite Hk. simpl.
    destruct v as [v|]; [|done]. simpl.
    rewrite index_not_found; [done|]. intros w Hw. by apply (Hv v w).
  - intros s k Hs.
    destruct (index_symbol atoms (VStr s)) as (i & Hi & _).
    { apply list_elem_of_fmap. eauto. }
    rewrite Hi. done.
Qed.

Local Transparent index od_get.

Lemma GraphAction_to_aidx_refuses_witness :
  GraphAction_to_aidx ctx_test d_CC
    (mkGraphAction AddNode (Some 0%Z) None (Some (VStr "S")) None)
  = Raise ValueError.
Proof.
  apply (GraphAction_to_aidx_refuses test_atoms 32 ctx_test d_CC (Some 0%Z) None eq_refl).
  intros s Hs [= <-]. revert Hs. compute_done.
Defined.

(** A member of an RDKit enumeration is found where its integer is: the
    chiral tag CHI_TETRAHEDRAL_CW, which is 1, given as a charge is found
    at the place of the charge 1 and encoded in its column, whereas the
    charge 2 is found nowhere. *)
Example enum_found_as_int :
  GraphAction_to_aidx ctx_default d_CC
    (mkGraphAction SetNodeAttr (Some 0%Z) None (Some (VChi CHI_TETRAHEDRAL_CW))
                   (Some "charge"))
  = Ok (2, 0, 0)%Z
  ∧ GraphAction_to_aidx ctx_default d_CC
      (mkGraphAction SetNodeAttr (Some 0%Z) None (Some (VInt 2)) (Some "charge"))
    = Raise ValueError.
Proof. split; reflexivity. Qed.

(** ** Graphs without repeated keys *)

Lemma NoDup_od_keys_set {K V : Type} `{EqDecision K} (d : odict K V) (k : K) (v : V) :
  NoDup (od_keys d) → NoDup (od_keys (od_set k v d)).
Proof.
  intros Hd. destruct (decide (k ∈ od_keys d)) as [Hin|Hnin].
  - by rewrite od_keys_set_old.
  - rewrite od_keys_set_new by done. apply NoDup_app. split; [done|].
    split; [|apply NoDup_singleton].
    intros x Hx ->%list_elem_of_singleton. done.
Qed.

Lemma simple_empty : simple_graph nx.empty.
Proof. split; [apply wf_empty | apply NoDup_nil_2 | apply od_all_nil]. Qed.

Lemma simple_touch (n : Z) (g : nx.Graph) :
  simple_graph g → simple_graph (nx.touch n g).
Proof.
  intros [Hwf Hk Hn]. split; [by apply touch_spec| |]; unfold nx.touch;
    destruct (od_get n (nx._node g)); simpl; try done.
  - by apply NoDup_od_keys_set.
  - apply od_all_set; [done | apply NoDup_nil_2].
Qed.

Lemma simple_add_node (n : Z) (attr : gmap string pyval) (g : nx.Graph) :
  simple_graph g → simple_graph (nx.add_node n attr g).
Proof.
  intros [Hwf Hk Hn]. split; [by apply wf_add_node| |]; unfold nx.add_node;
    destruct (od_get n (nx._node g)); simpl; try done.
  - by apply NoDup_od_keys_set.
  - apply od_all_set; [done | apply NoDup_nil_2].
Qed.

Lemma simple_add_edge (u v : Z) (attr : gmap string pyval) (g : nx.Graph) :
  simple_graph g → simple_graph (nx.add_edge u v attr g).
Proof.
  intros Hg. split; [apply wf_add_edge, Hg|..].
  all: destruct (simple_touch v _ (simple_touch u _ Hg)) as [_ Hk Hn];
    unfold nx.add_edge; set (g2 := nx.touch v (nx.touch u g)) in *; simpl.
  - by do 2 apply NoDup_od_keys_set.
  - set (nu := default [] (od_get u (nx._adj g2))).
    assert (Hnu : NoDup (od_keys nu)).
    { unfold nu. destruct (od_get u (nx._adj g2)) as [nbrs|] eqn:Hu; simpl;
        [by apply (Hn u) | apply NoDup_nil_2]. }
    set (dd := attr ∪ default ∅ (od_get v nu)).
    set (adj3 := od_set u (od_set v dd nu) (nx._adj g2)).
    assert (H3 : od_all (λ nbrs, NoDup (od_keys nbrs)) adj3).
    { apply od_all_set; [done|]. by apply NoDup_od_keys_set. }
    apply od_all_set; [done|]. apply NoDup_od_keys_set.
    destruct (od_get v adj3) as [nbrs|] eqn:Hv; simpl;
      [by apply (H3 v) | apply NoDup_nil_2].
Qed.

Lemma simple_touch_all (ns : list Z) (g : nx.Graph) :
  simple_graph g → simple_graph (fold_left (λ r n, nx.touch n r) ns g).
Proof.
  revert g. induction ns as [|n ns IH]; intros g Hg; simpl; [done|].
  by apply IH, simple_touch.
Qed.

Lemma simple_add_edges (es : list (Z * Z)) (g : nx.Graph) :
  simple_graph g →
  simple_graph (fold_left (λ r e, nx.add_edge e.1 e.2 ∅ r) es g).
Proof.
  revert g. induction es as [|e es IH]; intros g Hg; simpl; [done|].
  by apply IH, simple_add_edge.
Qed.

Lemma simple_complement (g : nx.Graph) : simple_graph (nx.complement g).
Proof.
  unfold nx.complement. apply simple_add_edges, simple_touch_all, simple_empty.
Qed.

(** ** The edges of a graph, each once *)

Lemma od_all_Forall {K V : Type} `{EqDecision K} (P : V → Prop) (d : odict K V) :
  NoDup (od_keys d) → od_all P d → Forall (λ e, P e.2) d.
Proof.
  induction d as [|[k v] d IH]; intros Hnd Hall; [constructor|].
  apply NoDup_cons in Hnd as [Hk Hnd]. constructor.
  - apply (Hall k). simpl. by rewrite decide_True.
  - apply IH; [done|]. intros k' v' Hk'. apply (Hall k'). simpl.
    rewrite decide_False; [done|]. intros ->. apply Hk.
    apply od_get_is_Some. eauto.
Qed.

Lemma od_get_elem {K V : Type} `{EqDecision K} (d : odict K V) (k : K) (v : V) :
  NoDup (od_keys d) → (k, v) ∈ d → od_get k d = Some v.
Proof.
  induction d as [|[k' v'] d IH]; intros Hnd Hin; [by apply elem_of_nil in Hin|].
  apply NoDup_cons in Hnd as [Hk Hnd]. simpl.
  apply elem_of_cons in Hin as [[= -> ->]|Hin]; [by rewrite decide_True|].
  rewrite decide_False; [by apply IH|]. intros ->. apply Hk.
  apply list_elem_of_fmap. by exists (k', v).
Qed.

Lemma elem_of_edges_from (seen : list Z)
    (adj : odict Z (odict Z (gmap string pyval))) (u v : Z) :
  (u, v) ∈ nx.edges_from seen adj →
  (v ∉ seen) ∧ ∃ nbrs, (u, nbrs) ∈ adj ∧ v ∈ od_keys nbrs.
Proof.
  revert seen. induction adj as [|[n nbrs] adj IH]; intros seen; simpl.
  - by intros ?%elem_of_nil.
  - intros [H|H]%elem_of_app.
    + apply list_elem_of_fmap in H as (w & [= -> ->] & [Hw Hk]%list_elem_of_filter).
      split; [done|]. exists nbrs. split; [left | done].
    + destruct (IH _ H) as [Hs (nbrs' & Hin & Hk)].
      split; [by apply not_elem_of_cons in Hs as [_ ?]|].
      exists nbrs'. split; [by right | done].
Qed.

Lemma elem_of_edges_from_seen (seen : list Z)
    (adj : odict Z (odict Z (gmap string pyval))) (u v : Z) :
  (u, v) ∈ nx.edges_from seen adj → u ∈ od_keys adj.
Proof.
  intros (_ & nbrs & Hin & _)%elem_of_edges_from.
  apply list_elem_of_fmap. by exists (u, nbrs).
Qed.

Lemma edges_from_once (seen : list Z)
    (adj : odict Z (odict Z (gmap string pyval))) :
  NoDup (od_keys adj) → Forall (λ e, NoDup (od_keys e.2)) adj →
  oriented_once (nx.edges_from seen adj).
Proof.
  revert seen. induction adj as [|[n nbrs] adj IH]; intros seen Hk Hn; simpl.
  - split; [apply NoDup_nil_2 | by intros u v ?%elem_of_nil].
  - apply NoDup_cons in Hk as [Hnk Hk]. apply Forall_cons in Hn as [Hnn Hn].
    destruct (IH (n :: seen) Hk Hn) as [Hnd Hor].
    assert (Hhead : ∀ u v, (u, v) ∈ map (pair n)
              (filter (λ nbr, nbr ∉ seen) (od_keys nbrs)) → u = n).
    { intros u v (w & [= -> ->] & _)%list_elem_of_fmap. done. }
    assert (Htail : ∀ u v, (u, v) ∈ nx.edges_from (n :: seen) adj → u ≠ n ∧ v ≠ n).
    { intros u v H. split.
      - intros ->. by apply Hnk, (elem_of_edges_from_seen _ _ _ _ H).
      - apply elem_of_edges_from in H as [Hs _]. by apply not_elem_of_cons in Hs as [? _]. }
    split.
    + apply NoDup_app. split; [|split; [|done]].
      * apply NoDup_fmap_2; [by intros ?? [= ->]|]. by apply NoDup_filter.
      * intros [u v] H1 H2. apply Hhead in H1 as ->. by apply Htail in H2 as [? _].
    + intros u v [H|H]%elem_of_app Huv [H'|H']%elem_of_app.
      * apply Hhead in H as ->. apply Hhead in H' as ->. done.
      * apply Hhead in H as ->. by apply Htail in H' as [_ ?].
      * apply Hhead in H' as ->. by apply Htail in H as [_ ?].
      * by apply (Hor u v).
Qed.

Lemma edges_once (g : nx.Graph) : simple_graph g → oriented_once (nx.edges g).
Proof.
  intros [_ Hk Hn]. apply edges_from_once; [done|].
  by apply (od_all_Forall (λ nbrs, NoDup (od_keys nbrs))).
Qed.

Lemma edges_sound (g : nx.Graph) (u v : Z) :
  simple_graph g → (u, v) ∈ nx.edges g → nx.has_edge g u v = true.
Proof.
  intros [_ Hk _] (_ & nbrs & Hin & Hv)%elem_of_edges_from.
  apply has_edge_adjacent. exists nbrs. split; [by apply od_get_elem|].
  by apply od_get_is_Some.
Qed.

(** The columns of [edge_index] and the adjacent pairs are the same. *)
Lemma elem_of_both_ways_inv (es : list (Z * Z)) (s t : Z) :
  (s, t) ∈ flat_map both_ways es → (s, t) ∈ es ∨ (t, s) ∈ es.
Proof.
  intros ([a b] & Hin & H)%elem_of_flat_map. simpl in H.
  apply elem_of_cons in H as [[= -> ->]|H]; [by left|].
  apply elem_of_cons in H as [[= -> ->]|H]; [by right|].
  by apply elem_of_nil in H.
Qed.

(** ** The candidates of AddEdge *)

Lemma adjacent_touch_all (ns : list Z) (g : nx.Graph) (x y : Z) :
  wf_graph g →
  wf_graph (fold_left (λ r n, nx.touch n r) ns g)
  ∧ (adjacent (nx._adj (fold_left (λ r n, nx.touch n r) ns g)) x y
     ↔ adjacent (nx._adj g) x y).
Proof.
  revert g. induction ns as [|n ns IH]; intros g Hwf; simpl; [done|].
  destruct (touch_spec n g Hwf) as (Hwf' & _ & _ & Hadj).
  destruct (IH _ Hwf') as [Hwf'' Hiff]. split; [done|]. by rewrite Hiff, Hadj.
Qed.

Lemma adjacent_add_edges (es : list (Z * Z)) (g : nx.Graph) (x y : Z) :
  wf_graph g →
  adjacent (nx._adj (fold_left (λ r e, nx.add_edge e.1 e.2 ∅ r) es g)) x y
  ↔ adjacent (nx._adj g) x y ∨ (x, y) ∈ es ∨ (y, x) ∈ es.
Proof.
  revert g. induction es as [|[u v] es IH]; intros g Hwf; simpl.
  - split; [by left|]. intros [?|[?%elem_of_nil|?%elem_of_nil]]; done.
  - destruct (add_edge_spec u v ∅ g Hwf) as [Hwf' Hadj].
    rewrite (IH _ Hwf'), Hadj, !elem_of_cons. split.
    + intros [[?|[[-> ->]|[-> ->]]]|[?|?]]; auto.
    + intros [?|[[[= -> ->]|?]|[[= -> ->]|?]]]; auto.
Qed.

Lemma elem_of_non_neighbours_inv (g : nx.Graph) (a b : Z) :
  simple_graph g → (a, b) ∈ nx.non_neighbours g →
  a ≠ b ∧ a ∈ nx.nodes g ∧ b ∈ nx.nodes g ∧ nx.has_edge g a b = false.
Proof.
  intros [Hwf Hk _] ([n nbrs] & Hin & H)%elem_of_flat_map.
  apply list_elem_of_fmap in H as (w & [= -> ->] & [[Hnone Hne] Hw]%list_elem_of_filter).
  split; [done|]. split; [|split; [done|]].
  - unfold nx.nodes. rewrite <- (wf_keys g Hwf).
    apply list_elem_of_fmap. by exists (n, nbrs).
  - unfold nx.has_edge. rewrite (od_get_elem _ _ _ Hk Hin).
    apply bool_decide_eq_false. rewrite Hnone. by intros [? ?].
Qed.

(** An edge of the complement joins two distinct nodes that are not
    adjacent. *)
Lemma complement_edges_sound (g : nx.Graph) (a b : Z) :
  simple_graph g →
  (a, b) ∈ nx.edges (nx.complement g) →
  a ≠ b ∧ a ∈ nx.nodes g ∧ b ∈ nx.nodes g ∧ nx.has_edge g a b = false.
Proof.
  intros Hg Hab.
  apply (edges_sound _ _ _ (simple_complement g)), has_edge_adjacent in Hab.
  unfold nx.complement in Hab.
  apply adjacent_add_edges in Hab; [|apply wf_touch_all, wf_empty].
  destruct Hab as [Hab|[Hab|Hab]].
  - apply (adjacent_touch_all (nx.nodes g) nx.empty a b wf_empty) in Hab.
    by destruct Hab as (? & ? & _).
  - by apply elem_of_non_neighbours_inv.
  - apply elem_of_non_neighbours_inv in Hab as (Hne & Hb & Ha & Hno); [|done].
    split; [done|]. split; [done|]. split; [done|].
    destruct (nx.has_edge g a b) eqn:Hab; [|done].
    apply (wf_sym g (sg_wf g Hg)) in Hab. congruence.
Qed.

(** X5. The candidates of AddEdge in the tensor form of a graph are the pairs
    of distinct nodes that are not adjacent: every column of
    [non_edge_index] is such a pair, and every such pair is a column exactly
    once, in one of its two orientations. *)
Theorem non_edge_index_exact (ctx : Ctx) (g : nx.Graph) (d : Data) :
  simple_graph g →
  graph_to_Data ctx g = Ok d →
  (∀ a b, (a, b) ∈ non_edge_index d →
     a ≠ b ∧ a ∈ nx.nodes g ∧ b ∈ nx.nodes g ∧ nx.has_edge g a b = false)
  ∧ (∀ a b, a ∈ nx.nodes g → b ∈ nx.nodes g → a ≠ b →
     nx.has_edge g a b = false →
     (a, b) ∈ non_edge_index d ∨ (b, a) ∈ non_edge_index d)
  ∧ oriented_once (non_edge_index d).
Proof.
  intros Hg [_ ->]%graph_to_Data_indices. split; [|split].
  - intros a b Hab. by apply complement_edges_sound.
  - intros a b Ha Hb Hne Hno. apply non_edge_covers; [apply Hg|done..].
  - apply edges_once, simple_complement.
Qed.

(** The edges of a graph, each written both ways, are its adjacent
    pairs. *)
Lemma both_ways_adjacent (g : nx.Graph) (a b : Z) :
  simple_graph g →
  (a, b) ∈ flat_map both_ways (nx.edges g) ↔ nx.has_edge g a b = true.
Proof.
  intros Hg. split.
  - intros [H|H]%elem_of_both_ways_inv.
    + by apply edges_sound.
    + apply (wf_sym g (sg_wf g Hg)). by apply edges_sound.
  - intros H. apply elem_of_both_ways. apply edges_covers; [apply Hg | done].
Qed.

(** X6. The columns of [edge_index] are the adjacent pairs of the graph, each
    in both orientations, and the graph lists every edge once. *)
Theorem edge_index_exact (ctx : Ctx) (g : nx.Graph) (d : Data) :
  simple_graph g →
  graph_to_Data ctx g = Ok d →
  (∀ a b, (a, b) ∈ edge_index d ↔ nx.has_edge g a b = true)
  ∧ len (edge_index d) = (2 * len (nx.edges g))%Z
  ∧ oriented_once (nx.edges g).
Proof.
  intros Hg [-> _]%graph_to_Data_indices. split; [|split].
  - intros a b. by apply both_ways_adjacent.
  - unfold len. induction (nx.edges g) as [|[i j] es IH]; [done|].
    simpl in *. lia.
  - by apply edges_once.
Qed.

Lemma simple_g_CCC : simple_graph g_CCC.
Proof.
  repeat first [apply simple_add_edge | apply simple_add_node | apply simple_empty].
Qed.

Lemma non_edge_index_exact_witness :
  (∀ a b, (a, b) ∈ non_edge_index d_CCC →
     a ≠ b ∧ a ∈ nx.nodes g_CCC ∧ b ∈ nx.nodes g_CCC
     ∧ nx.has_edge g_CCC a b = false)
  ∧ non_edge_index d_CCC = [(0, 2)%Z].
Proof.
  split; [|reflexivity].
  apply (non_edge_index_exact ctx_default g_CCC d_CCC simple_g_CCC eq_refl).
Defined.

Lemma edge_index_exact_witness :
  (∀ a b, (a, b) ∈ edge_index d_CCC ↔ nx.has_edge g_CCC a b = true)
  ∧ edge_index d_CCC = [(0, 1); (1, 0); (1, 2); (2, 1)]%Z.
Proof.
  split; [|reflexivity].
  apply (edge_index_exact ctx_default g_CCC d_CCC simple_g_CCC eq_refl).
Defined.

(** ** The place of a pair in a list that holds it once *)

Lemma oriented_once_lookup (es : list (Z * Z)) (i j : nat) (a b : Z) (e : Z * Z) :
  oriented_once es →
  es !! i = Some (a, b) → es !! j = Some e →
  e = (a, b) ∨ e = (b, a) → i = j.
Proof.
  intros [Hnd Hor] Hi Hj [->| ->]; [by apply (NoDup_lookup es i j (a, b))|].
  destruct (decide (a = b)) as [->|Hne];
    [by apply (NoDup_lookup es i j (b, b))|].
  destruct (Hor a b); [by eapply list_elem_of_lookup_2 | done
                      | by eapply list_elem_of_lookup_2].
Qed.

Lemma find_either_way_once (es : list (Z * Z)) (k : nat) (a b : Z) :
  oriented_once es → es !! k = Some (a, b) →
  find_from (either_way a b) 0 es = Some (Z.of_nat k)
  ∧ find_from (either_way b a) 0 es = Some (Z.of_nat k).
Proof.
  intros Hes Hk.
  assert (H : ∀ s t, (s, t) = (a, b) ∨ (s, t) = (b, a) →
              find_from (either_way s t) 0 es = Some (Z.of_nat k)).
  { intros s t Hst.
    destruct (find_from_is_Some (either_way s t) es (a, b)) as [p Hp].
    { by eapply list_elem_of_lookup_2. }
    { apply bool_decide_eq_true. destruct Hst as [[= -> ->]|[= -> ->]]; auto. }
    rewrite Hp. f_equal.
    destruct (find_from_Some _ _ _ Hp) as (Hpos & e & He & Hway).
    apply bool_decide_eq_true in Hway.
    rewrite (oriented_once_lookup es k (Z.to_nat p) a b e Hes Hk He); [lia|].
    destruct Hst as [[= -> ->]|[= -> ->]]; tauto. }
  split; apply H; auto.
Qed.

Lemma find_both_ways_once (es : list (Z * Z)) (k : nat) (a b s t : Z) :
  oriented_once es → es !! k = Some (a, b) →
  (s, t) = (a, b) ∨ (s, t) = (b, a) →
  ∃ p, find_from (λ e, bool_decide (e = (s, t))) 0 (flat_map both_ways es) = Some p
       ∧ (p `div` 2)%Z = Z.of_nat k.
Proof.
  intros Hes Hk Hst.
  destruct (find_from_is_Some (λ e, bool_decide (e = (s, t)))
              (flat_map both_ways es) (s, t)) as [p Hp].
  { apply elem_of_both_ways.
    destruct Hst as [[= -> ->]|[= -> ->]]; [left | right];
      by eapply list_elem_of_lookup_2. }
  { by apply bool_decide_eq_true. }
  exists p. split; [done|].
  destruct (find_from_Some _ _ _ Hp) as (Hpos & e & He & ->%bool_decide_eq_true).
  destruct (both_ways_half es p s t Hpos He) as (e' & He' & _ & Hor).
  rewrite (oriented_once_lookup es k (Z.to_nat (p `div` 2)) a b e' Hes Hk He').
  - rewrite Z2Nat.id; [done|]. by apply Z.div_pos.
  - destruct Hst as [[= -> ->]|[= -> ->]]; tauto.
Qed.

Lemma index_NoDup (atoms : list string) (k : nat) (s : string) :
  NoDup atoms → atoms !! k = Some s →
  index (map VStr atoms) (VStr s) = Ok (Z.of_nat k).
Proof.
  intros Hnd Hk.
  destruct (index_elem (map VStr atoms) (VStr s)) as [i Hi].
  { apply list_elem_of_fmap. exists s. split; [done|]. by eapply list_elem_of_lookup_2. }
  rewrite Hi. f_equal.
  apply index_Ok in Hi as (Hpos & w & Hw & Heq).
  rewrite list_lookup_fmap in Hw.
  destruct (atoms !! Z.to_nat i) as [s'|] eqn:Hs'; [|done].
  injection Hw as <-. simpl in Heq. apply bool_decide_eq_true in Heq. subst s'.
  pose proof (NoDup_lookup atoms k (Z.to_nat i) s Hnd Hk Hs'). lia.
Qed.

(** ** From an index to an action and back *)

Section index_roundtrip_cases.
Variables (atoms : list string) (n : Z).
Hypothesis atoms_NoDup : NoDup atoms.

Lemma index_AddNode (d : Data) (row col : Z) :
  (0 ≤ col < len atoms)%Z →
  ∃ s, s ∈ atoms
    ∧ aidx_to_GraphAction (tables atoms n) d (1, row, col)%Z
      = Ok (Some (mkGraphAction AddNode (Some row) None (Some (VStr s)) None))
    ∧ GraphAction_to_aidx (tables atoms n) d
        (mkGraphAction AddNode (Some row) None (Some (VStr s)) None)
      = Ok (1, row, col)%Z.
Proof.
  intros Hcol. unfold len in Hcol.
  destruct (lookup_lt_is_Some_2 atoms (Z.to_nat col)) as [s Hs]; [lia|].
  exists s. split; [by eapply list_elem_of_lookup_2|].
  unfold aidx_to_GraphAction, GraphAction_to_aidx. simpl.
  rewrite py_get_nonneg, list_lookup_fmap, Hs by lia. simpl.
  rewrite (index_NoDup atoms (Z.to_nat col) s atoms_NoDup Hs). simpl.
  rewrite Z2Nat.id by lia. done.
Qed.

Lemma index_SetNodeAttr (d : Data) (row col : Z) :
  (0 ≤ col < 8)%Z →
  ∃ k v, (k, v) ∈ atom_attr_logit_map (tables atoms n)
    ∧ aidx_to_GraphAction (tables atoms n) d (2, row, col)%Z
      = Ok (Some (mkGraphAction SetNodeAttr (Some row) None (Some v) (Some k)))
    ∧ GraphAction_to_aidx (tables atoms n) d
        (mkGraphAction SetNodeAttr (Some row) None (Some v) (Some k))
      = Ok (2, row, col)%Z.
Proof.
  intros Hcol.
  assert (col = 0 ∨ col = 1 ∨ col = 2 ∨ col = 3 ∨ col = 4 ∨ col = 5
          ∨ col = 6 ∨ col = 7)%Z as Hc by lia.
  repeat (destruct Hc as [Hc|Hc]); subst col;
    eexists _, _; (split; [|split; reflexivity]);
    cbn [tables atom_attr_logit_map]; rewrite !elem_of_cons; tauto.
Qed.

Lemma index_AddEdge (d : Data) (row : Z) :
  oriented_once (non_edge_index d) →
  Forall (λ p, in_int64 p.1 = true ∧ in_int64 p.2 = true) (non_edge_index d) →
  (∀ a b, (a, b) ∈ non_edge_index d → a ≠ b) →
  (0 ≤ row < len (non_edge_index d))%Z →
  ∃ a b, (a, b) ∈ non_edge_index d
    ∧ aidx_to_GraphAction (tables atoms n) d (3, row, 0)%Z
      = Ok (Some (mkGraphAction AddEdge (Some a) (Some b) None None))
    ∧ GraphAction_to_aidx (tables atoms n) d
        (mkGraphAction AddEdge (Some a) (Some b) None None)
      = Ok (3, row, 0)%Z.
Proof.
  intros Honce H64 Hdiff Hrow. unfold len in Hrow.
  destruct (lookup_lt_is_Some_2 (non_edge_index d) (Z.to_nat row))
    as [[a b] Hab]; [lia|].
  assert (Hin : (a, b) ∈ non_edge_index d) by by eapply list_elem_of_lookup_2.
  destruct (int64_listed _ a b H64 (or_introl Hin)) as [Ha Hb].
  exists a, b. split; [done|].
  destruct (find_either_way_once _ _ _ _ Honce Hab) as [Hfind _].
  rewrite Z2Nat.id in Hfind by lia.
  unfold aidx_to_GraphAction, GraphAction_to_aidx.
  cbn [tables action_type_order action source target].
  split.
  - cbn. by rewrite (tensor_col_nonneg _ _ _ (proj1 Hrow) Hab).
  - rewrite !decide_False, decide_True by done.
    rewrite !pair_tensor_Some by done. cbn [mbind result_bind fst snd].
    by rewrite (argmax_either_way _ _ _ _ (Hdiff a b Hin) Hfind).
Qed.

Lemma index_SetEdgeAttr (d : Data) (es : list (Z * Z)) (row col : Z) :
  edge_index d = flat_map both_ways es →
  Forall (λ p, in_int64 p.1 = true ∧ in_int64 p.2 = true) (edge_index d) →
  oriented_once es →
  (0 ≤ row)%Z → (row * 2 < len (edge_index d))%Z → (0 ≤ col < 3)%Z →
  ∃ a b k v, (a, b) ∈ es ∧ (k, v) ∈ bond_attr_logit_map (tables atoms n)
    ∧ aidx_to_GraphAction (tables atoms n) d (4, row, col)%Z
      = Ok (Some (mkGraphAction SetEdgeAttr (Some a) (Some b) (Some v) (Some k)))
    ∧ GraphAction_to_aidx (tables atoms n) d
        (mkGraphAction SetEdgeAttr (Some a) (Some b) (Some v) (Some k))
      = Ok (4, row, col)%Z.
Proof.
  intros He H64 Honce Hrow0 Hrow Hcol.
  assert (Hlen : length (flat_map both_ways es) = (2 * length es)%nat).
  { clear. induction es as [|[i j] es IH]; [done|]. simpl in *. lia. }
  unfold len in Hrow. rewrite He, Hlen in Hrow.
  destruct (lookup_lt_is_Some_2 es (Z.to_nat row)) as [[a b] Hab]; [lia|].
  destruct (find_both_ways_once es _ a b a b Honce Hab) as (p & Hp & Hdiv);
    [by left|].
  rewrite Z2Nat.id in Hdiv by lia.
  assert (Hget : tensor_col (edge_index d) (row * 2) = Ok (a, b)).
  { apply tensor_col_Ok. rewrite He. by apply py_get_both_ways_even. }
  assert (Hin : (a, b) ∈ edge_index d).
  { rewrite He. apply elem_of_both_ways. left. by eapply list_elem_of_lookup_2. }
  destruct (int64_listed _ a b H64 (or_introl Hin)) as [Ha Hb].
  rewrite <- He in Hp.
  exists a, b.
  assert (col = 0 ∨ col = 1 ∨ col = 2)%Z as Hc by lia.
  repeat (destruct Hc as [Hc|Hc]); subst col;
    eexists _, _; (split; [by eapply list_elem_of_lookup_2|]);
    (split; [|split;
       [ unfold aidx_to_GraphAction; simpl; rewrite Hget; reflexivity
       | unfold GraphAction_to_aidx; cbn [action source target];
         rewrite !decide_False, decide_True by done;
         rewrite pair_tensor_Some by done; cbn [mbind result_bind fst snd];
         rewrite (argmax_match_mask _ _ _ _ Hp); simpl; rewrite Hdiv;
         reflexivity ]]);
    cbn [tables bond_attr_logit_map]; rewrite !elem_of_cons; tauto.
Qed.
End index_roundtrip_cases.

(** Decoding a triple counted from zero and encoding the action again. *)
Lemma decode_encode (atoms : list string) (n : Z) (g : nx.Graph) (d : Data)
    (idx : Z * Z * Z) :
  NoDup atoms →
  simple_graph g →
  graph_to_Data (tables atoms n) g = Ok d →
  canonical (tables atoms n) d idx →
  ∃ a, aidx_to_GraphAction (tables atoms n) d idx = Ok (Some a)
       ∧ legal (tables atoms n) g a
       ∧ GraphAction_to_aidx (tables atoms n) d a = Ok idx.
Proof.
  intros Hnd Hg Hd Hcan.
  destruct (graph_to_Data_indices _ _ _ Hd) as [He Hne].
  destruct (graph_to_Data_int64 _ _ _ Hd) as [He64 Hne64].
  assert (Hsound : ∀ a b, (a, b) ∈ non_edge_index d →
            a ≠ b ∧ a ∈ nx.nodes g ∧ b ∈ nx.nodes g ∧ nx.has_edge g a b = false).
  { intros a b. rewrite Hne. by apply complement_edges_sound. }
  assert (Honce : oriented_once (non_edge_index d)).
  { rewrite Hne. apply edges_once, simple_complement. }
  assert (Hedge : ∀ a b, (a, b) ∈ edge_index d ↔ nx.has_edge g a b = true).
  { intros a b. rewrite He. by apply both_ways_adjacent. }
  pose proof (edges_once g Hg) as Heonce.
  destruct idx as [[t row] col]. unfold canonical in Hcan.
  assert (t = 0 ∨ t = 1 ∨ t = 2 ∨ t = 3 ∨ t = 4 ∨ (t < 0 ∨ 4 < t))%Z as Ht by lia.
  destruct Ht as [->|[->|[->|[->|[->|Ht]]]]].
  - destruct Hcan as [-> ->]. eexists. split; [reflexivity|].
    split; [constructor | reflexivity].
  - cbn [tables num_new_node_values] in Hcan.
    destruct (index_AddNode atoms n Hnd d row col Hcan) as (s & Hs & H1 & H2).
    eexists. split; [exact H1|]. split; [|exact H2].
    eapply legal_AddNode; [reflexivity|]. apply list_elem_of_fmap. eauto.
  - cbn [tables num_node_attr_logits] in Hcan.
    destruct (index_SetNodeAttr atoms n d row col Hcan) as (k & v & Hkv & H1 & H2).
    eexists. split; [exact H1|]. split; [by constructor | exact H2].
  - destruct Hcan as [Hrow ->].
    destruct (index_AddEdge atoms n d row Honce Hne64) as (a & b & Hin & H1 & H2);
      [by intros a b (? & _)%Hsound | done |].
    eexists. split; [exact H1|]. split; [|exact H2].
    destruct (Hsound a b Hin) as (? & ? & ? & ?). by constructor.
  - destruct Hcan as [[Hrow0 Hrow] Hcol]. cbn [tables num_edge_attr_logits] in Hcol.
    destruct (index_SetEdgeAttr atoms n d (nx.edges g) row col He He64 Heonce
                Hrow0 Hrow Hcol)
      as (a & b & k & v & Hin & Hkv & H1 & H2).
    eexists. split; [exact H1|]. split; [|exact H2].
    constructor; [by apply edges_sound | done].
  - exfalso. destruct t as [|p|p]; [lia| |done].
    destruct p as [[[|?|]|[|?|]|]|[[|?|]|[|?|]|]|]; (done || lia).
Qed.

(** X7. With a vocabulary without repetitions, every index triple counted
    from zero decodes to an action that is legal in the graph, and encoding
    that action gives the triple back. So the decoder is one-to-one on
    these triples: two of them that decode to the same action are equal. *)
Theorem index_roundtrip (atoms : list string) (n : Z) (ctx : Ctx)
    (g : nx.Graph) (d : Data) (idx : Z * Z * Z) :
  init atoms n = Ok ctx →
  NoDup atoms →
  simple_graph g →
  graph_to_Data ctx g = Ok d →
  canonical ctx d idx →
  (∃ a, aidx_to_GraphAction ctx d idx = Ok (Some a)
        ∧ legal ctx g a
        ∧ GraphAction_to_aidx ctx d a = Ok idx)
  ∧ (∀ idx', canonical ctx d idx' →
       aidx_to_GraphAction ctx d idx' = aidx_to_GraphAction ctx d idx →
       idx' = idx)
  ∧ (∀ idx' a, canonical ctx d idx' →
       aidx_to_GraphAction ctx d idx' = Ok (Some a) →
       aidx_to_GraphAction ctx d idx = Ok (Some a) →
       idx' = idx).
Proof.
  intros [_ ->]%init_inv Hnd Hg Hd Hcan.
  destruct (decode_encode atoms n g d idx Hnd Hg Hd Hcan) as (a & H1 & Hl & H2).
  split; [by exists a|]. split.
  - intros idx' Hcan' Heq.
    destruct (decode_encode atoms n g d idx' Hnd Hg Hd Hcan') as (a' & H1' & _ & H2').
    rewrite H1, H1' in Heq. injection Heq as ->. congruence.
  - intros idx' b Hcan' Hb' Hb.
    destruct (decode_encode atoms n g d idx' Hnd Hg Hd Hcan') as (a' & H1' & _ & H2').
    congruence.
Qed.

Lemma index_roundtrip_witness :
  ∃ a, aidx_to_GraphAction ctx_test d_CCC (4, 1, 2)%Z = Ok (Some a)
       ∧ legal ctx_test g_CCC a
       ∧ GraphAction_to_aidx ctx_test d_CCC a = Ok (4, 1, 2)%Z.
Proof.
  refine (proj1 (index_roundtrip test_atoms 32 ctx_test g_CCC d_CCC (4, 1, 2)%Z
                   eq_refl _ simple_g_CCC eq_refl _)).
  - compute_done.
  - vm_compute. repeat split; discriminate.
Defined.

(** ** The range of the encoder *)

(** X8. The index triple of a legal action fits the logits of its action
    type. The type is one of 0 to 4. The column is counted from zero: the
    column of AddNode is below the number of symbols, the column of
    SetNodeAttr below the number of node attribute logits, the column of
    SetEdgeAttr below the number of edge attribute logits. The row of an
    edge action is counted from zero: the row of AddEdge is below the
    number of candidates, the row of SetEdgeAttr below the number of
    edges. The row of AddNode and of SetNodeAttr is the source of the
    action as it is given, which nothing bounds. *)
Theorem GraphAction_to_aidx_canonical (atoms : list string) (n : Z) (ctx : Ctx)
    (g : nx.Graph) (d : Data) (a : GraphAction) :
  init atoms n = Ok ctx →
  wf_graph g →
  graph_to_Data ctx g = Ok d →
  legal ctx g a →
  ∃ idx, GraphAction_to_aidx ctx d a = Ok idx
         ∧ canonical ctx d idx
         ∧ py_get (action_type_order ctx) idx.1.1 = Ok (action a)
         ∧ (0 ≤ idx.1.1 < 5)%Z
         ∧ (0 ≤ idx.2)%Z
         ∧ (action a = AddNode ∨ action a = SetNodeAttr →
            source a = Some idx.1.2)
         ∧ (action a = AddEdge →
            (0 ≤ idx.1.2 < len (nx.edges (nx.complement g)))%Z)
         ∧ (action a = SetEdgeAttr →
            (0 ≤ idx.1.2 < len (nx.edges g))%Z).
Proof.
  intros [_ ->]%init_inv Hwf Hd Hlegal.
  pose proof (graph_to_Data_indices _ _ _ Hd) as [He Hne].
  pose proof (graph_to_Data_int64 _ _ _ Hd) as [He64 Hne64].
  destruct Hlegal as [|src vs v Hvs Hv|src k v Hkv|s t Hs Ht Hst Hno|s t k v Hst Hkv].
  - eexists. split; [reflexivity|]. split; [done|]. split; [reflexivity|].
    cbn. repeat split; try done; intros [?|?]; done.
  - injection Hvs as <-.
    destruct (index_symbol atoms v Hv) as (i & Hi & Hget).
    exists (1, src, i)%Z. split.
    + unfold GraphAction_to_aidx. simpl. by rewrite Hi.
    + apply index_Ok in Hi as [Hpos _]. apply py_get_Ok_range in Hget.
      split.
      { unfold canonical. cbn [tables num_new_node_values]. unfold len in *.
        rewrite length_map in Hget. lia. }
      split; [reflexivity|]. cbn. repeat split; done.
  - cbn [tables atom_attr_logit_map] in Hkv.
    repeat (apply elem_of_cons in Hkv as [[= -> ->]|Hkv];
      [eexists; split; [reflexivity|]; split; [unfold canonical; simpl; lia|];
       split; [reflexivity|]; cbn; repeat split; done|]).
    by apply elem_of_nil in Hkv.
  - assert (Hin : (s, t) ∈ non_edge_index d ∨ (t, s) ∈ non_edge_index d)
      by (rewrite Hne; by apply non_edge_covers).
    destruct (int64_listed _ s t Hne64 Hin) as [Hs64 Ht64].
    assert (Hfind : is_Some (find_from (either_way s t) 0 (non_edge_index d))).
    { destruct Hin as [H|H]; apply (find_from_is_Some _ _ _ H);
        apply bool_decide_eq_true; auto. }
    destruct Hfind as [row Hrow].
    destruct (find_from_Some _ _ _ Hrow) as (Hpos & e & Hl & _).
    apply lookup_lt_Some in Hl.
    exists (3, row, 0)%Z. split.
    + unfold GraphAction_to_aidx. cbn [action source target].
      rewrite !decide_False, decide_True by done.
      rewrite !pair_tensor_Some by done. cbn [mbind result_bind fst snd].
      by rewrite (argmax_either_way _ _ _ _ Hst Hrow).
    + split; [unfold canonical, len; lia|]. split; [reflexivity|].
      cbn. rewrite <- Hne. unfold len.
      repeat split; try done; try lia. intros [?|?]; done.
  - assert (Hin : (s, t) ∈ edge_index d ∨ (t, s) ∈ edge_index d).
    { left. rewrite He. by apply elem_of_both_ways, edges_covers. }
    destruct (int64_listed _ s t He64 Hin) as [Hs64 Ht64].
    assert (Hfind : is_Some (find_from (λ e, bool_decide (e = (s, t))) 0 (edge_index d))).
    { apply (find_from_is_Some _ _ (s, t)).
      - rewrite He. by apply elem_of_both_ways, edges_covers.
      - by apply bool_decide_eq_true. }
    destruct Hfind as [p Hp].
    destruct (find_from_Some _ _ _ Hp) as (Hpos & e & Hl & _).
    apply lookup_lt_Some in Hl.
    assert (Hlen : length (edge_index d) = (2 * length (nx.edges g))%nat).
    { rewrite He. clear. induction (nx.edges g) as [|[i j] es IH]; [done|].
      simpl in *. lia. }
    assert (Hrow : (0 ≤ p `div` 2 ∧ p `div` 2 * 2 < len (edge_index d))%Z).
    { unfold len. pose proof (Z.div_mod p 2). pose proof (Z.mod_pos_bound p 2).
      split; [apply Z.div_pos; lia | lia]. }
    assert (Hrow' : (p `div` 2 < len (nx.edges g))%Z).
    { unfold len in *. lia. }
    cbn [tables bond_attr_logit_map] in Hkv.
    repeat (apply elem_of_cons in Hkv as [[= -> ->]|Hkv];
      [eexists; split;
        [unfold GraphAction_to_aidx; cbn [action source target];
         rewrite !decide_False, decide_True by done;
         rewrite pair_tensor_Some by done; cbn [mbind result_bind fst snd];
         rewrite (argmax_match_mask _ _ _ _ Hp); reflexivity|];
       split; [unfold canonical; simpl; lia|]; split; [reflexivity|];
       cbn; repeat split; try done; try lia; intros [?|?]; done|]).
    by apply elem_of_nil in Hkv.
Qed.

Lemma legal_add_edge_2_0 :
  legal ctx_test g_CCC (mkGraphAction AddEdge (Some 2%Z) (Some 0%Z) None None).
Proof. apply legal_AddEdge; [compute_done | compute_done | done | reflexivity]. Qed.

Lemma GraphAction_to_aidx_canonical_witness :
  ∃ idx, GraphAction_to_aidx ctx_test d_CCC
           (mkGraphAction AddEdge (Some 2%Z) (Some 0%Z) None None) = Ok idx
         ∧ canonical ctx_test d_CCC idx.
Proof.
  destruct (GraphAction_to_aidx_canonical test_atoms 32 ctx_test g_CCC d_CCC
              (mkGraphAction AddEdge (Some 2%Z) (Some 0%Z) None None)
              eq_refl wf_g_CCC eq_refl legal_add_edge_2_0) as (idx & H1 & H2 & _).
  exists idx. auto.
Defined.

(** The row of a node action is the source as it is given: a new atom
    attached to a node numbered -7 is legal in the graph of two carbon
    atoms, and is encoded with the row -7. *)
Example AddNode_row_unbounded :
  legal ctx_default g_C_C
    (mkGraphAction AddNode (Some (-7)%Z) None (Some (VStr "C")) None)
  ∧ GraphAction_to_aidx ctx_default d_C_C
      (mkGraphAction AddNode (Some (-7)%Z) None (Some (VStr "C")) None)
    = Ok (1, -7, 1)%Z.
Proof.
  split; [|reflexivity].
  eapply legal_AddNode; [reflexivity | compute_done].
Qed.

(** ** The orientation of an edge action *)

Lemma tensor_add_comm (a b : list Z) : tensor_add a b = tensor_add b a.
Proof.
  unfold tensor_add. revert b. induction a as [|x a IH]; intros [|y b]; simpl; try done.
  rewrite IH. f_equal. lia.
Qed.

Lemma match_mask_absent (index : list (Z * Z)) (s t : Z) :
  (s, t) ∉ index → ∀ v, v ∈ match_mask index s t → v = 0%Z.
Proof.
  intros Hnin v. rewrite match_mask_b2z.
  intros (p & -> & Hp)%list_elem_of_fmap.
  rewrite bool_decide_eq_false_2; [done|]. by intros ->.
Qed.

Lemma argmax_mask_both_ways (es : list (Z * Z)) (s t : Z) :
  oriented_once es →
  (argmax (match_mask (flat_map both_ways es) s t) = Raise IndexError
   ∧ argmax (match_mask (flat_map both_ways es) t s) = Raise IndexError)
  ∨ ∃ p p', argmax (match_mask (flat_map both_ways es) s t) = Ok p
            ∧ argmax (match_mask (flat_map both_ways es) t s) = Ok p'
            ∧ (p `div` 2 = p' `div` 2)%Z.
Proof.
  intros Honce.
  destruct (decide ((s, t) ∈ flat_map both_ways es)) as [Hin|Hnin].
  - right. apply elem_of_both_ways_inv in Hin.
    assert (∃ k a b, es !! k = Some (a, b)
                     ∧ ((s, t) = (a, b) ∨ (s, t) = (b, a))) as (k & a & b & Hk & Hst).
    { destruct Hin as [H|H]; apply list_elem_of_lookup_1 in H as [k Hk];
        exists k; eauto 6. }
    destruct (find_both_ways_once es k a b s t Honce Hk Hst) as (p & Hp & Hdiv).
    destruct (find_both_ways_once es k a b t s Honce Hk) as (p' & Hp' & Hdiv').
    { destruct Hst as [[= -> ->]|[= -> ->]]; auto. }
    exists p, p'. rewrite (argmax_match_mask _ _ _ _ Hp), (argmax_match_mask _ _ _ _ Hp').
    repeat split; congruence.
  - assert (Hnin' : (t, s) ∉ flat_map both_ways es).
    { intros H. apply Hnin, elem_of_both_ways.
      apply elem_of_both_ways_inv in H. tauto. }
    destruct es as [|e es]; [by left|]. right. exists 0%Z, 0%Z.
    split; [|split; [|done]]; apply argmax_all_zero.
    + unfold match_mask. by destruct e.
    + by apply match_mask_absent.
    + unfold match_mask. by destruct e.
    + by apply match_mask_absent.
Qed.

(** X9. The encoder does not see the orientation of an edge action: AddEdge
    and SetEdgeAttr get the same index triple, or fail in the same way, with
    source and target exchanged. *)
Theorem GraphAction_to_aidx_orientation (ctx : Ctx) (g : nx.Graph) (d : Data)
    (a : GraphAction) :
  simple_graph g →
  graph_to_Data ctx g = Ok d →
  action a = AddEdge ∨ action a = SetEdgeAttr →
  GraphAction_to_aidx ctx d (swap_ends a) = GraphAction_to_aidx ctx d a.
Proof.
  intros Hg [He _]%graph_to_Data_indices Ha.
  destruct a as [act s t v k]; cbn [action] in Ha.
  unfold GraphAction_to_aidx, swap_ends. cbn [action source target value attr].
  rewrite (pair_tensor_swap s t).
  destruct (pair_tensor_cases s t) as [(x & y & -> & -> & Hx & Hy & Hp)|Hp];
    rewrite ?(pair_tensor_Some y x) by done; rewrite Hp;
    destruct Ha as [-> | ->];
    rewrite !decide_False, decide_True by done;
    cbn [mbind result_bind fst snd]; try reflexivity.
  - by rewrite tensor_add_comm.
  - rewrite He.
    destruct (argmax_mask_both_ways (nx.edges g) x y (edges_once g Hg))
      as [[H1 H2]|(p & p' & H1 & H2 & Hdiv)]; rewrite H1, H2;
      cbn [mbind result_bind]; [done | by rewrite Hdiv].
Qed.

Lemma GraphAction_to_aidx_orientation_witness :
  GraphAction_to_aidx ctx_test d_CCC
    (mkGraphAction SetEdgeAttr (Some 2%Z) (Some 1%Z) (Some (VBond DOUBLE)) (Some "type"))
  = GraphAction_to_aidx ctx_test d_CCC
      (mkGraphAction SetEdgeAttr (Some 1%Z) (Some 2%Z) (Some (VBond DOUBLE)) (Some "type")).
Proof.
  apply (GraphAction_to_aidx_orientation ctx_test g_CCC d_CCC
           (mkGraphAction SetEdgeAttr (Some 1%Z) (Some 2%Z) (Some (VBond DOUBLE)) (Some "type"))
           simple_g_CCC eq_refl).
  by right.
Defined.

(** ** The shape of the tensor form *)

Lemma py_set_len {A : Type} (l l' : list A) (i : Z) (a : A) :
  py_set l i a = Ok l' → len l' = len l.
Proof.
  unfold py_set, len.
  repeat case_match; intros [= <-]; by rewrite length_insert.
Qed.

Lemma py_get_elem {A : Type} (l : list A) (i : Z) (a : A) :
  py_get l i = Ok a → a ∈ l.
Proof.
  unfold py_get. repeat case_match; try done;
    intros ?%of_option_Ok; by eapply list_elem_of_lookup_2.
Qed.

Lemma set2_shape (m m' : list (list Z)) (i j v rows cols : Z) :
  set2 m i j v = Ok m' → well_shaped m rows cols → well_shaped m' rows cols.
Proof.
  unfold set2.
  intros (row & Hrow & (row' & Hrow' & Hm')%bind_Ok)%bind_Ok [Hlen Hall].
  split; [by rewrite (py_set_len _ _ _ _ Hm')|].
  assert (Hr' : len row' = cols).
  { rewrite (py_set_len _ _ _ _ Hrow').
    apply py_get_elem in Hrow. by apply (proj1 (Forall_forall _ _) Hall). }
  unfold py_set in Hm'. repeat case_match; try done;
    injection Hm' as <-; by apply Forall_insert.
Qed.

Lemma one_hot_shape (values : odict string (list pyval)) (attrs : list string)
    (slices : list Z) (ad : gmap string pyval) (rs : list Z)
    (m m' : list (list Z)) (rows cols : Z) :
  one_hot values attrs slices ad rs m = Ok m' →
  well_shaped m rows cols → well_shaped m' rows cols.
Proof.
  unfold one_hot. intros Hoh Hm.
  eapply (for_each_inv (λ m, well_shaped m rows cols)); [|exact Hm|exact Hoh].
  intros [k sl] s1 s2 _ H1 (idx & _ & Hloop)%bind_Ok.
  eapply (for_each_inv (λ m, well_shaped m rows cols)); [|exact H1|exact Hloop].
  intros r t1 t2 _ Ht1 Ht2. cbv beta in *. eapply set2_shape; eassumption.
Qed.

Lemma len_both_ways (es : list (Z * Z)) :
  len (flat_map both_ways es) = (2 * len es)%Z.
Proof.
  unfold len. induction es as [|[i j] es IH]; [done|].
  cbn [flat_map both_ways app length]. lia.
Qed.

Lemma zeros_shape (rows cols : Z) :
  (0 ≤ rows)%Z → (0 ≤ cols)%Z → well_shaped (zeros rows cols) rows cols.
Proof.
  intros Hr Hc. unfold zeros, well_shaped, len. rewrite length_replicate.
  split; [lia|]. apply Forall_replicate. rewrite length_replicate. lia.
Qed.

(** X10. The tensors of a graph with [n] nodes and [e] edges: [x] has
    [max(1, n)] rows of [num_node_dim] entries, [edge_attr] has [2 e] rows of
    [num_edge_dim] entries, and [edge_index] has [2 e] columns. *)
Theorem graph_to_Data_shape (atoms : list string) (n : Z) (ctx : Ctx)
    (g : nx.Graph) (d : Data) :
  init atoms n = Ok ctx →
  graph_to_Data ctx g = Ok d →
  well_shaped (x d) (Z.max 1 (len (nx.nodes g))) (num_node_dim ctx)
  ∧ well_shaped (edge_attr d) (2 * len (nx.edges g)) (num_edge_dim ctx)
  ∧ len (edge_index d) = (2 * len (nx.edges g))%Z.
Proof.
  intros [_ ->]%init_inv. unfold graph_to_Data.
  intros (x0 & Hx0 & (x1 & Hx1 & (ea & Hea & (ei & [-> _]%long_tensor_Ok
    & (nei & _ & [= <-])%bind_Ok)%bind_Ok)%bind_Ok)%bind_Ok)%bind_Ok.
  cbn [x edge_attr edge_index].
  assert (Hdim : (0 ≤ num_node_dim (tables atoms n))%Z)
    by (cbn [tables num_node_dim]; unfold len; lia).
  split; [|split].
  - eapply (for_each_inv (λ m, well_shaped m (Z.max 1 (len (nx.nodes g)))
                                 (num_node_dim (tables atoms n))));
      [| |exact Hx1].
    + intros [i nd] s1 s2 _ H1 (ad & _ & Hoh)%bind_Ok. cbv beta in *. eapply one_hot_shape; eassumption.
    + eapply set2_shape; [exact Hx0|]. apply zeros_shape; [lia | done].
  - replace (2 * len (nx.edges g))%Z with (len (nx.edges g) * 2)%Z by lia.
    eapply (for_each_inv (λ m, well_shaped m (len (nx.edges g) * 2)
                                 (num_edge_dim (tables atoms n))));
      [| |exact Hea].
    + intros [i e] s1 s2 _ H1 (ad & _ & Hoh)%bind_Ok. cbv beta in *. eapply one_hot_shape; eassumption.
    + apply zeros_shape; [unfold len; lia | done].
  - apply len_both_ways.
Qed.

Lemma graph_to_Data_shape_witness :
  well_shaped (x d_CCC) 3 18 ∧ well_shaped (edge_attr d_CCC) 4 4
  ∧ len (edge_index d_CCC) = 4%Z.
Proof.
  apply (graph_to_Data_shape test_atoms 32 ctx_test g_CCC d_CCC); reflexivity.
Defined.

(** ** When the tensor form exists *)

Lemma index_cases (vs : list pyval) (v : pyval) :
  (∃ i, index vs v = Ok i ∧ (0 ≤ i < len vs)%Z ∧ ∃ w, w ∈ vs ∧ py_eq v w = true)
  ∨ (index vs v = Raise ValueError ∧ ∀ w, w ∈ vs → py_eq v w = false).
Proof.
  destruct (index vs v) as [i|e] eqn:Hi.
  - left. exists i. split; [done|].
    apply index_Ok in Hi as (Hpos & w & Hw & Heq).
    split; [|exists w; split; [by eapply list_elem_of_lookup_2 | done]].
    apply lookup_lt_Some in Hw. unfold len. lia.
  - right. unfold index in Hi.
    destruct (find_from (py_eq v) 0 vs) eqn:Hf; [done|].
    simpl in Hi. injection Hi as <-. split; [done|].
    by apply (find_from_None (py_eq v) 0 vs).
Qed.

Section hot_positions_facts.
Variables (values : odict string (list pyval)) (size : Z)
          (ad : gmap string pyval).

Lemma hot_position_cases (ks : string * Z) :
  slot values size ks →
  ((∀ v, ad !! ks.1 = Some v →
      ∃ vs w, od_get ks.1 values = Some vs ∧ w ∈ vs ∧ py_eq v w = true)
   ∧ ∃ p, hot_position values ad ks = Ok p ∧ (0 ≤ p < size)%Z)
  ∨ (¬ (∀ v, ad !! ks.1 = Some v →
          ∃ vs w, od_get ks.1 values = Some vs ∧ w ∈ vs ∧ py_eq v w = true)
     ∧ hot_position values ad ks = Raise ValueError).
Proof.
  intros (vs & Hvs & Hsl & Hlen & Hsize).
  unfold hot_position, attr_index, od_item.
  destruct (ad !! ks.1) as [v|] eqn:Hv.
  - rewrite Hvs. simpl.
    destruct (index_cases vs v) as [(i & Hi & Hrange & w & Hw & Heq)|[Hi Hnone]];
      rewrite Hi; simpl.
    + left. split; [|exists (ks.2 + i)%Z; split; [done | lia]].
      intros v' [= <-]. eauto.
    + right. split; [|done]. intros H.
      destruct (H v eq_refl) as (vs' & w & Hvs' & Hw & Heq).
      assert (vs' = vs) as -> by congruence. by rewrite (Hnone w Hw) in Heq.
  - left. split; [done|]. exists (ks.2 + 0)%Z. split; [done | lia].
Qed.

Lemma hot_positions_cases (kss : list (string * Z)) :
  Forall (slot values size) kss →
  (values_known values (map fst kss) ad
   ∧ ∃ ps, mapM (hot_position values ad) kss = Ok ps
           ∧ Forall (λ p, 0 ≤ p < size)%Z ps)
  ∨ (¬ values_known values (map fst kss) ad
     ∧ mapM (hot_position values ad) kss = Raise ValueError).
Proof.
  induction 1 as [|ks kss Hks Hkss IH]; simpl.
  - left. split; [by intros k v ?%elem_of_nil | eauto].
  - destruct (hot_position_cases ks Hks) as [[Hk (p & Hp & Hrange)]|[Hk Hp]];
      rewrite Hp; simpl.
    + destruct IH as [[Hknown (ps & Hps & Hall)]|[Hunknown Hps]]; rewrite Hps; simpl.
      * left. split; [|eauto].
        intros k v [->|Hin]%elem_of_cons Hv; [by apply Hk | by apply Hknown].
      * right. split; [|done]. intros H. apply Hunknown.
        intros k v Hin. apply H. by right.
    + right. split; [|done]. intros H. apply Hk. intros v. apply H. left.
Qed.
End hot_positions_facts.

Lemma set2_total (m : list (list Z)) (i j v rows cols : Z) :
  well_shaped m rows cols → (0 ≤ i < rows)%Z → (0 ≤ j < cols)%Z →
  ∃ m', set2 m i j v = Ok m'.
Proof.
  intros [Hlen Hall] Hi Hj. unfold set2, len in *.
  destruct (lookup_lt_is_Some_2 m (Z.to_nat i)) as [row Hrow]; [lia|].
  rewrite py_get_nonneg, Hrow by lia. simpl.
  assert (Hr : len row = cols).
  { apply (proj1 (Forall_forall _ _) Hall). by eapply list_elem_of_lookup_2. }
  unfold py_set, len in *.
  rewrite (proj2 (Z.leb_le 0 j)) by lia.
  rewrite (proj2 (Z.ltb_lt j _)) by lia. simpl.
  rewrite (proj2 (Z.leb_le 0 i)) by lia.
  rewrite (proj2 (Z.ltb_lt i _)) by lia. eauto.
Qed.

Lemma rows_loop_total (rs : list Z) (j : Z) (m : list (list Z)) (rows cols : Z) :
  well_shaped m rows cols → Forall (λ r, 0 ≤ r < rows)%Z rs → (0 ≤ j < cols)%Z →
  ∃ m', for_each rs (λ i m, set2 m i j 1) m = Ok m' ∧ well_shaped m' rows cols.
Proof.
  intros Hm Hrs Hj. revert m Hm.
  induction Hrs as [|r rs Hr Hrs IH]; intros m Hm; simpl; [eauto|].
  destruct (set2_total m r j 1 rows cols Hm Hr Hj) as [m1 Hm1].
  rewrite Hm1. simpl. apply IH. by eapply set2_shape.
Qed.

(** One pass over the attributes of a node or an edge: it succeeds when
    every position can be computed, and fails with the exception of the
    first position that cannot. *)
Lemma one_hot_outcome (values : odict string (list pyval))
    (attrs : list string) (slices : list Z) (ad : gmap string pyval)
    (rs : list Z) (m : list (list Z)) (size rows cols : Z) :
  Forall (slot values size) (zip attrs slices) → (size ≤ cols)%Z →
  well_shaped m rows cols → Forall (λ r, 0 ≤ r < rows)%Z rs →
  match mapM (hot_position values ad) (zip attrs slices) with
  | Ok _ => ∃ m', one_hot values attrs slices ad rs m = Ok m'
                  ∧ well_shaped m' rows cols
  | Raise e => one_hot values attrs slices ad rs m = Raise e
  end.
Proof.
  intros Hslots Hsize Hm Hrs. unfold one_hot.
  revert m Hm. induction Hslots as [|[k sl] kss Hks Hkss IH]; intros m Hm; simpl.
  - eauto.
  - fold (attr_index values ad k).
    change (hot_position values ad (k, sl))
      with (idx ← attr_index values ad k; Ok (sl + idx)%Z).
    destruct (attr_index values ad k) as [idx|e] eqn:Hidx; simpl; [|done].
    assert (Hrange : (0 ≤ sl + idx < cols)%Z).
    { destruct (hot_position_cases values size ad (k, sl) Hks)
        as [[_ (p & Hp & Hr)]|[_ Hp]]; unfold hot_position in Hp;
        simpl in Hp; rewrite Hidx in Hp; simpl in Hp; [|done].
      injection Hp as <-. lia. }
    destruct (rows_loop_total rs (sl + idx) m rows cols Hm Hrs Hrange)
      as (m1 & Hm1 & Hshape1).
    rewrite Hm1. simpl. specialize (IH m1 Hshape1).
    destruct (mapM (hot_position values ad) kss); simpl; exact IH.
Qed.

Lemma for_each_outcome {A S : Type} (Inv : S → Prop) (P : A → Prop)
    (body : A → S → result S) (l : list A) (s0 : S) :
  (∀ a, a ∈ l →
     (P a ∧ ∀ s, Inv s → ∃ s', body a s = Ok s' ∧ Inv s')
     ∨ (¬ P a ∧ ∀ s, Inv s → body a s = Raise ValueError)) →
  Inv s0 →
  (Forall P l ∧ ∃ s, for_each l body s0 = Ok s ∧ Inv s)
  ∨ (¬ Forall P l ∧ for_each l body s0 = Raise ValueError).
Proof.
  revert s0. induction l as [|a l IH]; intros s0 Hbody H0; simpl.
  - left. split; [constructor | eauto].
  - destruct (Hbody a) as [[Ha Hok]|[Ha Hraise]]; [left|..].
    + destruct (Hok s0 H0) as (s1 & Hs1 & H1). rewrite Hs1. simpl.
      destruct (IH s1) as [[Hall Hs]|[Hnall Hs]]; [|done|..].
      * intros b Hb. apply Hbody. by right.
      * left. split; [by constructor | done].
      * right. split; [|done]. by intros [_ ?]%Forall_cons.
    + right. rewrite (Hraise s0 H0). split; [|done]. by intros [? _]%Forall_cons.
Qed.

Lemma elem_of_enumerate_from {A : Type} (l : list A) (j i : Z) (a : A) :
  (i, a) ∈ enumerate_from j l ↔
  (j ≤ i)%Z ∧ l !! Z.to_nat (i - j) = Some a.
Proof.
  revert j. induction l as [|b l IH]; intros j; simpl.
  - split; [by intros ?%elem_of_nil | by intros [_ ?]].
  - rewrite elem_of_cons, IH. split.
    + intros [[= -> ->]|[Hj Hl]].
      * split; [lia|]. by rewrite Z.sub_diag.
      * split; [lia|]. replace (Z.to_nat (i - j)) with (S (Z.to_nat (i - (j + 1)))) by lia.
        done.
    + intros [Hj Hl]. destruct (decide (i = j)) as [->|Hne].
      * left. rewrite Z.sub_diag in Hl. by injection Hl as ->.
      * right. split; [lia|].
        replace (Z.to_nat (i - j)) with (S (Z.to_nat (i - (j + 1)))) in Hl by lia.
        done.
Qed.

Lemma elem_of_enumerate {A : Type} (l : list A) (i : Z) (a : A) :
  (i, a) ∈ enumerate l ↔ (0 ≤ i < len l)%Z ∧ l !! Z.to_nat i = Some a.
Proof.
  unfold enumerate. rewrite elem_of_enumerate_from, Z.sub_0_r. unfold len.
  split; [|tauto]. intros [Hi Hl]. split; [|done].
  apply lookup_lt_Some in Hl. lia.
Qed.

Lemma Forall_enumerate {A : Type} (P : A → Prop) (l : list A) :
  Forall (λ ia, P ia.2) (enumerate l) ↔ ∀ a, a ∈ l → P a.
Proof.
  rewrite Forall_forall. split.
  - intros H a [i Hi]%list_elem_of_lookup_1. apply (H (Z.of_nat i, a)).
    apply elem_of_enumerate. rewrite Nat2Z.id. split; [|done].
    apply lookup_lt_Some in Hi. unfold len. lia.
  - intros H [i a] [_ Hi]%elem_of_enumerate. apply H.
    by eapply list_elem_of_lookup_2.
Qed.

Lemma py_set_total {A : Type} (l : list A) (i : Z) (a : A) :
  (- len l ≤ i < len l)%Z → ∃ l', py_set l i a = Ok l'.
Proof.
  intros Hi. unfold py_set.
  destruct (Z.leb_spec 0 i).
  - rewrite (proj2 (Z.ltb_lt i (len l))) by lia. eauto.
  - rewrite (proj2 (Z.leb_le (- len l) i)) by lia. eauto.
Qed.

Lemma set2_last_total (m : list (list Z)) (v rows cols : Z) :
  well_shaped m rows cols → (1 ≤ rows)%Z → (1 ≤ cols)%Z →
  ∃ m', set2 m 0 (-1) v = Ok m' ∧ well_shaped m' rows cols.
Proof.
  intros Hm Hr Hc. assert (H := Hm). destruct H as [Hlen Hall]. unfold len in Hlen.
  destruct (lookup_lt_is_Some_2 m 0) as [row Hrow]; [lia|].
  assert (Hrl : len row = cols).
  { apply (proj1 (Forall_forall _ _) Hall). by eapply list_elem_of_lookup_2. }
  assert (∃ m', set2 m 0 (-1) v = Ok m') as [m' Hm'].
  { unfold set2. rewrite py_get_nonneg by lia.
    change (Z.to_nat 0) with 0%nat. rewrite Hrow.
    cbn [of_option mbind result_bind].
    destruct (py_set_total row (-1) v) as [row' Hrow']; [lia|].
    rewrite Hrow'. cbn [mbind result_bind].
    apply py_set_total. unfold len. lia. }
  exists m'. split; [done|]. by eapply set2_shape.
Qed.

Lemma node_data_total (g : nx.Graph) (n : Z) :
  n ∈ nx.nodes g → ∃ ad, nx.node_data g n = Ok ad.
Proof.
  intros [ad Had]%od_get_is_Some. exists ad. unfold nx.node_data, od_item.
  by rewrite Had.
Qed.

Lemma edge_data_total (g : nx.Graph) (e : Z * Z) :
  simple_graph g → e ∈ nx.edges g → ∃ ad, nx.edge_data g e = Ok ad.
Proof.
  intros [_ Hk _]. destruct e as [u v].
  intros (_ & nbrs & Hin & [ad Had]%od_get_is_Some)%elem_of_edges_from.
  exists ad. unfold nx.edge_data, od_item. simpl.
  rewrite (od_get_elem _ _ _ Hk Hin). simpl. by rewrite Had.
Qed.

Lemma slots_tables (atoms : list string) (n : Z) :
  atoms ≠ [] →
  Forall (slot (atom_attr_values (tables atoms n)) (atom_attr_size (tables atoms n)))
         (zip (atom_attrs (tables atoms n)) (atom_attr_slice (tables atoms n)))
  ∧ Forall (slot (bond_attr_values (tables atoms n)) (bond_attr_size (tables atoms n)))
           (zip (bond_attrs (tables atoms n)) (bond_attr_slice (tables atoms n))).
Proof.
  intros Hne. destruct atoms as [|a l]; [done|].
  split; cbn [tables atom_attrs atom_attr_slice bond_attrs bond_attr_slice zip];
    repeat constructor; eexists; (split; [reflexivity|]);
    cbn [tables atom_attr_size bond_attr_size snd]; unfold len; simpl; lia.
Qed.

Lemma one_hot_decides (values : odict string (list pyval))
    (attrs : list string) (slices : list Z) (ad : gmap string pyval)
    (rs : list Z) (size rows cols : Z) :
  map fst (zip attrs slices) = attrs →
  Forall (slot values size) (zip attrs slices) → (size ≤ cols)%Z →
  Forall (λ r, 0 ≤ r < rows)%Z rs →
  (values_known values attrs ad
   ∧ ∀ m, well_shaped m rows cols →
       ∃ m', one_hot values attrs slices ad rs m = Ok m' ∧ well_shaped m' rows cols)
  ∨ (¬ values_known values attrs ad
     ∧ ∀ m, well_shaped m rows cols →
         one_hot values attrs slices ad rs m = Raise ValueError).
Proof.
  intros Hfst Hslots Hsize Hrs.
  destruct (hot_positions_cases values size ad _ Hslots)
    as [[Hknown (ps & Hps & _)]|[Hunknown Hps]]; rewrite Hfst in *; [left|right];
    (split; [done|]); intros m Hm;
    pose proof (one_hot_outcome values attrs slices ad rs m size rows cols
                  Hslots Hsize Hm Hrs) as H;
    by rewrite Hps in H.
Qed.

Lemma Forall_both_ways (P : Z → Prop) (es : list (Z * Z)) :
  Forall (λ p, P p.1 ∧ P p.2) (flat_map both_ways es)
  ↔ Forall (λ p, P p.1 ∧ P p.2) es.
Proof.
  induction es as [|[i j] es IH]; [done|].
  cbn [flat_map both_ways app]. rewrite !Forall_cons, IH. cbn [fst snd]. tauto.
Qed.

(** A graph whose nodes are all numbered within 64 bits has index tensors
    that torch accepts. *)
Lemma nodes_fit (g : nx.Graph) :
  simple_graph g →
  Forall (λ n, in_int64 n = true) (nx.nodes g) → indices_fit g.
Proof.
  intros Hg Hall. pose proof (proj1 (Forall_forall _ _) Hall) as Hn.
  assert (Hends : ∀ u v, nx.has_edge g u v = true → u ∈ nx.nodes g).
  { intros u v Huv. unfold nx.nodes. rewrite <- (wf_keys g (sg_wf g Hg)).
    apply od_get_is_Some. unfold nx.has_edge in Huv.
    by destruct (od_get u (nx._adj g)). }
  split; apply Forall_forall; intros [u v] Huv; cbn [fst snd].
  - apply (edges_sound g u v Hg) in Huv.
    pose proof (wf_sym g (sg_wf g Hg) u v Huv) as Hvu.
    split; apply Hn; eauto.
  - apply (complement_edges_sound g u v Hg) in Huv as (_ & Hu & Hv & _).
    split; by apply Hn.
Qed.

(** X11. [graph_to_Data] returns the tensors of a graph exactly when every
    attribute value stored in a node or an edge equals, as Python compares
    values, one of the values listed for its attribute, and the node numbers
    that go into the index tensors fit in 64 bits, which they do when every
    node number does. When a stored value is not listed, the search for it
    raises ValueError; when the values are listed and a node number does
    not fit, torch refuses to build the index tensor. *)
Theorem graph_to_Data_outcome (atoms : list string) (n : Z) (ctx : Ctx)
    (g : nx.Graph) :
  init atoms n = Ok ctx →
  simple_graph g →
  (graph_known ctx g → indices_fit g → ∃ d, graph_to_Data ctx g = Ok d)
  ∧ (¬ graph_known ctx g → graph_to_Data ctx g = Raise ValueError)
  ∧ (graph_known ctx g → ¬ indices_fit g →
     graph_to_Data ctx g = Raise TorchError)
  ∧ (Forall (λ n, in_int64 n = true) (nx.nodes g) → indices_fit g).
Proof.
  intros [Hne ->]%init_inv Hg.
  destruct (slots_tables atoms n Hne) as [Hsa Hsb].
  unfold graph_to_Data, graph_known.
  set (R := Z.max 1 (len (nx.nodes g))).
  set (C := num_node_dim (tables atoms n)).
  assert (HC : (1 ≤ C)%Z) by (unfold C; cbn [tables num_node_dim]; unfold len; lia).
  destruct (set2_last_total (zeros R C) (Z.b2z (len (nx.nodes g) =? 0)%Z) R C)
    as (x0 & Hx0 & Hshape0); [apply zeros_shape; lia | lia | done |].
  rewrite Hx0. cbn [mbind result_bind].
  set (PA := λ ia : Z * Z, ∀ ad, nx.node_data g ia.2 = Ok ad →
    values_known (atom_attr_values (tables atoms n)) (atom_attrs (tables atoms n)) ad).
  set (PB := λ ie : Z * (Z * Z), ∀ ad, nx.edge_data g ie.2 = Ok ad →
    values_known (bond_attr_values (tables atoms n)) (bond_attrs (tables atoms n)) ad).
  match goal with
  | |- context [for_each (enumerate (nx.nodes g)) ?body x0] =>
      destruct (for_each_outcome (λ m, well_shaped m R C) PA body
                  (enumerate (nx.nodes g)) x0) as [[HA (x1 & Hx1 & Hshape1)]|[HA Hx1]]
  end.
  { intros [i nd] [Hi Hl]%elem_of_enumerate.
    destruct (node_data_total g nd) as [ad Had]; [by eapply list_elem_of_lookup_2|].
    destruct (one_hot_decides (atom_attr_values (tables atoms n))
                (atom_attrs (tables atoms n)) (atom_attr_slice (tables atoms n))
                ad [i] (atom_attr_size (tables atoms n)) R C)
      as [[Hknown Hok]|[Hunknown Hraise]].
    - reflexivity.
    - exact Hsa.
    - unfold C. cbn [tables num_node_dim atom_attr_size]. lia.
    - repeat constructor; unfold R; lia.
    - left. split.
      + intros ad' Had'. simpl in Had'. rewrite Had in Had'.
        by injection Had' as <-.
      + intros s Hs. rewrite Had. cbn [mbind result_bind]. by apply Hok.
    - right. split.
      + intros H. apply Hunknown. by apply H.
      + intros s Hs. rewrite Had. cbn [mbind result_bind]. by apply Hraise. }
  { done. }
  2:{ rewrite Hx1.
      assert (Hno : ¬ ((∀ n0 ad, n0 ∈ nx.nodes g → nx.node_data g n0 = Ok ad →
                          values_known (atom_attr_values (tables atoms n))
                            (atom_attrs (tables atoms n)) ad)
                       ∧ (∀ e ad, e ∈ nx.edges g → nx.edge_data g e = Ok ad →
                          values_known (bond_attr_values (tables atoms n))
                            (bond_attrs (tables atoms n)) ad))).
      { intros [Hnodes _]. apply HA.
        apply (Forall_enumerate (λ nd, ∀ ad, nx.node_data g nd = Ok ad → _)).
        intros nd Hnd ad Had. by apply (Hnodes nd). }
      split; [tauto|]. split; [done|]. split; [tauto|]. by apply nodes_fit. }
  rewrite Hx1. cbn [mbind result_bind].
  set (E := (len (nx.edges g) * 2)%Z).
  set (D := num_edge_dim (tables atoms n)).
  match goal with
  | |- context [for_each (enumerate (nx.edges g)) ?body (zeros E D)] =>
      destruct (for_each_outcome (λ m, well_shaped m E D) PB body
                  (enumerate (nx.edges g)) (zeros E D))
        as [[HB (ea & Hea & Hshapeb)]|[HB Hea]]
  end.
  { intros [i e] [Hi Hl]%elem_of_enumerate.
    destruct (edge_data_total g e Hg) as [ad Had]; [by eapply list_elem_of_lookup_2|].
    destruct (one_hot_decides (bond_attr_values (tables atoms n))
                (bond_attrs (tables atoms n)) (bond_attr_slice (tables atoms n))
                ad [i * 2; i * 2 + 1]%Z (bond_attr_size (tables atoms n)) E D)
      as [[Hknown Hok]|[Hunknown Hraise]].
    - reflexivity.
    - exact Hsb.
    - done.
    - repeat constructor; unfold E; lia.
    - left. split.
      + intros ad' Had'. simpl in Had'. rewrite Had in Had'.
        by injection Had' as <-.
      + intros s Hs. rewrite Had. cbn [mbind result_bind]. by apply Hok.
    - right. split.
      + intros H. apply Hunknown. by apply H.
      + intros s Hs. rewrite Had. cbn [mbind result_bind]. by apply Hraise. }
  { apply zeros_shape; [unfold E, len; lia | done]. }
  - rewrite Hea. cbn [mbind result_bind].
    assert (Hknown :
      (∀ n0 ad, n0 ∈ nx.nodes g → nx.node_data g n0 = Ok ad →
         values_known (atom_attr_values (tables atoms n))
           (atom_attrs (tables atoms n)) ad)
      ∧ (∀ e ad, e ∈ nx.edges g → nx.edge_data g e = Ok ad →
         values_known (bond_attr_values (tables atoms n))
           (bond_attrs (tables atoms n)) ad)).
    { split.
      + intros nd ad Hnd. revert ad.
        by apply (proj1 (Forall_enumerate (λ nd, ∀ ad, nx.node_data g nd = Ok ad → _) _) HA).
      + intros e ad He. revert ad.
        by apply (proj1 (Forall_enumerate (λ e, ∀ ad, nx.edge_data g e = Ok ad → _) _) HB). }
    unfold indices_fit.
    destruct (long_tensor_cases (flat_map both_ways (nx.edges g)))
      as [[He64 ->]|[He64 ->]]; cbn [mbind result_bind];
      rewrite (Forall_both_ways (λ z, in_int64 z = true)) in He64.
    + destruct (long_tensor_cases (nx.edges (nx.complement g)))
        as [[Hn64 ->]|[Hn64 ->]]; cbn [mbind result_bind].
      * split; [eauto|]. split; [done|]. split; [tauto|]. by apply nodes_fit.
      * split; [tauto|]. split; [done|]. split; [done|]. by apply nodes_fit.
    + split; [tauto|]. split; [done|]. split; [done|]. by apply nodes_fit.
  - rewrite Hea. split; [|split; [|split]].
    + intros [_ Hedges]. exfalso. apply HB.
      apply (Forall_enumerate (λ e, ∀ ad, nx.edge_data g e = Ok ad → _)).
      intros e He ad Had. by apply (Hedges e).
    + done.
    + intros [_ Hedges]. exfalso. apply HB.
      apply (Forall_enumerate (λ e, ∀ ad, nx.edge_data g e = Ok ad → _)).
      intros e He ad Had. by apply (Hedges e).
    + by apply nodes_fit.
Qed.

Lemma graph_to_Data_outcome_witness :
  graph_to_Data ctx_test g_S = Raise ValueError.
Proof.
  refine (proj1 (proj2 (graph_to_Data_outcome test_atoms 32 ctx_test g_S eq_refl _)) _).
  - apply simple_add_node, simple_empty.
  - intros [H _].
    destruct (H 0%Z {[ "v" := VStr "S" ]}) with (k := "v") (v := VStr "S")
      as (vs & w & Hvs & Hw & Heq); [compute_done | reflexivity | compute_done | reflexivity |].
    injection Hvs as <-.
    repeat (apply elem_of_cons in Hw as [->|Hw]; [discriminate Heq|]).
    by apply elem_of_nil in Hw.
Defined.

(** ** The rows of the node features *)

Lemma if_either {A : Type} (P Q R : Prop) `{!Decision P, !Decision Q, !Decision R}
    (a b : A) :
  (R ↔ P ∨ Q) →
  (if bool_decide P then a else if bool_decide Q then a else b)
  = if bool_decide R then a else b.
Proof. intros HR. repeat case_bool_decide; try done; tauto. Qed.

Lemma set2_exact (m m' : list (list Z)) (i j v : Z) :
  (0 ≤ i)%Z → (0 ≤ j)%Z → set2 m i j v = Ok m' →
  ∀ r c, (0 ≤ r)%Z → (0 ≤ c)%Z →
    entry m' r c = if bool_decide (r = i ∧ c = j) then Some v else entry m r c.
Proof.
  intros Hi Hj. unfold set2. rewrite py_get_nonneg by done.
  intros (row & Hrow%of_option_Ok & (row' & Hrow' & Hm')%bind_Ok)%bind_Ok r c Hr Hc.
  apply py_set_nonneg in Hrow' as [Hjlt ->]; [|done].
  apply py_set_nonneg in Hm' as [Hilt ->]; [|done].
  unfold entry. case_bool_decide as Hrc.
  - destruct Hrc as [-> ->]. rewrite list_lookup_insert_eq by done. simpl.
    by rewrite list_lookup_insert_eq.
  - destruct (decide (Z.to_nat i = Z.to_nat r)) as [Heq|Hne].
    + rewrite <- Heq, Hrow, list_lookup_insert_eq by done. simpl.
      rewrite list_lookup_insert_ne; [done|]. intros Hjc. apply Hrc. lia.
    + by rewrite list_lookup_insert_ne.
Qed.

Lemma rows_loop_exact (rs : list Z) (j : Z) (m m' : list (list Z)) :
  Forall (λ r, 0 ≤ r)%Z rs → (0 ≤ j)%Z →
  for_each rs (λ i m, set2 m i j 1) m = Ok m' →
  ∀ r c, (0 ≤ r)%Z → (0 ≤ c)%Z →
    entry m' r c = if bool_decide (r ∈ rs ∧ c = j) then Some 1%Z else entry m r c.
Proof.
  intros Hrs Hj. revert m. induction Hrs as [|r0 rs Hr0 Hrs IH]; intros m; cbn [for_each].
  - intros [= <-] r c _ _. rewrite bool_decide_eq_false_2; [done|].
    by intros [?%elem_of_nil _].
  - intros (m1 & H1 & Hrest)%bind_Ok r c Hr Hc.
    rewrite (IH m1 Hrest r c Hr Hc), (set2_exact _ _ _ _ _ Hr0 Hj H1 r c Hr Hc).
    apply if_either. rewrite elem_of_cons. tauto.
Qed.

Lemma one_hot_exact (values : odict string (list pyval)) (attrs : list string)
    (slices : list Z) (ad : gmap string pyval) (rs : list Z)
    (m m' : list (list Z)) :
  Forall (λ sl, 0 ≤ sl)%Z slices → Forall (λ r, 0 ≤ r)%Z rs →
  one_hot values attrs slices ad rs m = Ok m' →
  ∃ ps, hot_positions values attrs slices ad = Ok ps
    ∧ ∀ r c, (0 ≤ r)%Z → (0 ≤ c)%Z →
        entry m' r c
        = if bool_decide (r ∈ rs ∧ c ∈ ps) then Some 1%Z else entry m r c.
Proof.
  intros Hsl Hrs. unfold one_hot, hot_positions.
  revert attrs m. induction Hsl as [|sl slices Hsl0 Hsl IH]; intros attrs m.
  - destruct attrs; simpl; intros [= <-]; exists []; (split; [done|]);
      intros r c _ _; rewrite bool_decide_eq_false_2; try done;
      by intros [_ ?%elem_of_nil].
  - destruct attrs as [|k attrs]; simpl.
    { intros [= <-]. exists []. split; [done|]. intros r c _ _.
      rewrite bool_decide_eq_false_2; [done|]. by intros [_ ?%elem_of_nil]. }
    fold (attr_index values ad k).
    intros (m1 & (idx & Hidx & Hloop)%bind_Ok & Hrest)%bind_Ok.
    rewrite Hidx. simpl.
    assert (Hidx0 : (0 ≤ idx)%Z).
    { unfold attr_index in Hidx. destruct (ad !! k); [|by injection Hidx as <-].
      apply bind_Ok in Hidx as (vs & _ & Hi). by apply index_Ok in Hi as [? _]. }
    destruct (IH attrs m1 Hrest) as (ps & Hps & Hexact).
    rewrite Hps. simpl. eexists. split; [done|]. intros r c Hr Hc.
    rewrite (Hexact r c Hr Hc),
      (rows_loop_exact rs (sl + idx) m m1 Hrs ltac:(lia) Hloop r c Hr Hc).
    apply if_either. rewrite elem_of_cons. tauto.
Qed.

Lemma hot_positions_mapM (values : odict string (list pyval))
    (attrs : list string) (slices : list Z) (ad : gmap string pyval) :
  hot_positions values attrs slices ad
  = mapM (hot_position values ad) (zip attrs slices).
Proof.
  unfold hot_positions. induction (zip attrs slices) as [|[k sl] kss IH]; [done|].
  cbn [mapM]. by rewrite IH.
Qed.

Lemma entry_zeros (rows cols r c : Z) :
  (0 ≤ r < rows)%Z → (0 ≤ c < cols)%Z → entry (zeros rows cols) r c = Some 0%Z.
Proof.
  intros Hr Hc. unfold entry, zeros.
  rewrite lookup_replicate_2 by lia. simpl. by rewrite lookup_replicate_2 by lia.
Qed.

(** Writing a zero into a matrix of zeros changes nothing. *)
Lemma set2_zeros_last (rows cols : Z) :
  (1 ≤ rows)%Z → (1 ≤ cols)%Z →
  set2 (zeros rows cols) 0 (-1) 0 = Ok (zeros rows cols).
Proof.
  intros Hr Hc. unfold set2, zeros. rewrite py_get_nonneg by lia.
  change (Z.to_nat 0) with 0%nat. rewrite lookup_replicate_2 by lia.
  cbn [of_option mbind result_bind]. unfold py_set at 2. unfold len.
  rewrite length_replicate.
  destruct (Z.leb_spec 0 (-1)) as [?|_]; [lia|].
  destruct (Z.leb_spec (- Z.of_nat (Z.to_nat cols)) (-1)) as [_|?]; [|lia].
  rewrite list_insert_id by (by rewrite lookup_replicate_2 by lia).
  cbn [mbind result_bind]. unfold py_set, len. rewrite length_replicate.
  destruct (Z.leb_spec 0 0) as [_|?]; [|lia].
  destruct (Z.ltb_spec 0 (Z.of_nat (Z.to_nat rows))) as [_|?]; [|lia].
  change (Z.to_nat 0) with 0%nat.
  by rewrite list_insert_id by (by rewrite lookup_replicate_2 by lia).
Qed.

(** A loop over [enumerate(l)] whose pass for element [idx] writes ones
    into rows of its own: at the end these rows hold what that pass wrote,
    and every other row is as it was. *)
Section enumerate_exact.
Context {A : Type}.
Variable body : Z * A → list (list Z) → result (list (list Z)).
Variable rows_of : Z → list Z.
Variable hot : A → result (list Z).
Hypothesis body_exact : ∀ idx a m m',
  (0 ≤ idx)%Z → body (idx, a) m = Ok m' →
  ∃ ps, hot a = Ok ps
    ∧ ∀ r c, (0 ≤ r)%Z → (0 ≤ c)%Z →
        entry m' r c
        = if bool_decide (r ∈ rows_of idx ∧ c ∈ ps) then Some 1%Z else entry m r c.
Hypothesis rows_apart : ∀ i i' r, i ≠ i' → r ∈ rows_of i → r ∉ rows_of i'.

Lemma enumerate_exact (l : list A) (j : Z) (m0 m : list (list Z)) :
  (0 ≤ j)%Z →
  for_each (enumerate_from j l) body m0 = Ok m →
  (∀ r c, (0 ≤ r)%Z → (0 ≤ c)%Z →
     (∀ i, (i < length l)%nat → r ∉ rows_of (j + Z.of_nat i)) →
     entry m r c = entry m0 r c)
  ∧ ∀ i a, l !! i = Some a →
      ∃ ps, hot a = Ok ps
        ∧ ∀ r c, r ∈ rows_of (j + Z.of_nat i) → (0 ≤ r)%Z → (0 ≤ c)%Z →
            entry m r c = if bool_decide (c ∈ ps) then Some 1%Z else entry m0 r c.
Proof.
  revert j m0. induction l as [|a l IH]; intros j m0 Hj; cbn [enumerate_from for_each].
  - intros [= <-]. split; [done | by intros i a ?].
  - intros (m1 & (ps & Hps & H1)%body_exact & Hrest)%bind_Ok; [|done].
    destruct (IH (j + 1)%Z m1) as [Hskip Hall]; [lia|done|]. split.
    + intros r c Hr Hc Hout. rewrite Hskip, H1 by first
        [ done
        | intros i Hi; replace (j + 1 + Z.of_nat i)%Z with (j + Z.of_nat (S i))%Z
            by lia; apply Hout; simpl; lia ].
      rewrite bool_decide_eq_false_2; [done|]. intros [Hin _].
      apply (Hout 0%nat); [simpl; lia | by rewrite Z.add_0_r].
    + intros [|i] b Hb; simpl in Hb.
      * injection Hb as <-. exists ps. split; [done|]. intros r c Hin Hr Hc.
        rewrite Z.add_0_r in Hin. rewrite Hskip, H1; [|done..|].
        -- destruct (decide (c ∈ ps)) as [Hc'|Hc'].
           ++ by rewrite !bool_decide_eq_true_2.
           ++ rewrite !bool_decide_eq_false_2; [done..|]. by intros [_ ?].
        -- intros i _. apply (rows_apart j); [lia | done].
      * destruct (Hall i b Hb) as (ps' & Hps' & Hrows). exists ps'.
        split; [done|]. intros r c Hin Hr Hc.
        replace (j + Z.of_nat (S i))%Z with (j + 1 + Z.of_nat i)%Z in Hin by lia.
        rewrite (Hrows r c Hin Hr Hc), H1 by done.
        rewrite (bool_decide_eq_false_2 (r ∈ rows_of j ∧ c ∈ ps)); [done|].
        intros [Hin' _]. revert Hin'. apply (rows_apart (j + 1 + Z.of_nat i)); [lia | done].
Qed.
End enumerate_exact.

(** X12. In the tensors of a graph, the row of a node is made of ones and
    zeros: the ones stand, for every attribute of an atom, at the start of
    its block plus the place of the stored value in the attribute's list
    (place 0 when the node does not store the attribute), all within the
    blocks, so that the last position, which marks the empty graph, is 0;
    every other position of the row is 0. *)
Theorem x_rows_exact (atoms : list string) (n : Z) (ctx : Ctx) (g : nx.Graph)
    (d : Data) (i : nat) (nd : Z) :
  init atoms n = Ok ctx →
  graph_to_Data ctx g = Ok d →
  nx.nodes g !! i = Some nd →
  ∃ ad ps,
    nx.node_data g nd = Ok ad
    ∧ hot_positions (atom_attr_values ctx) (atom_attrs ctx) (atom_attr_slice ctx) ad
      = Ok ps
    ∧ Forall (λ p, 0 ≤ p < atom_attr_size ctx)%Z ps
    ∧ ∀ c, (0 ≤ c < num_node_dim ctx)%Z →
        entry (x d) (Z.of_nat i) c = Some (if bool_decide (c ∈ ps) then 1 else 0)%Z.
Proof.
  intros [Hne ->]%init_inv. unfold graph_to_Data.
  intros (x0 & Hx0 & (x1 & Hx1 & (ea & Hea & (ei & _ & (nei & _ & [= <-])%bind_Ok)%bind_Ok)%bind_Ok)%bind_Ok)%bind_Ok Hnd.
  cbn [x].
  assert (Hlen : (Z.of_nat i < len (nx.nodes g))%Z).
  { apply lookup_lt_Some in Hnd. unfold len. lia. }
  assert (Hdim : (1 ≤ num_node_dim (tables atoms n))%Z)
    by (cbn [tables num_node_dim]; unfold len; lia).
  replace (len (nx.nodes g) =? 0)%Z with false in Hx0 by (symmetry; apply Z.eqb_neq; lia).
  cbn [Z.b2z] in Hx0. rewrite set2_zeros_last in Hx0 by lia. injection Hx0 as <-.
  eapply (enumerate_exact _ (λ idx, [idx])
            (λ nd, ad ← nx.node_data g nd;
                   hot_positions (atom_attr_values (tables atoms n))
                     (atom_attrs (tables atoms n))
                     (atom_attr_slice (tables atoms n)) ad)) in Hx1 as [_ Hall].
  - destruct (Hall i nd Hnd) as (ps & (ad & Had & Hps)%bind_Ok & Hrow).
    exists ad, ps. split; [done|]. split; [done|]. split.
    + rewrite hot_positions_mapM in Hps.
      destruct (hot_positions_cases _ _ ad _ (proj1 (slots_tables atoms n Hne)))
        as [[_ (ps' & Hps' & Hrange)]|[_ Hraise]]; [|congruence].
      by replace ps with ps' by congruence.
    + intros c Hc. rewrite Hrow; [|rewrite Z.add_0_l; left|lia..].
      cbn [tables num_node_dim atom_attr_size] in Hc.
      rewrite entry_zeros by lia. by case_bool_decide.
  - intros idx a m m' Hidx (ad & Had & Hoh)%bind_Ok. rewrite Had.
    cbn [mbind result_bind].
    eapply one_hot_exact; [| |exact Hoh].
    + cbn [tables atom_attr_slice]. repeat constructor; unfold len; lia.
    + by repeat constructor.
  - intros j j' r Hne' ->%list_elem_of_singleton Hin%list_elem_of_singleton. done.
  - done.
Qed.

Lemma x_rows_exact_witness :
  ∃ ad ps,
    nx.node_data g_CCC 1 = Ok ad
    ∧ hot_positions (atom_attr_values ctx_test) (atom_attrs ctx_test)
        (atom_attr_slice ctx_test) ad = Ok ps
    ∧ Forall (λ p, 0 ≤ p < atom_attr_size ctx_test)%Z ps
    ∧ ∀ c, (0 ≤ c < num_node_dim ctx_test)%Z →
        entry (x d_CCC) (Z.of_nat 1) c
        = Some (if bool_decide (c ∈ ps) then 1 else 0)%Z.
Proof.
  apply (x_rows_exact test_atoms 32 ctx_test g_CCC d_CCC 1 1); reflexivity.
Defined.

(** X13. In the tensors of a graph, the edge at place [i] of the edge list
    has the two rows [2 i] and [2 i + 1] of the edge features, and they are
    equal: a one at the start of the block of each bond attribute plus the
    place of the stored value (place 0 when the edge does not store the
    attribute), and zeros everywhere else. *)
Theorem edge_attr_rows_exact (atoms : list string) (n : Z) (ctx : Ctx)
    (g : nx.Graph) (d : Data) (i : nat) (e : Z * Z) :
  init atoms n = Ok ctx →
  graph_to_Data ctx g = Ok d →
  nx.edges g !! i = Some e →
  ∃ ad ps,
    nx.edge_data g e = Ok ad
    ∧ hot_positions (bond_attr_values ctx) (bond_attrs ctx) (bond_attr_slice ctx) ad
      = Ok ps
    ∧ Forall (λ p, 0 ≤ p < bond_attr_size ctx)%Z ps
    ∧ ∀ c, (0 ≤ c < num_edge_dim ctx)%Z →
        entry (edge_attr d) (2 * Z.of_nat i) c
        = Some (if bool_decide (c ∈ ps) then 1 else 0)%Z
        ∧ entry (edge_attr d) (2 * Z.of_nat i + 1) c
          = Some (if bool_decide (c ∈ ps) then 1 else 0)%Z.
Proof.
  intros [Hne ->]%init_inv. unfold graph_to_Data.
  intros (x0 & Hx0 & (x1 & Hx1 & (ea & Hea & (ei & _ & (nei & _ & [= <-])%bind_Ok)%bind_Ok)%bind_Ok)%bind_Ok)%bind_Ok He.
  cbn [edge_attr].
  assert (Hlen : (Z.of_nat i < len (nx.edges g))%Z).
  { apply lookup_lt_Some in He. unfold len. lia. }
  eapply (enumerate_exact _ (λ idx, [idx * 2; idx * 2 + 1]%Z)
            (λ e, ad ← nx.edge_data g e;
                  hot_positions (bond_attr_values (tables atoms n))
                    (bond_attrs (tables atoms n))
                    (bond_attr_slice (tables atoms n)) ad)) in Hea as [_ Hall].
  - destruct (Hall i e He) as (ps & (ad & Had & Hps)%bind_Ok & Hrow).
    exists ad, ps. split; [done|]. split; [done|]. split.
    + rewrite hot_positions_mapM in Hps.
      destruct (hot_positions_cases _ _ ad _ (proj2 (slots_tables atoms n Hne)))
        as [[_ (ps' & Hps' & Hrange)]|[_ Hraise]]; [|congruence].
      by replace ps with ps' by congruence.
    + intros c Hc. split.
      * rewrite Hrow; [|replace (2 * Z.of_nat i)%Z with ((0 + Z.of_nat i) * 2)%Z by lia;
                        left|lia..].
        rewrite entry_zeros by lia. by case_bool_decide.
      * rewrite Hrow; [|replace (2 * Z.of_nat i + 1)%Z
                          with ((0 + Z.of_nat i) * 2 + 1)%Z by lia;
                        right; left|lia..].
        rewrite entry_zeros by lia. by case_bool_decide.
  - intros idx a m m' Hidx (ad & Had & Hoh)%bind_Ok. rewrite Had.
    cbn [mbind result_bind].
    eapply one_hot_exact; [| |exact Hoh].
    + cbn [tables bond_attr_slice]. by repeat constructor.
    + repeat constructor; lia.
  - intros j j' r Hne' Hin Hin'.
    apply elem_of_cons in Hin as [->|Hin%list_elem_of_singleton];
      apply elem_of_cons in Hin' as [Hin'|Hin'%list_elem_of_singleton]; lia.
  - done.
Qed.

Lemma edge_attr_rows_exact_witness :
  ∃ ad ps,
    nx.edge_data g_CCC (1, 2)%Z = Ok ad
    ∧ hot_positions (bond_attr_values ctx_test) (bond_attrs ctx_test)
        (bond_attr_slice ctx_test) ad = Ok ps
    ∧ Forall (λ p, 0 ≤ p < bond_attr_size ctx_test)%Z ps
    ∧ ∀ c, (0 ≤ c < num_edge_dim ctx_test)%Z →
        entry (edge_attr d_CCC) (2 * Z.of_nat 1) c
        = Some (if bool_decide (c ∈ ps) then 1 else 0)%Z
        ∧ entry (edge_attr d_CCC) (2 * Z.of_nat 1 + 1) c
          = Some (if bool_decide (c ∈ ps) then 1 else 0)%Z.
Proof.
  apply (edge_attr_rows_exact test_atoms 32 ctx_test g_CCC d_CCC 1 (1, 2)%Z);
    reflexivity.
Defined.

(** ** What the conversion to a molecule refuses *)

Lemma for_each_raises {A S : Type} (body : A → S → result S) (l : list A)
    (a : A) (s0 : S) :
  a ∈ l → (∀ s, raises (body a s)) → raises (for_each l body s0).
Proof.
  intros Hin Hbody. revert s0. induction l as [|a' l IH]; intros s0.
  - by apply elem_of_nil in Hin.
  - cbn [for_each]. apply elem_of_cons in Hin as [<-|Hin].
    + specialize (Hbody s0). by destruct (body a s0).
    + destruct (body a' s0) as [s1|e]; [by apply IH | done].
Qed.

Lemma raises_bind {A B : Type} (m : result A) (k : A → result B) :
  raises m → raises (m ≫= k).
Proof. by destruct m. Qed.

Lemma elem_of_range (n : nat) (i : Z) : i ∈ range n ↔ (0 ≤ i < Z.of_nat n)%Z.
Proof.
  unfold range. rewrite list_elem_of_fmap. split.
  - intros (k & -> & Hk%elem_of_seq). lia.
  - intros Hi. exists (Z.to_nat i). split; [lia|]. apply elem_of_seq. lia.
Qed.

Section refusals.
Variable Chem_Atom : pyval → result Atom.
Variable SanitizeMol : Mol → result Mol.
Variable MolToSmiles : Mol → result string.
Variable MolFromSmiles : string → result (option Mol).

(** X14. [graph_to_mol] reads the nodes by the numbers [0 .. n - 1], [n]
    the number of nodes, and hands every edge to [AddBond]. So it raises,
    and [is_sane] answers [False], whatever RDKit does, as soon as one of
    these numbers is not a node of the graph, or is a node that stores no
    symbol (as the nodes that [add_edge] creates), or the graph has an
    edge from a node to itself. *)
Theorem graph_to_mol_refuses (g : nx.Graph) :
  (∃ i, (0 ≤ i < len (nx.nodes g))%Z
        ∧ (i ∉ nx.nodes g ∨ ∃ d, nx.node_data g i = Ok d ∧ d !! "v" = None))
  ∨ (∃ u, (u, u) ∈ nx.edges g) →
  raises (graph_to_mol Chem_Atom SanitizeMol g)
  ∧ is_sane Chem_Atom SanitizeMol MolToSmiles MolFromSmiles g = false.
Proof.
  intros H.
  assert (Hr : raises (graph_to_mol Chem_Atom SanitizeMol g)).
  { unfold graph_to_mol. destruct H as [(i & Hi & Hbad)|[u Hu]].
    - apply raises_bind. apply (for_each_raises _ _ i); [by apply elem_of_range|].
      intros mp. destruct Hbad as [Hout|(d & Hd & Hv)].
      + unfold nx.node_data, od_item.
        by rewrite (proj2 (od_get_None _ _) Hout).
      + rewrite Hd. cbn [mbind result_bind]. unfold build_atom. by rewrite Hv.
    - destruct (for_each (range _) _ _) as [mp|e]; [|done].
      cbn [mbind result_bind]. apply raises_bind.
      apply (for_each_raises _ _ (u, u)); [done|]. intros mp'.
      destruct (nx.edge_data g (u, u)) as [d|]; [|done]. cbn [mbind result_bind].
      destruct (as_bond _) as [t|]; [|done]. cbn [mbind result_bind fst snd].
      unfold AddBond. destruct (as_unsigned (VInt u)) as [u'|]; [|done].
      cbn [mbind result_bind]. destruct (negb _); [done|]. by rewrite Z.eqb_refl. }
  split; [done|]. unfold is_sane.
  by destruct (graph_to_mol Chem_Atom SanitizeMol g).
Qed.
End refusals.

Lemma graph_to_mol_refuses_witness :
  raises (graph_to_mol small_Atom small_SanitizeMol g_bond_only)
  ∧ is_sane small_Atom small_SanitizeMol small_MolToSmiles small_MolFromSmiles
            g_bond_only = false.
Proof.
  apply (graph_to_mol_refuses small_Atom small_SanitizeMol small_MolToSmiles
           small_MolFromSmiles g_bond_only).
  left. exists 0%Z. split; [by vm_compute|]. right. exists ∅. split; reflexivity.
Defined.

(** ** From a molecule to a graph and back *)

Lemma range_S (k : nat) : range (S k) = range k ++ [Z.of_nat k].
Proof. unfold range. by rewrite seq_S, map_app. Qed.

Lemma edge_data_lookup (g : nx.Graph) (x y : Z) :
  nx.edge_data g (x, y) = of_option KeyError (edge_lookup (nx._adj g) x y).
Proof.
  unfold nx.edge_data, edge_lookup, od_item. cbn [fst snd].
  by destruct (od_get x (nx._adj g)).
Qed.

Lemma edge_lookup_adjacent (adj : odict Z (odict Z (gmap string pyval))) (x y : Z) :
  is_Some (edge_lookup adj x y) ↔ adjacent adj x y.
Proof.
  unfold edge_lookup, adjacent. destruct (od_get x adj) as [nbrs|]; simpl.
  - split; [eauto|]. by intros (? & [= <-] & ?).
  - split; [by intros [? ?]|]. by intros (? & ? & _).
Qed.

Lemma edge_lookup_link (adj : odict Z (odict Z (gmap string pyval)))
    (u v x y : Z) (dd : gmap string pyval) :
  edge_lookup (link u v dd adj) x y
  = if decide (x = u ∧ y = v) then Some dd else edge_lookup adj x y.
Proof.
  unfold edge_lookup, link. rewrite od_get_set.
  destruct (decide (u = x)) as [->|Hne]; simpl.
  - rewrite od_get_set. destruct (decide (v = y)) as [->|Hvy].
    + by rewrite decide_True.
    + rewrite decide_False by (intros [_ ?]; congruence).
      by destruct (od_get x adj).
  - rewrite decide_False by (intros [? _]; congruence). done.
Qed.

(** [add_edge] between two nodes that exist. *)
Lemma add_edge_nodes (u v : Z) (kw : gmap string pyval) (g : nx.Graph) :
  is_Some (od_get u (nx._node g)) → is_Some (od_get v (nx._node g)) →
  nx._node (nx.add_edge u v kw g) = nx._node g
  ∧ ∀ x y, edge_lookup (nx._adj (nx.add_edge u v kw g)) x y
           = if decide ((x = u ∧ y = v) ∨ (x = v ∧ y = u))
             then Some (kw ∪ default ∅ (edge_lookup (nx._adj g) u v))
             else edge_lookup (nx._adj g) x y.
Proof.
  intros [du Hu] [dv Hv]. unfold nx.add_edge.
  assert (Ht : nx.touch v (nx.touch u g) = g).
  { unfold nx.touch. rewrite Hu. by rewrite Hv. }
  rewrite Ht. cbn [nx._node nx._adj]. split; [done|]. intros x y.
  set (nu := default [] (od_get u (nx._adj g))).
  assert (Hold : od_get v nu = edge_lookup (nx._adj g) u v).
  { unfold nu, edge_lookup. by destruct (od_get u (nx._adj g)). }
  rewrite Hold.
  set (dd := kw ∪ default ∅ (edge_lookup (nx._adj g) u v)).
  change (od_set u (od_set v dd nu) (nx._adj g)) with (link u v dd (nx._adj g)).
  set (adj3 := link u v dd (nx._adj g)).
  change (od_set v (od_set u dd (default [] (od_get v adj3))) adj3)
    with (link v u dd adj3).
  rewrite edge_lookup_link. unfold adj3. rewrite edge_lookup_link.
  repeat case_decide; try done; tauto.
Qed.

(** The loop over the atoms, in full: the nodes are the atom indices in
    order, node [i] stores exactly the keyword arguments of atom [i], and
    no node has a neighbour. *)
Lemma atoms_loop_nodes (self : Ctx) (l : list Atom) (k : nat) (g0 g : nx.Graph) :
  for_each (enumerate_from (Z.of_nat k) l)
    (λ '(idx, a) g, kw ← atom_node self a; Ok (nx.add_node idx kw g)) g0 = Ok g →
  simple_graph g0 → nx.nodes g0 = range k →
  od_all (λ nbrs, nbrs = []) (nx._adj g0) →
  simple_graph g ∧ nx.nodes g = range (k + length l)
  ∧ od_all (λ nbrs, nbrs = []) (nx._adj g)
  ∧ (∀ i a, l !! i = Some a →
       ∃ kw, atom_node self a = Ok kw
             ∧ od_get (Z.of_nat (k + i)) (nx._node g) = Some kw)
  ∧ (∀ m, (m < Z.of_nat k)%Z → od_get m (nx._node g) = od_get m (nx._node g0)).
Proof.
  revert k g0. induction l as [|a l IH]; intros k g0; cbn [enumerate_from for_each].
  - intros [= <-] Hs Hn He. rewrite Nat.add_0_r.
    do 3 (split; [done|]). split; [by intros i a ?|done].
  - intros (g1 & (kw & Hkw & [= <-])%bind_Ok & Hrest)%bind_Ok Hs Hn He.
    assert (Hk : od_get (Z.of_nat k) (nx._node g0) = None).
    { apply od_get_None. fold (nx.nodes g0). rewrite Hn, elem_of_range. lia. }
    replace (Z.of_nat k + 1)%Z with (Z.of_nat (S k)) in Hrest by lia.
    destruct (IH (S k) _ Hrest) as (Hs' & Hn' & He' & Hat & Hlow).
    + by apply simple_add_node.
    + unfold nx.nodes, nx.add_node. rewrite Hk. cbn [nx._node].
      rewrite od_keys_set_new by by apply od_get_None.
      fold (nx.nodes g0). by rewrite Hn, range_S.
    + unfold nx.add_node. rewrite Hk. cbn [nx._adj]. by apply od_all_set.
    + split; [done|].
      split; [by replace (k + length (a :: l))%nat with (S k + length l)%nat
                by (simpl; lia)|].
      split; [done|]. split.
      * intros [|i] b Hb; simpl in Hb.
        -- injection Hb as <-. exists kw. split; [done|].
           rewrite Nat.add_0_r, Hlow by lia. unfold nx.add_node. rewrite Hk.
           cbn [nx._node]. apply od_get_set_eq.
        -- destruct (Hat i b Hb) as (kw' & Hkw' & Hget). exists kw'.
           split; [done|]. by replace (k + S i)%nat with (S k + i)%nat by lia.
      * intros m Hm. rewrite Hlow by lia. apply node_add_node_ne. lia.
Qed.

Lemma joins_sym (b : Bond) (u v : Z) : joins b u v ↔ joins b v u.
Proof. unfold joins. tauto. Qed.

(** The loop over the bonds of a well-formed molecule, started from the
    graph of the atoms: the nodes stay as they are, two nodes are adjacent
    exactly when a bond joins them, and the pair stores the keyword
    arguments of that bond, in both orientations. *)
Lemma bonds_loop_edges (self : Ctx) (nat_atoms : nat) (l done : list Bond)
    (g0 g : nx.Graph) :
  for_each l (λ b g, kw ← bond_edge self b;
                Ok (nx.add_edge (BeginAtomIdx b) (EndAtomIdx b) kw g)) g0 = Ok g →
  Forall (λ b, (0 ≤ BeginAtomIdx b < Z.of_nat nat_atoms)%Z
               ∧ (0 ≤ EndAtomIdx b < Z.of_nat nat_atoms)%Z
               ∧ BeginAtomIdx b ≠ EndAtomIdx b) l →
  oriented_once (map bond_ends (done ++ l)) →
  simple_graph g0 → nx.nodes g0 = range nat_atoms →
  (∀ u v, adjacent (nx._adj g0) u v ↔ ∃ b, b ∈ done ∧ joins b u v) →
  (∀ b u v, b ∈ done → joins b u v →
     ∃ kw, bond_edge self b = Ok kw ∧ edge_lookup (nx._adj g0) u v = Some kw) →
  simple_graph g ∧ nx.nodes g = range nat_atoms
  ∧ nx._node g = nx._node g0
  ∧ (∀ u v, adjacent (nx._adj g) u v ↔ ∃ b, b ∈ done ++ l ∧ joins b u v)
  ∧ (∀ b u v, b ∈ done ++ l → joins b u v →
       ∃ kw, bond_edge self b = Ok kw ∧ edge_lookup (nx._adj g) u v = Some kw).
Proof.
  revert done g0. induction l as [|b l IH]; intros done g0; cbn [for_each].
  - intros [= <-] _ _ Hs Hn Hadj Hdat. rewrite app_nil_r. done.
  - intros (g1 & (kw & Hkw & [= <-])%bind_Ok & Hrest)%bind_Ok
      [(Hu & Hv & Huv) Hl]%Forall_cons Honce Hs Hn Hadj Hdat.
    set (u := BeginAtomIdx b) in *. set (v := EndAtomIdx b) in *.
    assert (Hnode : ∀ w, (0 ≤ w < Z.of_nat nat_atoms)%Z →
                         is_Some (od_get w (nx._node g0))).
    { intros w Hw. apply od_get_is_Some. fold (nx.nodes g0).
      rewrite Hn. by apply elem_of_range. }
    destruct (add_edge_nodes u v kw g0 (Hnode u Hu) (Hnode v Hv)) as [Hnd Hlk].
    assert (Hnew : edge_lookup (nx._adj g0) u v = None).
    { destruct (edge_lookup (nx._adj g0) u v) as [old|] eqn:Hold; [|done].
      exfalso.
      assert (Ha : adjacent (nx._adj g0) u v)
        by (apply edge_lookup_adjacent; by rewrite Hold).
      apply Hadj in Ha as (b' & Hb' & Hj). destruct Honce as [Hnd' Hor].
      rewrite map_app in Hnd', Hor. cbn [map] in Hnd', Hor.
      destruct Hj as [Hj|Hj].
      - apply NoDup_app in Hnd' as (_ & Hdis & _).
        apply (Hdis (u, v)); [|left].
        apply list_elem_of_fmap. by exists b'.
      - apply (Hor v u); [|congruence|].
        + apply elem_of_app. left. apply list_elem_of_fmap. by exists b'.
        + apply elem_of_app. right. left. }
    rewrite Hnew in Hlk. cbn [default] in Hlk. rewrite (right_id_L ∅ (∪)) in Hlk.
    replace (done ++ b :: l) with ((done ++ [b]) ++ l) in * by by rewrite <- app_assoc.
    destruct (add_edge_spec u v kw g0 (sg_wf _ Hs)) as [_ Hadj1].
    destruct (IH (done ++ [b]) _ Hrest Hl Honce) as (H1 & H2 & H3 & H4 & H5);
      [..|by rewrite H3, Hnd].
    + by apply simple_add_edge.
    + unfold nx.nodes. rewrite Hnd. exact Hn.
    + intros x y. rewrite Hadj1, Hadj. split.
      * intros [(b' & Hb' & Hj)|H].
        -- exists b'. split; [apply elem_of_app; by left | done].
        -- exists b. split; [apply elem_of_app; right; left|].
           unfold joins, bond_ends. fold u v.
           destruct H as [[-> ->]|[-> ->]]; [by left | by right].
      * intros (b' & [Hb'| ->%list_elem_of_singleton]%elem_of_app & Hj).
        -- left. eauto.
        -- right. unfold joins, bond_ends in Hj. fold u v in Hj.
           destruct Hj as [[= -> ->]|[= -> ->]]; [by left | by right].
    + intros b' x y [Hb'| ->%list_elem_of_singleton]%elem_of_app Hj.
      * destruct (Hdat b' x y Hb' Hj) as (kw' & Hkw' & Hlook).
        exists kw'. split; [done|]. rewrite Hlk.
        rewrite decide_False; [done|]. intros Hxy.
        assert (Ha : adjacent (nx._adj g0) u v).
        { apply Hadj. exists b'. split; [done|].
          destruct Hxy as [[-> ->]|[-> ->]]; [done | by apply joins_sym]. }
        apply edge_lookup_adjacent in Ha. rewrite Hnew in Ha. by destruct Ha.
      * exists kw. split; [done|]. rewrite Hlk. rewrite decide_True; [done|].
        unfold joins, bond_ends in Hj. fold u v in Hj.
        destruct Hj as [[= -> ->]|[= -> ->]]; [by left | by right].
Qed.

Section graph_to_mol_loops.
Variable Chem_Atom : pyval → result Atom.
Variables (g : nx.Graph) (atoms : list Atom).

(** The loop over [range(len(g.nodes))] when node [i] stores what atom
    [i] is built from. *)
Lemma atoms_back (m k : nat) (bs : list Bond) :
  (k + m ≤ length atoms)%nat →
  (∀ i a, atoms !! i = Some a →
     ∃ kw, nx.node_data g (Z.of_nat i) = Ok kw ∧ build_atom Chem_Atom kw = Ok a) →
  for_each (map Z.of_nat (seq k m)) (λ i mp,
      d ← nx.node_data g i;
      a ← build_atom Chem_Atom d;
      Ok (mkMol (GetAtoms mp ++ [a]) (GetBonds mp))) (mkMol (take k atoms) bs)
  = Ok (mkMol (take (k + m) atoms) bs).
Proof.
  intros Hlen Hat. revert k Hlen. induction m as [|m IH]; intros k Hlen.
  - by rewrite Nat.add_0_r.
  - cbn [seq map for_each].
    destruct (lookup_lt_is_Some_2 atoms k) as [a Ha]; [lia|].
    destruct (Hat k a Ha) as (kw & -> & Hb). cbn [mbind result_bind].
    rewrite Hb. cbn [mbind result_bind GetAtoms GetBonds].
    rewrite <- (take_S_r _ _ _ Ha).
    rewrite IH by lia. by rewrite Nat.add_succ_comm.
Qed.

Variable P : Z * Z → BondType → Prop.

(** The loop over the edges when every edge joins two different atoms
    and stores a bond type: no call of [AddBond] is refused, and the bonds
    come out in the order of the edges. *)
Lemma bonds_back (es : list (Z * Z)) (bs0 : list Bond) :
  (len atoms ≤ 4294967296)%Z →
  Forall (λ e, ((0 ≤ e.1 < len atoms)%Z ∧ (0 ≤ e.2 < len atoms)%Z ∧ e.1 ≠ e.2)
               ∧ ∃ d t, nx.edge_data g e = Ok d
                        ∧ as_bond (default (VBond SINGLE) (d !! "type")) = Ok t
                        ∧ P e t) es →
  oriented_once (map bond_ends bs0 ++ es) →
  ∃ bs, for_each es (λ e mp,
            d ← nx.edge_data g e;
            t ← as_bond (default (VBond SINGLE) (d !! "type"));
            AddBond mp e.1 e.2 t) (mkMol atoms bs0)
        = Ok (mkMol atoms (bs0 ++ bs))
      ∧ Forall2 (λ e b, bond_ends b = e ∧ P e (GetBondType b)) es bs.
Proof.
  intros Hmany. revert bs0. induction es as [|[u v] es IH]; intros bs0; cbn [for_each].
  - intros _ _. exists []. by rewrite app_nil_r.
  - intros [[(Hu & Hv & Huv) (d & t & -> & Ht & HP)] Hes]%Forall_cons Honce.
    cbn [fst snd] in Hu, Hv, Huv. cbn [mbind result_bind fst snd].
    rewrite Ht. cbn [mbind result_bind].
    assert (Hadd : AddBond (mkMol atoms bs0) u v t
                   = Ok (mkMol atoms (bs0 ++ [mkBond u v t]))).
    { unfold AddBond. cbn [GetAtoms GetBonds].
      rewrite !as_unsigned_VInt by (unfold c_unsigned; lia).
      cbn [mbind result_bind].
      destruct (Z.ltb_spec u (len atoms)); [|lia].
      destruct (Z.ltb_spec v (len atoms)); [|lia].
      cbn [andb negb]. destruct (Z.eqb_spec u v) as [?|_]; [done|].
      destruct (bonded (mkMol atoms bs0) u v) eqn:Hb; [|done]. exfalso.
      unfold bonded in Hb. cbn [GetBonds] in Hb.
      apply existsb_exists in Hb as (b & Hb%list_elem_of_In & Hj%bool_decide_eq_true).
      destruct Honce as [Hnd Hor].
      destruct Hj as [[Hbu Hbv]|[Hbu Hbv]].
      - apply NoDup_app in Hnd as (_ & Hdis & _). apply (Hdis (u, v)); [|left].
        apply list_elem_of_fmap. exists b. by rewrite <- Hbu, <- Hbv.
      - apply (Hor v u); [|congruence|].
        + apply elem_of_app. left. apply list_elem_of_fmap. exists b.
          by rewrite <- Hbu, <- Hbv.
        + apply elem_of_app. right. left. }
    rewrite Hadd.
    destruct (IH (bs0 ++ [mkBond u v t]) Hes) as (bs & Hbs & Hall).
    { rewrite map_app. cbn [map]. by rewrite <- app_assoc. }
    exists (mkBond u v t :: bs). split.
    + cbn [mbind result_bind]. rewrite Hbs. by rewrite <- app_assoc.
    + by constructor.
Qed.
End graph_to_mol_loops.

Lemma norm_bond_joins (b b' : Bond) (u v : Z) :
  joins b u v → joins b' u v → GetBondType b = GetBondType b' →
  norm_bond b = norm_bond b'.
Proof.
  destruct b as [x y t], b' as [x' y' t']. unfold joins, bond_ends, norm_bond.
  cbn [BeginAtomIdx EndAtomIdx GetBondType].
  intros [[= -> ->]|[= -> ->]] [[= -> ->]|[= -> ->]] ->; try done;
    destruct (Z.leb_spec u v), (Z.leb_spec v u); try done; try lia;
    by replace u with v by lia.
Qed.

Lemma norm_bond_inv (b b' : Bond) :
  norm_bond b = norm_bond b' →
  joins b (BeginAtomIdx b') (EndAtomIdx b') ∧ GetBondType b = GetBondType b'.
Proof.
  destruct b as [x y t], b' as [x' y' t']. unfold joins, bond_ends, norm_bond.
  cbn [BeginAtomIdx EndAtomIdx GetBondType].
  destruct (Z.leb_spec x y), (Z.leb_spec x' y'); intros [= -> -> ->]; auto.
Qed.

Lemma ends_unique (bs : list Bond) (b1 b2 : Bond) :
  NoDup (map bond_ends bs) → b1 ∈ bs → b2 ∈ bs →
  bond_ends b1 = bond_ends b2 → b1 = b2.
Proof.
  induction bs as [|b bs IH]; cbn [map]; intros Hnd H1 H2 Heq.
  - by apply elem_of_nil in H1.
  - apply NoDup_cons in Hnd as [Hb Hnd].
    apply elem_of_cons in H1 as [->|H1]; apply elem_of_cons in H2 as [->|H2].
    + done.
    + exfalso. apply Hb. rewrite Heq. apply list_elem_of_fmap. by exists b2.
    + exfalso. apply Hb. rewrite <- Heq. apply list_elem_of_fmap. by exists b1.
    + by apply IH.
Qed.

(** Among bonds that each join two different atoms, no pair joined twice,
    two bonds that join the same atoms are one bond. *)
Lemma joins_unique (bs : list Bond) (b1 b2 : Bond) (u v : Z) :
  oriented_once (map bond_ends bs) →
  Forall (λ b, BeginAtomIdx b ≠ EndAtomIdx b) bs →
  b1 ∈ bs → b2 ∈ bs → joins b1 u v → joins b2 u v → b1 = b2.
Proof.
  intros [Hnd Hor] Hne H1 H2 J1 J2.
  assert (Hin : ∀ b, b ∈ bs → bond_ends b ∈ map bond_ends bs).
  { intros b Hb. apply list_elem_of_fmap. by exists b. }
  assert (Huv : ∀ b, b ∈ bs → joins b u v → u ≠ v).
  { intros b Hb Hj ->. apply (proj1 (Forall_forall _ _) Hne b Hb).
    unfold joins, bond_ends in Hj. destruct Hj as [[= -> ->]|[= -> ->]]; done. }
  pose proof (Huv b1 H1 J1) as Hd.
  destruct J1 as [E1|E1], J2 as [E2|E2].
  - apply (ends_unique bs); congruence.
  - exfalso. apply (Hor u v); [| done |]; [rewrite <- E1 | rewrite <- E2]; auto.
  - exfalso. apply (Hor u v); [| done |]; [rewrite <- E2 | rewrite <- E1]; auto.
  - apply (ends_unique bs); congruence.
Qed.

Lemma NoDup_norm_bond (bs : list Bond) :
  oriented_once (map bond_ends bs) →
  Forall (λ b, BeginAtomIdx b ≠ EndAtomIdx b) bs →
  NoDup (map norm_bond bs).
Proof.
  intros Honce Hne. apply NoDup_fmap_2_strong.
  - intros b1 b2 H1 H2 [Hj Ht]%norm_bond_inv.
    apply (joins_unique bs b1 b2 (BeginAtomIdx b2) (EndAtomIdx b2)); try done.
    by left.
  - destruct Honce as [Hnd _]. by apply NoDup_fmap_1 in Hnd.
Qed.

Lemma Forall2_ends (Q : Z * Z → Bond → Prop) (es : list (Z * Z))
    (bs : list Bond) :
  Forall2 (λ e b, bond_ends b = e ∧ Q e b) es bs →
  map bond_ends bs = es.
Proof. induction 1 as [|e b es bs [He _] _ IH]; [done|]. cbn [map]. by rewrite He, IH. Qed.

(** The graph of a molecule as RDKit keeps it: the nodes are the atom
    indices in order, node [i] stores the keyword arguments of atom [i],
    two nodes are adjacent exactly when a bond joins them, and the pair
    stores the keyword arguments of that bond. *)
Lemma mol_to_graph_built (atoms : list string) (n : Z) (mol : Mol) :
  atoms ≠ [] → wf_mol mol →
  ∃ g, mol_to_graph (tables atoms n) mol = Ok g
       ∧ simple_graph g
       ∧ nx.nodes g = range (length (GetAtoms mol))
       ∧ (∀ i a, GetAtoms mol !! i = Some a →
            ∃ kw, atom_node (tables atoms n) a = Ok kw
                  ∧ od_get (Z.of_nat i) (nx._node g) = Some kw)
       ∧ (∀ u v, adjacent (nx._adj g) u v
                 ↔ ∃ b, b ∈ GetBonds mol ∧ joins b u v)
       ∧ (∀ b u v, b ∈ GetBonds mol → joins b u v →
            ∃ kw, bond_edge (tables atoms n) b = Ok kw
                  ∧ edge_lookup (nx._adj g) u v = Some kw).
Proof.
  intros Hne [Hends Honce].
  set (ctx := tables atoms n).
  set (body1 := λ '(idx, a) g,
    kw ← atom_node ctx a; Ok (nx.add_node idx kw g)).
  set (body2 := λ b g,
    kw ← bond_edge ctx b;
    Ok (nx.add_edge (BeginAtomIdx b) (EndAtomIdx b) kw g)).
  destruct (for_each_total body1 (enumerate (GetAtoms mol)) nx.empty) as [g1 Hg1].
  { intros [idx a] s1 _. destruct (atom_node_total atoms n a Hne) as [kw Hkw].
    unfold body1, ctx. rewrite Hkw. simpl. eauto. }
  destruct (for_each_total body2 (GetBonds mol) g1) as [g Hg].
  { intros b s1 _. destruct (bond_edge_total atoms n b) as [kw Hkw].
    unfold body2, ctx. rewrite Hkw. simpl. eauto. }
  destruct (atoms_loop_nodes ctx (GetAtoms mol) 0 nx.empty g1 Hg1)
    as (Hs1 & Hn1 & He1 & Hat1 & _);
    [apply simple_empty | done | apply od_all_nil |].
  cbn [Nat.add] in Hn1.
  destruct (bonds_loop_edges ctx (length (GetAtoms mol)) (GetBonds mol) [] g1 g Hg)
    as (Hs & Hn & Hnode & Hadj & Hdat); try done.
  { intros u v. split.
    - intros (nbrs & Hu & Hv). rewrite (He1 u nbrs Hu) in Hv. by destruct Hv.
    - by intros (b & ?%elem_of_nil & _). }
  { by intros b u v ?%elem_of_nil. }
  cbn [app] in Hadj, Hdat.
  exists g. split; [|split; [done|split; [done|split; [|done]]]].
  - unfold mol_to_graph. fold ctx body1 body2. rewrite Hg1. exact Hg.
  - intros i a Hi. destruct (Hat1 i a Hi) as (kw & Hkw & Hget).
    cbn [Nat.add] in Hget. exists kw. split; [done|]. by rewrite Hnode.
Qed.

Section rebuild.
Variable Chem_Atom : pyval → result Atom.
Variable SanitizeMol : Mol → result Mol.

(** X15. A molecule survives the way to a graph and back up to the call
    of [SanitizeMol]. For a molecule as RDKit keeps it, with its charges
    and counts in the C types RDKit gives them, and an atom
    constructor that starts every atom from its symbol and the defaults,
    [mol_to_graph] returns a graph, and [graph_to_mol] on that graph hands
    to [SanitizeMol] a molecule with the same atoms in the same order and
    with the same bonds, each once and with its type; the bonds may come in
    another order and with their two ends exchanged. *)
Theorem rebuilt_before_sanitize (atoms : list string) (n : Z) (ctx : Ctx)
    (mol : Mol) :
  init atoms n = Ok ctx →
  wf_mol mol →
  mol_in_range mol →
  (∀ a, a ∈ GetAtoms mol →
     Chem_Atom (VStr (Symbol a)) = Ok (mkAtom (Symbol a) CHI_UNSPECIFIED 0 0 false)) →
  ∃ g bonds,
    mol_to_graph ctx mol = Ok g
    ∧ graph_to_mol Chem_Atom SanitizeMol g
      = SanitizeMol (mkMol (GetAtoms mol) bonds)
    ∧ map norm_bond bonds ≡ₚ map norm_bond (GetBonds mol).
Proof.
  intros [Hne ->]%init_inv Hwf [Hmany Hfields] Hchem.
  set (ctx := tables atoms n).
  destruct (mol_to_graph_built atoms n mol Hne Hwf)
    as (g & Hg & Hs & Hn & Hat & Hadj & Hdat).
  fold ctx in Hg, Hat, Hdat. destruct Hwf as [Hends Honce].
  assert (Hne' : Forall (λ b, BeginAtomIdx b ≠ EndAtomIdx b) (GetBonds mol)).
  { eapply Forall_impl; [exact Hends|]. by intros b (_ & _ & ?). }
  assert (Hedge : ∀ u v, (u, v) ∈ nx.edges g →
            ∃ b kw, b ∈ GetBonds mol ∧ joins b u v ∧ bond_edge ctx b = Ok kw
                    ∧ nx.edge_data g (u, v) = Ok kw).
  { intros u v Huv. apply (edges_sound g u v Hs) in Huv.
    apply has_edge_adjacent, Hadj in Huv as (b & Hb & Hj).
    destruct (Hdat b u v Hb Hj) as (kw & Hkw & Hlook).
    exists b, kw. repeat (split; [done|]). by rewrite edge_data_lookup, Hlook. }
  destruct (bonds_back g (GetAtoms mol)
              (λ e t, ∃ b, b ∈ GetBonds mol ∧ joins b e.1 e.2 ∧ GetBondType b = t)
              (nx.edges g) [] Hmany) as (bonds & Hbonds & Hall).
  { apply Forall_forall. intros [u v] Huv.
    destruct (Hedge u v Huv) as (b & kw & Hb & Hj & Hkw & Hd). cbn [fst snd].
    pose proof (proj1 (Forall_forall _ _) Hends b Hb) as (Hu & Hv & Hd').
    split.
    - unfold joins, bond_ends in Hj.
      destruct Hj as [[= <- <-]|[= <- <-]]; repeat split; try lia; done.
    - exists kw, (GetBondType b). split; [done|]. split; [|eauto].
      by apply (as_bond_bond_edge atoms n). }
  { cbn [map app]. by apply edges_once. }
  cbn [app] in Hbonds.
  exists g, bonds. split; [done|split].
  - unfold graph_to_mol.
    assert (Hlen : length (nx.nodes g) = length (GetAtoms mol)).
    { rewrite Hn. unfold range. by rewrite length_map, length_seq. }
    rewrite Hlen. unfold range.
    change (mkMol [] []) with (mkMol (take 0 (GetAtoms mol)) []).
    rewrite (atoms_back Chem_Atom g (GetAtoms mol) (length (GetAtoms mol)) 0 []);
      [|done|].
    + cbn [Nat.add]. rewrite firstn_all. cbn [mbind result_bind].
      by rewrite Hbonds.
    + intros i a Hi. destruct (Hat i a Hi) as (kw & Hkw & Hget).
      exists kw. split.
      * unfold nx.node_data, od_item. by rewrite Hget.
      * assert (Ha : a ∈ GetAtoms mol) by by eapply list_elem_of_lookup_2.
        destruct (proj1 (Forall_forall _ _) Hfields a Ha) as [Hc Hu].
        apply (build_atom_atom_node Chem_Atom atoms n); [|done..].
        by apply Hchem.
  - assert (Hes : map bond_ends bonds = nx.edges g)
      by (eapply Forall2_ends; exact Hall).
    assert (Hin : ∀ b', b' ∈ bonds →
              ∃ b, b ∈ GetBonds mol
                   ∧ joins b (BeginAtomIdx b') (EndAtomIdx b')
                   ∧ GetBondType b = GetBondType b').
    { intros b' (i & Hi)%list_elem_of_lookup.
      destruct (Forall2_lookup_r _ _ _ _ _ Hall Hi) as (e & _ & <- & HP).
      exact HP. }
    apply NoDup_Permutation.
    + apply NoDup_norm_bond.
      * rewrite Hes. by apply edges_once.
      * apply Forall_forall. intros b' Hb'.
        destruct (Hin b' Hb') as (b & Hb & Hj & _). intros Heq.
        apply (proj1 (Forall_forall _ _) Hne' b Hb).
        unfold joins, bond_ends in Hj. rewrite <- Heq in Hj.
        destruct Hj as [[= -> ->]|[= -> ->]]; done.
    + by apply NoDup_norm_bond.
    + intros x. rewrite !list_elem_of_fmap. split.
      * intros (b' & -> & Hb'). destruct (Hin b' Hb') as (b & Hb & Hj & Ht).
        exists b. split; [|done]. symmetry.
        apply (norm_bond_joins b b' (BeginAtomIdx b') (EndAtomIdx b'));
          [done | by left | done].
      * intros (b & -> & Hb).
        assert (Ha : adjacent (nx._adj g) (BeginAtomIdx b) (EndAtomIdx b)).
        { apply Hadj. exists b. split; [done | by left]. }
        apply has_edge_adjacent, (edges_covers g _ _ (sg_wf _ Hs)) in Ha.
        assert (∃ e, e ∈ nx.edges g ∧ joins b e.1 e.2) as (e & He & Hj).
        { destruct Ha as [Ha|Ha]; eexists; (split; [exact Ha|]);
            [by left | by right]. }
        apply list_elem_of_lookup in He as (i & Hi).
        destruct (Forall2_lookup_l _ _ _ _ _ Hall Hi)
          as (b' & Hi' & <- & b1 & Hb1 & Hj1 & Ht1).
        cbn [bond_ends fst snd] in Hj, Hj1.
        assert (b1 = b) as ->
          by (eapply (joins_unique (GetBonds mol)); eassumption).
        exists b'. split; [|by eapply list_elem_of_lookup_2].
        apply (norm_bond_joins b b' (BeginAtomIdx b') (EndAtomIdx b'));
          [done | by left | done].
Qed.
End rebuild.

Lemma rebuilt_before_sanitize_witness :
  ∃ g bonds,
    mol_to_graph ctx_test iminium_rev = Ok g
    ∧ graph_to_mol small_Atom small_SanitizeMol g
      = small_SanitizeMol (mkMol (GetAtoms iminium_rev) bonds)
    ∧ map norm_bond bonds ≡ₚ map norm_bond (GetBonds iminium_rev).
Proof.
  apply (rebuilt_before_sanitize small_Atom small_SanitizeMol test_atoms 32
           ctx_test iminium_rev).
  - reflexivity.
  - split.
    + repeat constructor; by vm_compute.
    + split; [apply NoDup_singleton|].
      intros u v [= -> ->]%list_elem_of_singleton _ [=]%list_elem_of_singleton.
  - split; [by vm_compute|]. repeat constructor; by vm_compute.
  - intros a Ha.
    repeat (apply elem_of_cons in Ha as [->|Ha]; [reflexivity|]).
    by apply elem_of_nil in Ha.
Defined.

(** X16. The graph of a molecule as RDKit keeps it. Its nodes are the atom
    indices [0 .. n - 1] in this order; node [i] stores the symbol of atom
    [i] and its attributes that differ from the defaults, and nothing
    else; two nodes are joined exactly when a bond of the molecule joins
    the two atoms, in whichever direction the bond is written; and the
    edge, read from either end, stores the type of that bond when it is
    not the default, and nothing else. *)
Theorem mol_to_graph_graph (atoms : list string) (n : Z) (ctx : Ctx) (mol : Mol) :
  init atoms n = Ok ctx →
  wf_mol mol →
  ∃ g, mol_to_graph ctx mol = Ok g
       ∧ simple_graph g
       ∧ nx.nodes g = range (length (GetAtoms mol))
       ∧ (∀ i a, GetAtoms mol !! i = Some a →
            nx.node_data g (Z.of_nat i) = atom_node ctx a)
       ∧ (∀ u v, nx.has_edge g u v = true
                 ↔ ∃ b, b ∈ GetBonds mol ∧ joins b u v)
       ∧ (∀ b, b ∈ GetBonds mol →
            nx.edge_data g (BeginAtomIdx b, EndAtomIdx b) = bond_edge ctx b
            ∧ nx.edge_data g (EndAtomIdx b, BeginAtomIdx b) = bond_edge ctx b).
Proof.
  intros [Hne ->]%init_inv Hwf.
  destruct (mol_to_graph_built atoms n mol Hne Hwf)
    as (g & Hg & Hs & Hn & Hat & Hadj & Hdat).
  exists g. do 3 (split; [done|]). split; [|split].
  - intros i a Hi. destruct (Hat i a Hi) as (kw & -> & Hget).
    unfold nx.node_data, od_item. by rewrite Hget.
  - intros u v. by rewrite has_edge_adjacent.
  - intros b Hb. split.
    + destruct (Hdat b (BeginAtomIdx b) (EndAtomIdx b) Hb) as (kw & -> & Hl);
        [by left|]. by rewrite edge_data_lookup, Hl.
    + destruct (Hdat b (EndAtomIdx b) (BeginAtomIdx b) Hb) as (kw & -> & Hl);
        [by right|]. by rewrite edge_data_lookup, Hl.
Qed.

Lemma wf_iminium_rev : wf_mol iminium_rev.
Proof.
  split.
  - repeat constructor; by vm_compute.
  - split; [apply NoDup_singleton|].
    intros u v [= -> ->]%list_elem_of_singleton _ [=]%list_elem_of_singleton.
Qed.

Lemma mol_to_graph_graph_witness :
  ∃ g, mol_to_graph ctx_test iminium_rev = Ok g
       ∧ simple_graph g
       ∧ nx.nodes g = range (length (GetAtoms iminium_rev))
       ∧ (∀ i a, GetAtoms iminium_rev !! i = Some a →
            nx.node_data g (Z.of_nat i) = atom_node ctx_test a)
       ∧ (∀ u v, nx.has_edge g u v = true
                 ↔ ∃ b, b ∈ GetBonds iminium_rev ∧ joins b u v)
       ∧ (∀ b, b ∈ GetBonds iminium_rev →
            nx.edge_data g (BeginAtomIdx b, EndAtomIdx b) = bond_edge ctx_test b
            ∧ nx.edge_data g (EndAtomIdx b, BeginAtomIdx b) = bond_edge ctx_test b).
Proof.
  apply (mol_to_graph_graph test_atoms 32 ctx_test iminium_rev);
    [reflexivity | apply wf_iminium_rev].
Defined.

(** * The arguments read from a dataclass *)

Section keyed_updates.
Context {K V : Type} `{EqDecision K}.
Implicit Types (d : odict K V).

Lemma od_get_app_r d1 d2 k :
  k ∉ od_keys d1 → od_get k (d1 ++ d2) = od_get k d2.
Proof.
  induction d1 as [|[k' v'] d1 IH]; intros Hk; [done|]. cbn [app od_get].
  apply not_elem_of_cons in Hk as [Hne Hk]. rewrite decide_False by done. by apply IH.
Qed.

Lemma od_set_app_r d1 d2 k v :
  k ∉ od_keys d1 → od_set k v (d1 ++ d2) = d1 ++ od_set k v d2.
Proof.
  induction d1 as [|[k' v'] d1 IH]; intros Hk; [done|]. cbn [app od_set].
  apply not_elem_of_cons in Hk as [Hne Hk]. rewrite decide_False by done.
  by rewrite IH.
Qed.

Lemma od_set_new d k v : k ∉ od_keys d → od_set k v d = d ++ [(k, v)].
Proof.
  intros Hk. rewrite <- (app_nil_r d) at 1. by rewrite od_set_app_r.
Qed.

(** A loop over the keys of a dictionary that replaces the value of each
    key in turn works entry by entry. *)
Lemma for_each_keys (step : V → result V) (done rest : odict K V) :
  NoDup (od_keys (done ++ rest)) →
  for_each (od_keys rest) (λ k d, v ← od_item k d; v' ← step v; Ok (od_set k v' d))
           (done ++ rest)
  = (rest' ← mapM (λ '(k, v), v' ← step v; Ok (k, v')) rest; Ok (done ++ rest')).
Proof.
  revert done. induction rest as [|[k v] rest IH]; intros done Hnd.
  - done.
  - cbn [od_keys map fst for_each mapM].
    assert (Hk : k ∉ od_keys done).
    { unfold od_keys in Hnd. rewrite map_app in Hnd.
      apply NoDup_app in Hnd as (_ & Hdis & _). intros Hin.
      apply (Hdis k Hin). left. }
    unfold od_item. rewrite od_get_app_r by done. cbn [od_get].
    rewrite decide_True by done. cbn [of_option mbind result_bind].
    destruct (step v) as [v'|e]; cbn [mbind result_bind]; [|done].
    rewrite od_set_app_r by done. cbn [od_set]. rewrite decide_True by done.
    replace (done ++ (k, v') :: rest) with ((done ++ [(k, v')]) ++ rest)
      by by rewrite <- app_assoc.
    fold (od_keys rest). rewrite IH.
    + destruct (mapM _ rest) as [rest'|e]; cbn [mbind result_bind]; [|done].
      by rewrite <- app_assoc.
    + unfold od_keys in *. rewrite !map_app in *. cbn [map fst] in *.
      by rewrite <- app_assoc.
Qed.
End keyed_updates.

Lemma mapM_Ok_map {A B : Type} (f : A → result B) (g : A → B) (l : list A) :
  Forall (λ a, f a = Ok (g a)) l → mapM f l = Ok (map g l).
Proof.
  induction 1 as [|a l Ha _ IH]; [done|]. cbn [mapM map]. by rewrite Ha, IH.
Qed.

Lemma mapM_ext {A B : Type} (f g : A → result B) (l : list A) :
  Forall (λ a, f a = g a) l → mapM f l = mapM g l.
Proof.
  induction 1 as [|a l Ha _ IH]; [done|]. cbn [mapM]. by rewrite Ha, IH.
Qed.

Lemma mapM_map {A B C : Type} (f : B → result C) (g : A → B) (l : list A) :
  mapM f (map g l) = mapM (λ a, f (g a)) l.
Proof. induction l as [|a l IH]; [done|]. cbn [mapM map]. by rewrite IH. Qed.

Section extract_fields_facts.
Context {V : Type}.
Implicit Types (field : cli.Field V) (fields : list (cli.Field V)).

Lemma describe_raises fields (d0 : odict string (cli.Arg V)) :
  Exists (λ field, cli.metadata field !! "help" = None) fields →
  for_each fields (λ field arg_fields,
      help ← of_option KeyError (cli.metadata field !! "help");
      Ok (od_set (cli.name field) (cli.mkArg (inl (cli.type field)) help None)
                 arg_fields)) d0
  = Raise KeyError.
Proof.
  intros Hex. revert d0. induction fields as [|f fields IH]; intros d0.
  - by apply Exists_nil in Hex.
  - cbn [for_each]. destruct (cli.metadata f !! "help") as [h|] eqn:Hh; [|done].
    cbn [of_option mbind result_bind]. apply IH.
    apply Exists_cons in Hex as [Hex|Hex]; [congruence | done].
Qed.

Lemma describe_closed fields (d0 : odict string (cli.Arg V)) :
  Forall (λ field, is_Some (cli.metadata field !! "help")) fields →
  NoDup (od_keys d0 ++ map cli.name fields) →
  for_each fields (λ field arg_fields,
      help ← of_option KeyError (cli.metadata field !! "help");
      Ok (od_set (cli.name field) (cli.mkArg (inl (cli.type field)) help None)
                 arg_fields)) d0
  = Ok (d0 ++ map (λ field, (cli.name field, described field)) fields).
Proof.
  intros Hall. revert d0. induction Hall as [|f fields [h Hh] _ IH]; intros d0 Hnd.
  - by rewrite app_nil_r.
  - cbn [for_each map]. rewrite Hh. cbn [of_option mbind result_bind].
    assert (Hk : cli.name f ∉ od_keys d0).
    { apply NoDup_app in Hnd as (_ & Hdis & _). intros Hin.
      apply (Hdis _ Hin). left. }
    rewrite od_set_new by done. rewrite IH.
    + unfold described. rewrite Hh. cbn [default]. by rewrite <- app_assoc.
    + unfold od_keys in *. rewrite map_app. cbn [map fst].
      by rewrite <- app_assoc.
Qed.

Lemma assign_defaults_closed fields (d0 : odict string (cli.Arg V)) :
  NoDup (od_keys d0 ++ map cli.name fields) →
  cli.assign_defaults fields
    (d0 ++ map (λ field, (cli.name field, described field)) fields)
  = (map cli.none_to_string fields,
     Ok (d0 ++ map (λ field, (cli.name field, with_default field)) fields)).
Proof.
  revert d0. induction fields as [|f fields IH]; intros d0 Hnd.
  - done.
  - assert (Hk : cli.name f ∉ od_keys d0).
    { apply NoDup_app in Hnd as (_ & Hdis & _). intros Hin.
      apply (Hdis _ Hin). left. }
    assert (Hnd' : ∀ a : cli.Arg V,
              NoDup (od_keys (d0 ++ [(cli.name f, a)]) ++ map cli.name fields)).
    { intros a. unfold od_keys in *. rewrite map_app. cbn [map fst].
      by rewrite <- app_assoc. }
    assert (Hsplit : ∀ (a : cli.Arg V) (rest : odict string (cli.Arg V)),
              d0 ++ (cli.name f, a) :: rest = (d0 ++ [(cli.name f, a)]) ++ rest).
    { intros a rest. by rewrite <- app_assoc. }
    assert (Hhead : ∀ a : cli.Arg V,
              cli.assign_defaults fields
                (d0 ++ (cli.name f, a)
                    :: map (λ field, (cli.name field, described field)) fields)
              = (map cli.none_to_string fields,
                 Ok (d0 ++ (cli.name f, a)
                        :: map (λ field, (cli.name field, with_default field))
                             fields))).
    { intros a. by rewrite Hsplit, (IH _ (Hnd' _)), <- Hsplit. }
    cbn [cli.assign_defaults map].
    unfold od_item. rewrite od_get_app_r by done. cbn [od_get].
    rewrite decide_True by done. cbn [of_option].
    rewrite od_set_app_r by done. cbn [od_set]. rewrite decide_True by done.
    destruct (cli.default f) as [| |s|v] eqn:Hd; rewrite Hhead;
      unfold cli.none_to_string, with_default, described; rewrite ?Hd;
      cbn [cli.default cli.arg_type cli.description]; rewrite ?Hd; reflexivity.
Qed.
End extract_fields_facts.

Lemma for_each_ext {A S : Type} (f g : A → S → result S) (l : list A) (s : S) :
  (∀ a s, f a s = g a s) → for_each l f s = for_each l g s.
Proof.
  intros Hfg. revert s. induction l as [|a l IH]; intros s; [done|].
  cbn [for_each]. rewrite Hfg. destruct (g a s); [apply IH | done].
Qed.

Lemma mapM_raises {A B : Type} (f : A → result B) (e : exn) (l : list A) :
  Forall (λ a, f a = Raise e ∨ ∃ b, f a = Ok b) l →
  Exists (λ a, f a = Raise e) l → mapM f l = Raise e.
Proof.
  induction 1 as [|a l Ha _ IH]; intros Hex; [by apply Exists_nil in Hex|].
  cbn [mapM]. destruct Ha as [->|[b Hb]]; [done|]. rewrite Hb.
  cbn [mbind result_bind]. rewrite IH; [done|].
  apply Exists_cons in Hex as [Hex|Hex]; [congruence | done].
Qed.

Lemma mapM_Forall2 {A B : Type} (f : A → result B) (l : list A) (k : list B) :
  Forall2 (λ a b, f a = Ok b) l k → mapM f l = Ok k.
Proof.
  induction 1 as [|a b l k Ha _ IH]; [done|]. cbn [mapM]. by rewrite Ha, IH.
Qed.

Section extract_fields_closed.
Context {V : Type}.
Implicit Types (field : cli.Field V) (fields : list (cli.Field V)).

Lemma convert_type_name field :
  cli.convert_type (with_default field)
  = of_option ValueError (cli.type_name (cli.type field)).
Proof.
  unfold cli.convert_type, cli.type_name, with_default. cbn [cli.arg_type].
  destruct (cli.type field) as [[]|args]; cbn [cli.find_type of_option]; try done.
  by destruct (omap _ args) as [|s [|s' l]].
Qed.

Lemma name_none_to_string field :
  cli.name (cli.none_to_string field) = cli.name field.
Proof. unfold cli.none_to_string. by destruct (cli.default field). Qed.

Lemma metadata_none_to_string field :
  cli.metadata (cli.none_to_string field) = cli.metadata field.
Proof. unfold cli.none_to_string. by destruct (cli.default field). Qed.

Lemma argument_none_to_string field :
  cli.argument (cli.none_to_string field) = cli.argument field.
Proof.
  unfold cli.argument, cli.none_to_string.
  destruct (cli.default field) eqn:Hd; cbn; rewrite ?Hd. all: done.
Qed.

Lemma none_to_string_twice field :
  cli.none_to_string (cli.none_to_string field) = cli.none_to_string field.
Proof. unfold cli.none_to_string. by destruct (cli.default field) eqn:Hd; rewrite ?Hd. Qed.

Lemma default_none_to_string field :
  cli.default (cli.none_to_string field) ≠ cli.d_None.
Proof.
  unfold cli.none_to_string. by destruct (cli.default field) eqn:Hd; rewrite ?Hd.
Qed.

(** With a help text on every field, the function works field by field. *)
Lemma extract_closed fields :
  NoDup (map cli.name fields) →
  Forall (λ field, is_Some (cli.metadata field !! "help")) fields →
  cli.extract_fields_from_class fields
  = (map cli.none_to_string fields,
     mapM (λ field, of_option ValueError (cli.argument field)) fields).
Proof.
  intros Hnd Hhelp. unfold cli.extract_fields_from_class, cli.describe.
  rewrite (describe_closed fields [] Hhelp Hnd). cbn [app].
  pose proof (assign_defaults_closed fields [] Hnd) as Ha. cbn [app] in Ha.
  rewrite Ha. cbn [mbind result_bind].
  f_equal. unfold cli.convert_types.
  set (d := map (λ field, (cli.name field, with_default field)) fields).
  rewrite (for_each_ext _
    (λ k d, v ← od_item k d;
            v' ← (λ a : cli.Arg V, s ← cli.convert_type a;
                    Ok (cli.mkArg (inr s) (cli.description a) (cli.arg_default a))) v;
            Ok (od_set k v' d))).
  2:{ intros k d'. destruct (od_item k d') as [a|]; [|done]. cbn [mbind result_bind].
      by destruct (cli.convert_type a). }
  rewrite (for_each_keys _ [] d).
  2:{ cbn [app]. unfold d, od_keys. rewrite map_map. exact Hnd. }
  unfold d. rewrite mapM_map.
  rewrite (mapM_ext _ (λ field, of_option ValueError (cli.argument field))).
  - by destruct (mapM _ fields).
  - eapply Forall_impl; [exact Hhelp|]. intros f [h Hh]. cbn beta.
    rewrite convert_type_name. unfold cli.argument. rewrite Hh.
    cbn [mbind option_bind].
    destruct (cli.type_name (cli.type f)) as [s|]; [|done].
    unfold with_default. rewrite Hh. cbn.
    by destruct (cli.default f).
Qed.

Lemma extract_no_help fields :
  Exists (λ field, cli.metadata field !! "help" = None) fields →
  cli.extract_fields_from_class fields = (fields, Raise KeyError).
Proof.
  intros Hex. unfold cli.extract_fields_from_class, cli.describe.
  by rewrite describe_raises.
Qed.
End extract_fields_closed.

(** X17. [extract_fields_from_class] on a dataclass, whose fields have
    different names. A field without help text makes it raise KeyError
    before it has assigned to any field. With a help text on every field,
    a field whose annotation is neither one of [str], [int], [float],
    [bool] nor a union with exactly one of them among its members makes it
    raise ValueError. Otherwise it returns one entry per field, in the
    order of the fields, under the name of the field: the name of the
    accepted type, the help text, and the default when the field has one,
    with the string "none" for [None]. In the last two cases every default
    [None] of the dataclass has been replaced by the string. *)
Theorem extract_fields_outcome {V : Type} (fields : list (cli.Field V)) :
  NoDup (map cli.name fields) →
  (Exists (λ field, cli.metadata field !! "help" = None) fields →
     cli.extract_fields_from_class fields = (fields, Raise KeyError))
  ∧ (Forall (λ field, is_Some (cli.metadata field !! "help")) fields →
     Exists (λ field, cli.type_name (cli.type field) = None) fields →
     cli.extract_fields_from_class fields
     = (map cli.none_to_string fields, Raise ValueError))
  ∧ (∀ args, Forall2 (λ field a, cli.argument field = Some a) fields args →
       cli.extract_fields_from_class fields
       = (map cli.none_to_string fields, Ok args)).
Proof.
  intros Hnd. split; [|split].
  - apply extract_no_help.
  - intros Hhelp Hex. rewrite extract_closed by done. f_equal.
    apply mapM_raises.
    + apply Forall_forall. intros f _.
      destruct (cli.argument f); [right; by eexists | by left].
    + apply Exists_exists in Hex as (f & Hf & Hty).
      apply Exists_exists. exists f. split; [done|].
      unfold cli.argument. rewrite Hty.
      by destruct (cli.metadata f !! "help").
  - intros args Hargs. rewrite extract_closed; [| done |].
    + f_equal. apply mapM_Forall2.
      eapply Forall2_impl; [exact Hargs|]. by intros f a ->.
    + apply Forall_forall. intros f Hf.
      apply list_elem_of_lookup in Hf as (i & Hi).
      destruct (Forall2_lookup_l _ _ _ _ _ Hargs Hi) as (a & _ & Ha).
      unfold cli.argument in Ha.
      by destruct (cli.metadata f !! "help").
Qed.

Lemma extract_fields_outcome_witness :
  ∃ args, cli.extract_fields_from_class pl_trainer_args
          = (map cli.none_to_string pl_trainer_args, Ok args)
          ∧ od_get "save_top_k" args
            = Some (cli.mkArg (inr "integer") "The best k models."
                      (Some (cli.d_str "none"))).
Proof.
  eexists. split.
  - apply (extract_fields_outcome pl_trainer_args); [compute_done|].
    unfold pl_trainer_args. repeat (econstructor; [reflexivity|]). constructor.
  - reflexivity.
Defined.

(** X18. What [extract_fields_from_class] leaves behind. Unless it raised
    KeyError, no field of the dataclass is left with the default [None],
    also when it raised ValueError; and a second call on the dataclass as
    the first call left it leaves it the same and gives the same result. *)
Theorem extract_fields_twice {V : Type} (fields : list (cli.Field V)) :
  NoDup (map cli.name fields) →
  (snd (cli.extract_fields_from_class fields) ≠ Raise KeyError →
     Forall (λ field, cli.default field ≠ cli.d_None)
            (fst (cli.extract_fields_from_class fields)))
  ∧ cli.extract_fields_from_class (fst (cli.extract_fields_from_class fields))
    = cli.extract_fields_from_class fields.
Proof.
  intros Hnd.
  destruct (decide (Forall (λ field : cli.Field V,
                      is_Some (cli.metadata field !! "help")) fields))
    as [Hhelp|Hhelp].
  - rewrite (extract_closed fields Hnd Hhelp). cbn [fst snd]. split.
    + intros _. apply Forall_forall. intros f (f' & -> & _)%list_elem_of_fmap.
      apply default_none_to_string.
    + rewrite extract_closed.
      * f_equal.
        -- rewrite map_map. apply map_ext. intros f. apply none_to_string_twice.
        -- rewrite mapM_map. apply mapM_ext, Forall_forall. intros f _.
           by rewrite argument_none_to_string.
      * rewrite map_map. erewrite map_ext; [exact Hnd|].
        intros f. apply name_none_to_string.
      * apply Forall_forall. intros f (f' & -> & Hf')%list_elem_of_fmap.
        rewrite metadata_none_to_string.
        by apply (proj1 (Forall_forall _ _) Hhelp).
  - apply not_Forall_Exists in Hhelp; [|apply _].
    assert (Hex : Exists (λ field : cli.Field V,
                    cli.metadata field !! "help" = None) fields).
    { eapply Exists_impl; [exact Hhelp|]. intros f Hf.
      by apply eq_None_not_Some. }
    rewrite (extract_no_help fields Hex). cbn [fst snd].
    split; [done|]. by apply extract_no_help.
Qed.

Lemma extract_fields_twice_witness :
  (Forall (λ field, cli.default field ≠ cli.d_None)
          (fst (cli.extract_fields_from_class two_known_types)))
  ∧ snd (cli.extract_fields_from_class two_known_types) = Raise ValueError
  ∧ cli.extract_fields_from_class (fst (cli.extract_fields_from_class two_known_types))
    = cli.extract_fields_from_class two_known_types.
Proof.
  split; [|split].
  - apply (extract_fields_twice two_known_types); [compute_done | by vm_compute].
  - reflexivity.
  - apply (extract_fields_twice two_known_types). compute_done.
Defined.
